(** * Nachos synchronisation primitives and the elevator simulation

    A shallow embedding of the thread-synchronisation layer (semaphore,
    lock, condition variable; the queue-based variant of [synch.cc] and the
    semaphore-based variant [synch-sem.cc]) and of the elevator/building
    layer ([Elevator.cc]), with the properties of the specification stated
    and settled against the embedded code.

    Conventions.
    - A C++ [int] is a [Z]; [++], [--] and the arithmetic of the source go
      through [Int.wrap] (two's complement, 32 bits).
    - A [Thread*] is a thread identifier ([tid]); [NULL] is [None].
    - A C array indexed by a floor number is a total function [Z -> A]
      updated with [store].
    - Nachos runs on one processor: a region executed with interrupts
      disabled is one atomic step of the thread that runs it; outside such
      regions the scheduler may switch threads between statements.  In the
      thread machines below, the call of an operation runs the head of the
      operation (its ASSERTs and, for the queue-based condition, the
      binding of [firstLock]); after that a thread takes one step per
      region run with interrupts off and one step per statement outside
      such a region.  An ASSERT that fails halts the machine.
    - The elevator layer is embedded method by method, as the state change
      the method makes on its own; its calls into the thread system are
      kept in a trace. *)

From Stdlib Require Import ZArith List Bool Lia Arith.
Import ListNotations.
Local Open Scope Z_scope.

(** ** Machine integers *)

Module Int.

Definition min_int : Z := - 2 ^ 31.
Definition max_int : Z := 2 ^ 31 - 1.

(** Two's-complement reduction of a mathematical integer to an [int]. *)
Definition wrap (z : Z) : Z := (z + 2 ^ 31) mod 2 ^ 32 - 2 ^ 31.

Definition in_range (z : Z) : Prop := min_int <= z <= max_int.

(** [x++] and [x--]. *)
Definition incr (z : Z) : Z := wrap (z + 1).
Definition decr (z : Z) : Z := wrap (z - 1).

Definition sub (a b : Z) : Z := wrap (a - b).
Definition mul (a b : Z) : Z := wrap (a * b).

End Int.

Arguments Int.wrap : simpl never.
Arguments Int.incr : simpl never.
Arguments Int.decr : simpl never.
Arguments Int.sub : simpl never.
Arguments Int.mul : simpl never.

(** ** Arrays *)

Definition store {A : Type} (a : Z -> A) (i : Z) (v : A) : Z -> A :=
  fun j => if Z.eqb j i then v else a j.

(** ** Threads, the scheduler and the wait queues *)

Module Kernel.

Definition tid : Type := nat.
Definition lid : Type := nat.     (* a [Lock*] *)
Definition cid : Type := nat.     (* a [Condition*] *)

(** What the scheduler knows of a thread: [READY] (runnable, or running)
    or [BLOCKED] (asleep until somebody calls [ReadyToRun] on it). *)
Inductive ThreadStatus : Type := READY | BLOCKED.

Definition upd {A : Type} (f : nat -> A) (k : nat) (v : A) : nat -> A :=
  fun x => if Nat.eqb x k then v else f x.

Definition Sched : Type := tid -> ThreadStatus.

(** [scheduler->ReadyToRun(thread)] and [currentThread->Sleep()]. *)
Definition ReadyToRun (thread : tid) (sc : Sched) : Sched := upd sc thread READY.
Definition Sleep (currentThread : tid) (sc : Sched) : Sched :=
  upd sc currentThread BLOCKED.

(** [ReadyToRun] on the result of [queue->Remove()], when it is not NULL. *)
Definition wake (thread : option tid) (sc : Sched) : Sched :=
  match thread with
  | Some t => ReadyToRun t sc
  | None => sc
  end.

(** The [List] operations the primitives use. *)
Definition Append (q : list tid) (t : tid) : list tid := q ++ [t].
Definition Remove (q : list tid) : option tid * list tid :=
  match q with
  | [] => (None, [])
  | t :: q' => (Some t, q')
  end.
Definition IsEmpty (q : list tid) : bool :=
  match q with [] => true | _ :: _ => false end.

(** How a pass through a primitive ends for the calling thread. *)
Inductive Outcome : Type :=
| Returned        (* the operation ran to its end *)
| Asleep          (* the thread went to sleep inside the operation *)
| Aborted.        (* an ASSERT failed *)

End Kernel.

(** Proof steps shared by the two thread machines. *)

Ltac eqb_cases :=
  repeat match goal with
  | H : context [Nat.eqb ?a ?b] |- _ => destruct (Nat.eqb_spec a b); subst
  | |- context [Nat.eqb ?a ?b] => destruct (Nat.eqb_spec a b); subst
  end.

Ltac note H :=
  let T := type of H in
  lazymatch goal with
  | _ : T |- _ => fail
  | _ => pose proof H
  end.

Ltac split_ors :=
  repeat match goal with H : _ \/ _ |- _ => destruct H end.

(** ** The semaphore (the same code in both variants of [synch.cc]) *)

Module Sem.
Import Kernel.

Record Semaphore : Type := mkSemaphore {
  value : Z;
  queue : list tid
}.

(** [Semaphore::Semaphore(debugName, initialValue)]. *)
Definition Semaphore_new (initialValue : Z) : Semaphore :=
  mkSemaphore initialValue [].

(** [Semaphore::P], one pass of [currentThread] through the region run
    with interrupts off: from the call, or from the return of [Sleep], to
    the next [Sleep] or to the end.  A thread that falls asleep runs [P]
    again from the loop test when it is made ready and scheduled. *)
Definition P (currentThread : tid) (s : Semaphore) (sc : Sched)
  : Semaphore * Sched * Outcome :=
  if value s =? 0
  then (mkSemaphore (value s) (Append (queue s) currentThread),
        Sleep currentThread sc, Asleep)
  else (mkSemaphore (Int.decr (value s)) (queue s), sc, Returned).

(** [Semaphore::V] up to, and not including, [value++]. *)
Definition V_wake (s : Semaphore) (sc : Sched) : Semaphore * Sched :=
  let (thread, q) := Remove (queue s) in
  (mkSemaphore (value s) q, wake thread sc).

(** [value++]. *)
Definition V_incr (s : Semaphore) : Semaphore :=
  mkSemaphore (Int.incr (value s)) (queue s).

(** [Semaphore::V]. *)
Definition V (s : Semaphore) (sc : Sched) : Semaphore * Sched * Outcome :=
  let (s1, sc1) := V_wake s sc in
  (V_incr s1, sc1, Returned).

End Sem.

(** ** Lock and condition variable on raw wait queues ([synch.cc]) *)

Module SynchQueue.
Import Kernel.

Record Lock : Type := mkLock {
  mutex : Z;
  queue : list tid;
  heldByThread : option tid
}.

(** The wait queue of a condition is the field [queue] of the source. *)
Record Condition : Type := mkCondition {
  firstLock : option lid;
  cond_queue : list tid
}.

Definition Lock_new : Lock := mkLock 1 [] None.
Definition Condition_new : Condition := mkCondition None [].

(** [Lock::isHeldByCurrentThread]. *)
Definition isHeldByCurrentThread (currentThread : tid) (l : Lock) : bool :=
  match heldByThread l with
  | Some t => Nat.eqb t currentThread
  | None => false
  end.

(** Where a thread stands. *)
Inductive Pc : Type :=
| User                              (* outside the primitives *)
| AcquireLoop (l : lid)             (* Lock::Acquire, at [while(mutex==0)] *)
| ReleaseBody (l : lid)             (* Lock::Release, after its ASSERT *)
| WaitBody (c : cid) (l : lid)      (* Condition::Wait, after its ASSERTs *)
| WaitWoken (l : lid)               (* Condition::Wait, [Sleep] returned *)
| SignalBody (c : cid)              (* Condition::Signal, after its ASSERTs *)
| BroadcastBody (c : cid).          (* Condition::Broadcast, after its ASSERTs *)

Inductive Op : Type :=
| Acquire (l : lid)
| Release (l : lid)
| Wait (c : cid) (l : lid)
| Signal (c : cid) (l : lid)
| Broadcast (c : cid) (l : lid).

(** What the scheduler lets happen next: thread [t] calls an operation, or
    thread [t] runs its next step. *)
Inductive Event : Type :=
| Call (t : tid) (op : Op)
| Run (t : tid).

(** [holds t l] is a history variable: the last [Acquire] of [l] by [t]
    has returned and [t] has not called [Release] on [l] since.  No step
    reads it. *)
Record State : Type := mkState {
  locks : lid -> Lock;
  conds : cid -> Condition;
  sched : Sched;
  pc : tid -> Pc;
  holds : tid -> lid -> bool;
  halted : bool
}.

Definition init : State :=
  mkState (fun _ => Lock_new) (fun _ => Condition_new) (fun _ => READY)
    (fun _ => User) (fun _ _ => false) false.

Definition halt (s : State) : State :=
  mkState (locks s) (conds s) (sched s) (pc s) (holds s) true.
Definition set_lock (l : lid) (x : Lock) (s : State) : State :=
  mkState (upd (locks s) l x) (conds s) (sched s) (pc s) (holds s) (halted s).
Definition set_cond (c : cid) (x : Condition) (s : State) : State :=
  mkState (locks s) (upd (conds s) c x) (sched s) (pc s) (holds s) (halted s).
Definition set_sched (sc : Sched) (s : State) : State :=
  mkState (locks s) (conds s) sc (pc s) (holds s) (halted s).
Definition set_pc (t : tid) (p : Pc) (s : State) : State :=
  mkState (locks s) (conds s) (sched s) (upd (pc s) t p) (holds s) (halted s).
Definition set_holds (t : tid) (l : lid) (b : bool) (s : State) : State :=
  mkState (locks s) (conds s) (sched s) (pc s)
    (upd (holds s) t (upd (holds s t) l b)) (halted s).

(** *** [Lock::Acquire] *)

(** The ASSERT at the head of [Acquire]. *)
Definition Acquire_enter (t : tid) (l : lid) (s : State) : State :=
  if isHeldByCurrentThread t (locks s l) then halt s
  else set_pc t (AcquireLoop l) s.

(** The loop of [Acquire], from the test to the next [Sleep] or to the
    return. *)
Definition Acquire_loop (t : tid) (l : lid) (s : State) : State :=
  let L := locks s l in
  if mutex L =? 0 then
    set_pc t (AcquireLoop l)
      (set_sched (Sleep t (sched s))
         (set_lock l (mkLock (mutex L) (Append (queue L) t) (heldByThread L)) s))
  else
    set_pc t User
      (set_holds t l true
         (set_lock l (mkLock 0 (queue L) (Some t)) s)).

(** *** [Lock::Release] *)

(** The region of [Release] run with interrupts off. *)
Definition Release_body (l : lid) (s : State) : State :=
  let L := locks s l in
  let (thread, q) := Remove (queue L) in
  set_sched (wake thread (sched s)) (set_lock l (mkLock 1 q None) s).

(** *** The head of the three operations of [Condition] *)
Definition bind (c : cid) (l : lid) (s : State) : State :=
  match firstLock (conds s c) with
  | None => set_cond c (mkCondition (Some l) (cond_queue (conds s c))) s
  | Some _ => s
  end.

Definition bound_to (c : cid) (l : lid) (s : State) : bool :=
  match firstLock (conds s c) with
  | Some l' => Nat.eqb l' l
  | None => false
  end.

Definition Condition_enter (t : tid) (c : cid) (l : lid) (next : Pc) (s : State)
  : State :=
  let s1 := bind c l s in
  if negb (bound_to c l s1) then halt s1                     (* ASSERT(firstLock==conditionLock) *)
  else if negb (isHeldByCurrentThread t (locks s1 l)) then halt s1
  else set_pc t next s1.

(** *** [Condition::Wait] *)

(** From [SetLevel(IntOff)] to [Sleep]. *)
Definition Wait_body (t : tid) (c : cid) (l : lid) (s : State) : State :=
  let C := conds s c in
  let s1 := set_cond c (mkCondition (firstLock C) (Append (cond_queue C) t)) s in
  if negb (isHeldByCurrentThread t (locks s1 l)) then halt s1  (* ASSERT of Release *)
  else
    let s2 := Release_body l (set_holds t l false s1) in
    set_pc t (WaitWoken l) (set_sched (Sleep t (sched s2)) s2).

(** From the return of [Sleep]: [conditionLock->Acquire()], called with
    interrupts off. *)
Definition Wait_woken (t : tid) (l : lid) (s : State) : State :=
  if isHeldByCurrentThread t (locks s l) then halt s            (* ASSERT of Acquire *)
  else Acquire_loop t l s.

(** *** [Condition::Signal] *)
Definition Signal_body (t : tid) (c : cid) (s : State) : State :=
  let C := conds s c in
  let (thread, q) := Remove (cond_queue C) in
  set_pc t User
    (set_sched (wake thread (sched s)) (set_cond c (mkCondition (firstLock C) q) s)).

(** *** [Condition::Broadcast] *)

(** [while(!queue->IsEmpty())] with its body. *)
Fixpoint wake_all (q : list tid) (sc : Sched) : Sched :=
  match q with
  | [] => sc
  | thread :: q' => wake_all q' (ReadyToRun thread sc)
  end.

Definition Broadcast_body (t : tid) (c : cid) (s : State) : State :=
  let C := conds s c in
  set_pc t User
    (set_sched (wake_all (cond_queue C) (sched s))
       (set_cond c (mkCondition (firstLock C) []) s)).

(** *** The machine *)

Definition call (t : tid) (op : Op) (s : State) : State :=
  match op with
  | Acquire l => Acquire_enter t l s
  | Release l =>
    if isHeldByCurrentThread t (locks s l)
    then set_pc t (ReleaseBody l) (set_holds t l false s)
    else halt s
  | Wait c l => Condition_enter t c l (WaitBody c l) s
  | Signal c l => Condition_enter t c l (SignalBody c) s
  | Broadcast c l => Condition_enter t c l (BroadcastBody c) s
  end.

Definition run_thread (t : tid) (s : State) : State :=
  match pc s t with
  | User => s
  | AcquireLoop l => Acquire_loop t l s
  | ReleaseBody l => set_pc t User (Release_body l s)
  | WaitBody c l => Wait_body t c l s
  | WaitWoken l => Wait_woken t l s
  | SignalBody c => Signal_body t c s
  | BroadcastBody c => Broadcast_body t c s
  end.

(** A halted machine does nothing; a blocked thread does nothing; a thread
    calls an operation only from outside the primitives. *)
Definition step (e : Event) (s : State) : State :=
  if halted s then s else
  match e with
  | Call t op =>
    match sched s t, pc s t with
    | READY, User => call t op s
    | _, _ => s
    end
  | Run t =>
    match sched s t with
    | READY => run_thread t s
    | BLOCKED => s
    end
  end.

Definition run (es : list Event) (s : State) : State :=
  fold_left (fun s e => step e s) es s.

(** *** Mutual exclusion *)

Local Open Scope nat_scope.

Record Inv (s : State) : Prop := mkInv {
  holder_owns : forall t l,
    holds s t l = true -> heldByThread (locks s l) = Some t;
  releaser_owns : forall t l,
    pc s t = ReleaseBody l -> heldByThread (locks s l) = Some t;
  owned_taken : forall t l,
    heldByThread (locks s l) = Some t -> mutex (locks s l) = 0%Z;
  releaser_let_go : forall t l,
    pc s t = ReleaseBody l -> holds s t l = false
}.

Ltac saturate :=
  repeat match goal with
  | I : Inv ?s, H : holds ?s ?t ?l = true |- _ => note (holder_owns s I t l H)
  | I : Inv ?s, H : pc ?s ?t = ReleaseBody ?l |- _ => note (releaser_owns s I t l H)
  | I : Inv ?s, H : pc ?s ?t = ReleaseBody ?l |- _ => note (releaser_let_go s I t l H)
  | I : Inv ?s, H : heldByThread (locks ?s ?l) = Some ?t |- _ =>
      note (owned_taken s I t l H)
  end.

Ltac finish :=
  split; cbn; unfold upd; intros; eqb_cases; cbn in *; saturate;
  try congruence.

Ltac cond_enter :=
  unfold Condition_enter, bind, bound_to;
  match goal with |- context [firstLock ?C] => destruct (firstLock C) end;
  cbn; unfold upd; cbn; rewrite ?Nat.eqb_refl; cbn;
  repeat match goal with |- context [if ?c then _ else _] => destruct c eqn:? end;
  finish.

Lemma queue_isHeld (t : tid) (L : Lock) :
  isHeldByCurrentThread t L = true <-> heldByThread L = Some t.
Proof.
  unfold isHeldByCurrentThread. destruct (heldByThread L) as [u|].
  - split; intros H.
    + apply Nat.eqb_eq in H. congruence.
    + inversion H. apply Nat.eqb_refl.
  - split; intros H; discriminate.
Qed.

Lemma queue_Inv_init : Inv init.
Proof.
  split; cbn; intros; discriminate.
Qed.

Lemma queue_Inv_step (e : Event) (s : State) : Inv s -> Inv (step e s).
Proof.
  intros I. unfold step.
  destruct (halted s); [assumption|].
  destruct e as [t op|t]; destruct (sched s t) eqn:Hs; try assumption.
  - destruct (pc s t) eqn:Hpc; try assumption.
    destruct op; cbn.
    + unfold Acquire_enter.
      destruct (isHeldByCurrentThread t (locks s l)) eqn:Hh; finish.
    + destruct (isHeldByCurrentThread t (locks s l)) eqn:Hh; [|finish].
      apply queue_isHeld in Hh. finish.
    + cond_enter.
    + cond_enter.
    + cond_enter.
  - unfold run_thread. destruct (pc s t) eqn:Hpc; try assumption.
    + unfold Acquire_loop. destruct (mutex (locks s l) =? 0)%Z eqn:Hm.
      * finish.
      * apply Z.eqb_neq in Hm. finish.
    + unfold Release_body.
      destruct (Remove (queue (locks s l))) as [thread q]. finish.
    + unfold Wait_body, Release_body. cbn.
      destruct (isHeldByCurrentThread t (locks s l)) eqn:Hh; cbn; [|finish].
      apply queue_isHeld in Hh.
      destruct (Remove (queue (locks s l))) as [thread q]. finish.
    + unfold Wait_woken.
      destruct (isHeldByCurrentThread t (locks s l)) eqn:Hh; cbn; [finish|].
      unfold Acquire_loop. destruct (mutex (locks s l) =? 0)%Z eqn:Hm.
      * finish.
      * apply Z.eqb_neq in Hm. finish.
    + unfold Signal_body.
      destruct (Remove (cond_queue (conds s c))) as [thread q]. finish.
    + unfold Broadcast_body. finish.
Qed.

Lemma queue_Inv_run (es : list Event) :
  forall s, Inv s -> Inv (run es s).
Proof.
  induction es as [|e es IH]; intros s I; cbn; [assumption|].
  apply IH. apply queue_Inv_step. assumption.
Qed.

Lemma queue_lock_exclusive (es : list Event) (t u : tid) (l : lid) :
  holds (run es init) t l = true ->
  holds (run es init) u l = true ->
  t = u.
Proof.
  intros Ht Hu.
  pose proof (queue_Inv_run es init queue_Inv_init) as I.
  pose proof (holder_owns _ I t l Ht). pose proof (holder_owns _ I u l Hu).
  congruence.
Qed.

(** While a [Release] is under way nobody holds the lock. *)
Lemma queue_lock_released (es : list Event) (t u : tid) (l : lid) :
  pc (run es init) t = ReleaseBody l ->
  holds (run es init) u l = false.
Proof.
  intros Hpc.
  pose proof (queue_Inv_run es init queue_Inv_init) as I.
  destruct (holds (run es init) u l) eqn:Hu; [|reflexivity].
  saturate. assert (u = t) by congruence. subst. congruence.
Qed.

(** A thread comes to hold a lock only by a step of its own that finds
    the lock free at the loop test of [Acquire]. *)
Lemma queue_lock_taken_by_own_step (s : State) (e : Event) (u : tid) (l : lid) :
  holds s u l = false ->
  holds (step e s) u l = true ->
  e = Run u /\ sched s u = READY /\ mutex (locks s l) <> 0%Z /\
  (pc s u = AcquireLoop l \/ pc s u = WaitWoken l).
Proof.
  intros H0 H1. unfold step in H1.
  destruct (halted s); [congruence|].
  destruct e as [t op|t]; destruct (sched s t) eqn:Hs; try congruence.
  - exfalso. destruct (pc s t) eqn:Hpc; try congruence.
    destruct op; cbn in H1;
      unfold Acquire_enter, Condition_enter, bind, bound_to in H1;
      repeat match type of H1 with
             | context [match ?c with _ => _ end] => destruct c; cbn in H1
             end;
      unfold upd in H1; eqb_cases; congruence.
  - unfold run_thread in H1.
    destruct (pc s t) eqn:Hpc;
      unfold Acquire_loop, Release_body, Wait_body, Wait_woken, Acquire_loop,
        Release_body, Signal_body, Broadcast_body in H1; cbn in H1;
      repeat match type of H1 with
             | context [if ?c then _ else _] => destruct c eqn:?; cbn in H1
             | context [let (_, _) := ?c in _] => destruct c; cbn in H1
             end;
      unfold upd in H1; eqb_cases; try congruence;
      match goal with
      | Hm : (mutex _ =? 0)%Z = false |- _ => apply Z.eqb_neq in Hm
      end; auto.
Qed.

(** *** [Broadcast] on the queue-based condition *)

Lemma wake_all_keeps_ready (q : list tid) :
  forall (sc : Sched) (u : tid), sc u = READY -> wake_all q sc u = READY.
Proof.
  induction q as [|x q IH]; intros sc u H; cbn; [exact H|].
  apply IH. unfold ReadyToRun, upd. destruct (Nat.eqb u x); [reflexivity | exact H].
Qed.

Lemma wake_all_wakes (q : list tid) :
  forall (sc : Sched) (u : tid), In u q -> wake_all q sc u = READY.
Proof.
  induction q as [|x q IH]; intros sc u H; cbn; [destruct H|].
  destruct H as [->|H]; [|apply IH; exact H].
  apply wake_all_keeps_ready. unfold ReadyToRun, upd.
  rewrite Nat.eqb_refl. reflexivity.
Qed.

(** Every thread in the queue is made ready and the queue is left empty;
    a woken thread goes on in [Wait] with [conditionLock->Acquire()] and
    does not come back to the queue of the condition. *)
Lemma queue_Broadcast_wakes_all (t : tid) (c : cid) (s : State) (u : tid) :
  In u (cond_queue (conds s c)) ->
  sched (Broadcast_body t c s) u = READY /\
  cond_queue (conds (Broadcast_body t c s) c) = [].
Proof.
  intros H. unfold Broadcast_body. cbn. split.
  - apply wake_all_wakes. exact H.
  - unfold upd. rewrite Nat.eqb_refl. reflexivity.
Qed.

Lemma queue_Wait_woken_leaves_condition (t : tid) (l : lid) (s : State) (c : cid) :
  conds (Wait_woken t l s) c = conds s c /\
  conds (Acquire_loop t l s) c = conds s c.
Proof.
  unfold Wait_woken, Acquire_loop.
  destruct (isHeldByCurrentThread t (locks s l));
    destruct (mutex (locks s l) =? 0)%Z; split; reflexivity.
Qed.

(** The run of [SynchSem.all_scheduled]: threads 1 and 2 wait, thread 3
    broadcasts and releases; here both waiters come back from [Wait]. *)
Definition go (t : tid) (n : nat) : list Event := repeat (Run t) n.

Definition both_back : State :=
  run ([Call 1 (Acquire 0)] ++ go 1 1 ++ [Call 1 (Wait 0 0)] ++ go 1 1 ++
       [Call 2 (Acquire 0)] ++ go 2 1 ++ [Call 2 (Wait 0 0)] ++ go 2 1 ++
       [Call 3 (Acquire 0)] ++ go 3 1 ++ [Call 3 (Broadcast 0 0)] ++ go 3 1 ++
       [Call 3 (Release 0)] ++ go 3 1 ++
       go 1 1 ++ [Call 1 (Release 0)] ++ go 1 1 ++ go 2 1) init.

Lemma queue_Broadcast_both_return :
  halted both_back = false /\
  pc both_back 1 = User /\ pc both_back 2 = User /\
  holds both_back 2 0 = true /\
  cond_queue (conds both_back 0) = [].
Proof.
  vm_compute. repeat split; reflexivity.
Qed.

(** *** The binding of a condition to its first lock *)

Lemma queue_Condition_binds_first_lock
  (t : tid) (c : cid) (l : lid) (next : Pc) (s : State) :
  firstLock (conds s c) = None ->
  firstLock (conds (Condition_enter t c l next s) c) = Some l.
Proof.
  intros H. unfold Condition_enter, bind, bound_to. rewrite H.
  repeat progress (cbn; unfold upd; rewrite ?Nat.eqb_refl).
  destruct (isHeldByCurrentThread t _);
    repeat progress (cbn; unfold upd; rewrite ?Nat.eqb_refl); reflexivity.
Qed.

Lemma queue_Condition_rejects_other_lock
  (t : tid) (c : cid) (l l0 : lid) (next : Pc) (s : State) :
  firstLock (conds s c) = Some l0 ->
  l <> l0 ->
  halted (Condition_enter t c l next s) = true.
Proof.
  intros H Hne. unfold Condition_enter, bind, bound_to. rewrite H. cbn.
  rewrite H. destruct (Nat.eqb_spec l0 l); [congruence|]. reflexivity.
Qed.

Lemma queue_binding_is_permanent (e : Event) (s : State) (c : cid) (l0 : lid) :
  firstLock (conds s c) = Some l0 ->
  firstLock (conds (step e s) c) = Some l0.
Proof.
  intros H. unfold step.
  destruct (halted s); [exact H|].
  destruct e as [t op|t]; destruct (sched s t); try exact H.
  - destruct (pc s t); try exact H.
    destruct op; cbn; unfold Acquire_enter, Condition_enter, bind, bound_to;
      repeat match goal with
             | |- context [match firstLock ?C with _ => _ end] =>
               destruct (firstLock C) eqn:?; cbn
             | |- context [if ?b then _ else _] => destruct b; cbn
             end;
      unfold upd in *; eqb_cases; cbn; congruence.
  - unfold run_thread.
    destruct (pc s t);
      unfold Acquire_loop, Release_body, Wait_body, Wait_woken, Acquire_loop,
        Release_body, Signal_body, Broadcast_body; cbn;
      repeat match goal with
             | |- context [if ?b then _ else _] => destruct b; cbn
             | |- context [let (_, _) := ?x in _] => destruct x; cbn
             end;
      unfold upd; eqb_cases; cbn; congruence.
Qed.

(** The run of [SynchSem.signalled_under_lock_1]: here the [Signal] with
    the second lock aborts. *)
Lemma queue_second_lock_aborts :
  halted (run ([Call 2 (Acquire 0)] ++ go 2 1 ++ [Call 2 (Wait 0 0)] ++ go 2 1 ++
               [Call 1 (Acquire 1)] ++ go 1 1) init) = false /\
  halted (run ([Call 2 (Acquire 0)] ++ go 2 1 ++ [Call 2 (Wait 0 0)] ++ go 2 1 ++
               [Call 1 (Acquire 1)] ++ go 1 1 ++ [Call 1 (Signal 0 1)]) init) = true.
Proof.
  vm_compute. split; reflexivity.
Qed.

Local Close Scope nat_scope.

End SynchQueue.

(** ** Lock and condition variable on semaphores ([synch-sem.cc]) *)

Module SynchSem.
Import Kernel Sem.

Record Lock : Type := mkLock {
  semLock : Semaphore;
  heldByThread : option tid
}.

Record Condition : Type := mkCondition {
  semCond : Semaphore
}.

Definition Lock_new : Lock := mkLock (Semaphore_new 1) None.
Definition Condition_new : Condition := mkCondition (Semaphore_new 0).

(** [Lock::isHeldByCurrentThread]. *)
Definition isHeldByCurrentThread (currentThread : tid) (l : Lock) : bool :=
  match heldByThread l with
  | Some t => Nat.eqb t currentThread
  | None => false
  end.

(** Who called [Lock::Release]: the user, or [Condition::Wait]. *)
Inductive Caller : Type := FromUser | FromWait (c : cid).

(** Where a thread stands: the statement it runs next.  [P] and [V] run
    with interrupts off and are one step each. *)
Inductive Pc : Type :=
| User                                   (* outside the primitives *)
| AcquireP (l : lid)                     (* Acquire: [semLock->P()] *)
| AcquireSet (l : lid)                   (* Acquire: [heldByThread=currentThread] *)
| ReleaseClear (l : lid) (k : Caller)    (* Release: [heldByThread=NULL] *)
| ReleaseTest (l : lid) (k : Caller)     (* Release: [if(semLock->value==0)] *)
| ReleaseV (l : lid) (k : Caller)        (* Release: [semLock->V()] *)
| WaitP (c : cid) (l : lid)              (* Wait: [semCond->P()] *)
| WaitAcquire (l : lid)                  (* Wait: [conditionLock->Acquire()] *)
| SignalTest (c : cid)                   (* Signal: [if(!semCond->queue->IsEmpty())] *)
| SignalV (c : cid)                      (* Signal: [semCond->V()] *)
| SignalClamp (c : cid)                  (* Signal: [if(semCond->value>1) ...] *)
| BroadcastTest (c : cid)                (* Broadcast: [while(!semCond->queue->IsEmpty())] *)
| BroadcastV (c : cid)                   (* Broadcast: [semCond->V(); ++i] *)
| BroadcastClamp (c : cid).              (* Broadcast: [if(semCond->value>1) ...] *)

Inductive Op : Type :=
| Acquire (l : lid)
| Release (l : lid)
| Wait (c : cid) (l : lid)
| Signal (c : cid) (l : lid)
| Broadcast (c : cid) (l : lid).

Inductive Event : Type :=
| Call (t : tid) (op : Op)
| Run (t : tid).

(** [holds t l] is a history variable: the last [Acquire] of [l] by [t]
    has returned and [t] has not called [Release] on [l] since.  No step
    reads it. *)
Record State : Type := mkState {
  locks : lid -> Lock;
  conds : cid -> Condition;
  sched : Sched;
  pc : tid -> Pc;
  holds : tid -> lid -> bool;
  halted : bool
}.

Definition init : State :=
  mkState (fun _ => Lock_new) (fun _ => Condition_new) (fun _ => READY)
    (fun _ => User) (fun _ _ => false) false.

Definition halt (s : State) : State :=
  mkState (locks s) (conds s) (sched s) (pc s) (holds s) true.
Definition set_lock (l : lid) (x : Lock) (s : State) : State :=
  mkState (upd (locks s) l x) (conds s) (sched s) (pc s) (holds s) (halted s).
Definition set_cond (c : cid) (x : Condition) (s : State) : State :=
  mkState (locks s) (upd (conds s) c x) (sched s) (pc s) (holds s) (halted s).
Definition set_sched (sc : Sched) (s : State) : State :=
  mkState (locks s) (conds s) sc (pc s) (holds s) (halted s).
Definition set_pc (t : tid) (p : Pc) (s : State) : State :=
  mkState (locks s) (conds s) (sched s) (upd (pc s) t p) (holds s) (halted s).
Definition set_holds (t : tid) (l : lid) (b : bool) (s : State) : State :=
  mkState (locks s) (conds s) (sched s) (pc s)
    (upd (holds s) t (upd (holds s t) l b)) (halted s).

(** *** [Lock::Acquire] *)

(** The ASSERT at the head of [Acquire]. *)
Definition Acquire_enter (t : tid) (l : lid) (s : State) : State :=
  if isHeldByCurrentThread t (locks s l) then halt s
  else set_pc t (AcquireP l) s.

(** [semLock->P()]. *)
Definition Acquire_P (t : tid) (l : lid) (s : State) : State :=
  let L := locks s l in
  let '(sem, sc, o) := P t (semLock L) (sched s) in
  let s1 := set_sched sc (set_lock l (mkLock sem (heldByThread L)) s) in
  match o with
  | Returned => set_pc t (AcquireSet l) s1
  | _ => s1
  end.

(** [heldByThread=currentThread], and the return. *)
Definition Acquire_set (t : tid) (l : lid) (s : State) : State :=
  set_pc t User
    (set_holds t l true
       (set_lock l (mkLock (semLock (locks s l)) (Some t)) s)).

(** *** [Lock::Release] *)

(** The ASSERT at the head of [Release]. *)
Definition Release_enter (t : tid) (l : lid) (k : Caller) (s : State) : State :=
  if isHeldByCurrentThread t (locks s l)
  then set_pc t (ReleaseClear l k) (set_holds t l false s)
  else halt s.

(** Where [Release] returns to. *)
Definition after_Release (k : Caller) (l : lid) : Pc :=
  match k with
  | FromUser => User
  | FromWait c => WaitP c l
  end.

Definition Release_clear (t : tid) (l : lid) (k : Caller) (s : State) : State :=
  set_pc t (ReleaseTest l k)
    (set_lock l (mkLock (semLock (locks s l)) None) s).

Definition Release_test (t : tid) (l : lid) (k : Caller) (s : State) : State :=
  if value (semLock (locks s l)) =? 0
  then set_pc t (ReleaseV l k) s
  else set_pc t (after_Release k l) s.

Definition Release_V (t : tid) (l : lid) (k : Caller) (s : State) : State :=
  let L := locks s l in
  let '(sem, sc, _) := V (semLock L) (sched s) in
  set_pc t (after_Release k l)
    (set_sched sc (set_lock l (mkLock sem (heldByThread L)) s)).

(** *** [Condition::Wait] *)

(** The ASSERT of [Wait], then the call of [Release] with its ASSERT. *)
Definition Wait_enter (t : tid) (c : cid) (l : lid) (s : State) : State :=
  if isHeldByCurrentThread t (locks s l)
  then Release_enter t l (FromWait c) s
  else halt s.

(** [semCond->P()]. *)
Definition Wait_P (t : tid) (c : cid) (l : lid) (s : State) : State :=
  let '(sem, sc, o) := P t (semCond (conds s c)) (sched s) in
  let s1 := set_sched sc (set_cond c (mkCondition sem) s) in
  match o with
  | Returned => set_pc t (WaitAcquire l) s1
  | _ => s1
  end.

(** *** [Condition::Signal] and [Condition::Broadcast] *)

Definition Condition_enter (t : tid) (l : lid) (next : Pc) (s : State) : State :=
  if isHeldByCurrentThread t (locks s l) then set_pc t next s else halt s.

Definition Cond_V (t : tid) (c : cid) (next : Pc) (s : State) : State :=
  let '(sem, sc, _) := V (semCond (conds s c)) (sched s) in
  set_pc t next (set_sched sc (set_cond c (mkCondition sem) s)).

(** [if(semCond->value>1) semCond->value=1;], and the return. *)
Definition Cond_clamp (t : tid) (c : cid) (s : State) : State :=
  let sem := semCond (conds s c) in
  let sem' := if value sem >? 1 then mkSemaphore 1 (Sem.queue sem) else sem in
  set_pc t User (set_cond c (mkCondition sem') s).

Definition Signal_test (t : tid) (c : cid) (s : State) : State :=
  if negb (IsEmpty (Sem.queue (semCond (conds s c))))
  then set_pc t (SignalV c) s
  else set_pc t (SignalClamp c) s.

Definition Broadcast_test (t : tid) (c : cid) (s : State) : State :=
  if negb (IsEmpty (Sem.queue (semCond (conds s c))))
  then set_pc t (BroadcastV c) s
  else set_pc t (BroadcastClamp c) s.

(** *** The machine *)

Definition call (t : tid) (op : Op) (s : State) : State :=
  match op with
  | Acquire l => Acquire_enter t l s
  | Release l => Release_enter t l FromUser s
  | Wait c l => Wait_enter t c l s
  | Signal c l => Condition_enter t l (SignalTest c) s
  | Broadcast c l => Condition_enter t l (BroadcastTest c) s
  end.

Definition run_thread (t : tid) (s : State) : State :=
  match pc s t with
  | User => s
  | AcquireP l => Acquire_P t l s
  | AcquireSet l => Acquire_set t l s
  | ReleaseClear l k => Release_clear t l k s
  | ReleaseTest l k => Release_test t l k s
  | ReleaseV l k => Release_V t l k s
  | WaitP c l => Wait_P t c l s
  | WaitAcquire l => Acquire_enter t l s
  | SignalTest c => Signal_test t c s
  | SignalV c => Cond_V t c (SignalClamp c) s
  | SignalClamp c => Cond_clamp t c s
  | BroadcastTest c => Broadcast_test t c s
  | BroadcastV c => Cond_V t c (BroadcastTest c) s
  | BroadcastClamp c => Cond_clamp t c s
  end.

(** A halted machine does nothing; a blocked thread does nothing; a thread
    calls an operation only from outside the primitives. *)
Definition step (e : Event) (s : State) : State :=
  if halted s then s else
  match e with
  | Call t op =>
    match sched s t, pc s t with
    | READY, User => call t op s
    | _, _ => s
    end
  | Run t =>
    match sched s t with
    | READY => run_thread t s
    | BLOCKED => s
    end
  end.

Definition run (es : list Event) (s : State) : State :=
  fold_left (fun s e => step e s) es s.

(** [Run t] repeated: thread [t] runs on without being preempted. *)
Definition go (t : tid) (n : nat) : list Event := repeat (Run t) n.

(** *** Mutual exclusion *)

Local Open Scope nat_scope.

(** The statements between the decrement of a lock's semaphore and its
    increment: the end of [Acquire] and the whole of [Release]. *)
Definition in_stage (p : Pc) (l : lid) : bool :=
  match p with
  | AcquireSet l' | ReleaseClear l' _ | ReleaseTest l' _ | ReleaseV l' _ =>
    Nat.eqb l' l
  | _ => false
  end.

Definition clearing (p : Pc) (l : lid) : bool :=
  match p with
  | ReleaseClear l' _ => Nat.eqb l' l
  | _ => false
  end.

Arguments in_stage !p l /.
Arguments clearing !p l /.

Record Inv (s : State) : Prop := mkInv {
  sem_binary : forall l,
    value (semLock (locks s l)) = 0%Z \/ value (semLock (locks s l)) = 1%Z;
  holder_taken : forall t l,
    holds s t l = true -> value (semLock (locks s l)) = 0%Z;
  stage_taken : forall t l,
    in_stage (pc s t) l = true -> value (semLock (locks s l)) = 0%Z;
  one_holder : forall t u l,
    holds s t l = true -> holds s u l = true -> t = u;
  holder_or_stage : forall t u l,
    holds s t l = true -> in_stage (pc s u) l = true -> False;
  one_stage : forall t u l,
    in_stage (pc s t) l = true -> in_stage (pc s u) l = true -> t = u;
  owner : forall t l,
    heldByThread (locks s l) = Some t ->
    holds s t l = true \/ clearing (pc s t) l = true
}.

Ltac saturate :=
  repeat match goal with
  | I : Inv ?s, H : holds ?s ?t ?l = true |- _ => note (holder_taken s I t l H)
  | I : Inv ?s, H : in_stage (pc ?s ?t) ?l = true |- _ =>
      note (stage_taken s I t l H)
  | I : Inv ?s, H : holds ?s ?t ?l = true, H' : holds ?s ?u ?l = true |- _ =>
      note (one_holder s I t u l H H')
  | I : Inv ?s, H : holds ?s ?t ?l = true,
    H' : in_stage (pc ?s ?u) ?l = true |- _ =>
      destruct (holder_or_stage s I t u l H H')
  | I : Inv ?s, H : in_stage (pc ?s ?t) ?l = true,
    H' : in_stage (pc ?s ?u) ?l = true |- _ =>
      note (one_stage s I t u l H H')
  | I : Inv ?s, H : heldByThread (locks ?s ?l) = Some ?t |- _ =>
      note (owner s I t l H)
  end.

Ltac use_pc :=
  repeat match goal with
  | Hpc : pc ?s ?t = ?p, H : context [pc ?s ?t] |- _ =>
    lazymatch type of H with
    | pc s t = _ => fail
    | _ => rewrite Hpc in H; cbn in H
    end
  end.

Ltac finish :=
  split; cbn; unfold upd; intros;
  repeat progress (cbn in *; eqb_cases);
  saturate; split_ors; saturate;
  use_pc; eqb_cases; split_ors;
  try congruence;
  try solve [eauto using sem_binary];
  try solve [intuition congruence].

Lemma sem_isHeld (t : tid) (L : Lock) :
  isHeldByCurrentThread t L = true <-> heldByThread L = Some t.
Proof.
  unfold isHeldByCurrentThread. destruct (heldByThread L) as [u|].
  - split; intros H.
    + apply Nat.eqb_eq in H. congruence.
    + inversion H. apply Nat.eqb_refl.
  - split; intros H; discriminate.
Qed.

Ltac held_cases t l s :=
  let Hh := fresh "Hh" in
  destruct (isHeldByCurrentThread t (locks s l)) eqn:Hh;
  [apply sem_isHeld in Hh|].

Lemma decr_one : Int.decr 1 = 0%Z.
Proof. reflexivity. Qed.

Lemma incr_zero : Int.incr 0 = 1%Z.
Proof. reflexivity. Qed.

Lemma sem_Inv_init : Inv init.
Proof.
  split; cbn; intros; try discriminate; auto.
Qed.

Lemma sem_Inv_step (e : Event) (s : State) : Inv s -> Inv (step e s).
Proof.
  intros I. unfold step.
  destruct (halted s); [assumption|].
  destruct e as [t op|t]; destruct (sched s t) eqn:Hs; try assumption.
  - destruct (pc s t) eqn:Hpc; try assumption.
    destruct op; cbn;
      unfold Acquire_enter, Release_enter, Wait_enter, Release_enter,
        Condition_enter;
      held_cases t l s; finish.
  - unfold run_thread. destruct (pc s t) eqn:Hpc; try assumption.
    + (* semLock->P() *)
      unfold Acquire_P, P.
      destruct (value (semLock (locks s l)) =? 0)%Z eqn:Hv; [finish|].
      apply Z.eqb_neq in Hv.
      destruct (sem_binary s I l) as [V0|V1]; [congruence|].
      rewrite V1, decr_one. finish.
    + (* heldByThread=currentThread *)
      unfold Acquire_set.
      assert (St : in_stage (pc s t) l = true) by (rewrite Hpc; apply Nat.eqb_refl).
      finish.
    + (* heldByThread=NULL *)
      unfold Release_clear.
      assert (St : in_stage (pc s t) l = true) by (rewrite Hpc; apply Nat.eqb_refl).
      finish.
    + (* if(semLock->value==0) *)
      unfold Release_test.
      assert (St : in_stage (pc s t) l = true) by (rewrite Hpc; apply Nat.eqb_refl).
      rewrite (stage_taken s I t l St). cbn. finish.
    + (* semLock->V() *)
      unfold Release_V, V, V_wake.
      assert (St : in_stage (pc s t) l = true) by (rewrite Hpc; apply Nat.eqb_refl).
      destruct (Remove (Sem.queue (semLock (locks s l)))) as [thread q].
      unfold V_incr. cbn. rewrite (stage_taken s I t l St), incr_zero.
      destruct k; finish.
    + (* semCond->P() *)
      unfold Wait_P, P.
      destruct (value (semCond (conds s c)) =? 0)%Z; finish.
    + (* conditionLock->Acquire() *)
      unfold Acquire_enter. held_cases t l s; finish.
    + unfold Signal_test. destruct (negb _); finish.
    + unfold Cond_V, V, V_wake.
      destruct (Remove (Sem.queue (semCond (conds s c)))) as [thread q]. finish.
    + unfold Cond_clamp. finish.
    + unfold Broadcast_test. destruct (negb _); finish.
    + unfold Cond_V, V, V_wake.
      destruct (Remove (Sem.queue (semCond (conds s c)))) as [thread q]. finish.
    + unfold Cond_clamp. finish.
Qed.

Lemma sem_Inv_run (es : list Event) :
  forall s, Inv s -> Inv (run es s).
Proof.
  induction es as [|e es IH]; intros s I; cbn; [assumption|].
  apply IH. apply sem_Inv_step. assumption.
Qed.

Lemma sem_lock_exclusive (es : list Event) (t u : tid) (l : lid) :
  holds (run es init) t l = true ->
  holds (run es init) u l = true ->
  t = u.
Proof.
  intros Ht Hu.
  exact (one_holder _ (sem_Inv_run es init sem_Inv_init) t u l Ht Hu).
Qed.

(** From the call of [Release] to its last statement nobody holds the
    lock. *)
Lemma sem_lock_released (es : list Event) (t u : tid) (l : lid) (k : Caller) :
  pc (run es init) t = ReleaseClear l k \/
  pc (run es init) t = ReleaseTest l k \/
  pc (run es init) t = ReleaseV l k ->
  holds (run es init) u l = false.
Proof.
  intros Hpc.
  pose proof (sem_Inv_run es init sem_Inv_init) as I.
  destruct (holds (run es init) u l) eqn:Hu; [|reflexivity].
  exfalso. apply (holder_or_stage _ I u t l Hu).
  destruct Hpc as [-> | [-> | ->]]; apply Nat.eqb_refl.
Qed.

(** A thread comes to hold a lock only by a step of its own, the last
    statement of [Acquire]. *)
Lemma sem_lock_taken_by_own_step (s : State) (e : Event) (u : tid) (l : lid) :
  holds s u l = false ->
  holds (step e s) u l = true ->
  e = Run u /\ sched s u = READY /\ pc s u = AcquireSet l.
Proof.
  intros H0 H1. unfold step in H1.
  destruct (halted s); [congruence|].
  destruct e as [t op|t]; destruct (sched s t) eqn:Hs; try congruence.
  - exfalso. destruct (pc s t) eqn:Hpc; try congruence.
    destruct op; cbn in H1;
      unfold Acquire_enter, Wait_enter, Release_enter, Condition_enter in H1;
      repeat match type of H1 with
             | context [if ?c then _ else _] => destruct c; cbn in H1
             end;
      unfold upd in H1; eqb_cases; congruence.
  - unfold run_thread in H1.
    destruct (pc s t) eqn:Hpc;
      unfold Acquire_P, Acquire_set, Release_clear, Release_test, Release_V,
        Wait_P, Acquire_enter, Signal_test, Cond_V, Cond_clamp, Broadcast_test,
        P, V, V_wake in H1; cbn in H1;
      repeat match type of H1 with
             | context [if ?c then _ else _] => destruct c eqn:?; cbn in H1
             | context [let (_, _) := ?c in _] => destruct c; cbn in H1
             end;
      unfold upd in H1; eqb_cases; try congruence; auto.
Qed.

(** A thread reaches that last statement only by a step of its own: a pass
    through [semLock->P()] that finds the semaphore non-zero. *)
Lemma sem_lock_P_by_own_step (s : State) (e : Event) (u : tid) (l : lid) :
  pc s u <> AcquireSet l ->
  pc (step e s) u = AcquireSet l ->
  e = Run u /\ sched s u = READY /\ pc s u = AcquireP l /\
  value (semLock (locks s l)) <> 0%Z.
Proof.
  intros H0 H1. unfold step in H1.
  destruct (halted s); [congruence|].
  destruct e as [t op|t]; destruct (sched s t) eqn:Hs; try congruence.
  - exfalso. destruct (pc s t) eqn:Hpc; try congruence.
    destruct op; cbn in H1;
      unfold Acquire_enter, Wait_enter, Release_enter, Condition_enter in H1;
      repeat match type of H1 with
             | context [if ?c then _ else _] => destruct c; cbn in H1
             end;
      unfold upd in H1; eqb_cases; congruence.
  - unfold run_thread in H1.
    destruct (pc s t) eqn:Hpc;
      unfold Acquire_P, Acquire_set, Release_clear, Release_test, Release_V,
        Wait_P, Acquire_enter, Signal_test, Cond_V, Cond_clamp, Broadcast_test,
        after_Release, P, V, V_wake in H1; cbn in H1;
      repeat match type of H1 with
             | context [if ?c then _ else _] => destruct c eqn:?; cbn in H1
             | context [let (_, _) := ?c in _] => destruct c; cbn in H1
             | context [match ?c with FromUser => _ | FromWait _ => _ end] =>
               destruct c; cbn in H1
             end;
      unfold upd in H1; eqb_cases; try congruence;
      match goal with
      | Hm : (value _ =? 0)%Z = false |- _ => apply Z.eqb_neq in Hm
      end;
      inversion H1; subst; auto.
Qed.

(** *** A waiter nobody signals *)

(** [Signal] and [Broadcast] on condition [c]. *)
Definition wakes_cond (c : cid) (e : Event) : bool :=
  match e with
  | Call _ (Signal c' _) | Call _ (Broadcast c' _) => Nat.eqb c' c
  | _ => false
  end.

(** The statements of [Signal] and [Broadcast] that lead to a [V]. *)
Definition signalling (p : Pc) (c : cid) : bool :=
  match p with
  | SignalTest c' | SignalV c' | BroadcastTest c' | BroadcastV c' => Nat.eqb c' c
  | _ => false
  end.

Arguments signalling !p c /.

(** Thread [w] sleeps in the [P] of [Wait] on condition [c], and no
    [Signal] or [Broadcast] on [c] is under way. *)
Record Forgotten (w : tid) (c : cid) (l : lid) (s : State) : Prop := mkForgotten {
  fg_blocked : sched s w = BLOCKED;
  fg_pc : pc s w = WaitP c l;
  fg_locks : forall l', ~ In w (Sem.queue (semLock (locks s l')));
  fg_conds : forall c', c' <> c -> ~ In w (Sem.queue (semCond (conds s c')));
  fg_nobody : forall t, signalling (pc s t) c = false
}.

Lemma Remove_keeps_out (w : tid) (q q' : list tid) (thread : option tid) :
  ~ In w q -> Remove q = (thread, q') ->
  ~ In w q' /\ forall sc : Sched, wake thread sc w = sc w.
Proof.
  intros Hw E. destruct q as [|x q0]; cbn in E; inversion E; subst; cbn.
  - auto.
  - split; [intros H; apply Hw; right; exact H|].
    intros sc. unfold ReadyToRun, upd.
    destruct (Nat.eqb_spec w x); [subst; exfalso; apply Hw; left; reflexivity|].
    reflexivity.
Qed.

Lemma Append_keeps_out (w t : tid) (q : list tid) :
  ~ In w q -> w <> t -> ~ In w (q ++ [t]).
Proof.
  intros Hw Ht H. apply in_app_iff in H.
  destruct H as [H|[H|[]]]; [exact (Hw H) | exact (Ht (eq_sym H))].
Qed.

Ltac forgotten w :=
  repeat match goal with
  | E : Remove (Sem.queue (semLock (locks ?s ?l0))) = _,
    Fl : forall l', ~ In w (Sem.queue (semLock (locks ?s l'))) |- _ =>
    destruct (Remove_keeps_out w _ _ _ (Fl l0) E) as [? ?]; clear E
  | E : Remove (Sem.queue (semCond (conds ?s ?c0))) = _,
    Fc : forall c', c' <> _ -> ~ In w (Sem.queue (semCond (conds ?s c'))),
    Hc : ?c0 <> _ |- _ =>
    destruct (Remove_keeps_out w _ _ _ (Fc c0 Hc) E) as [? ?]; clear E
  end;
  split; cbn; unfold Sleep, ReadyToRun, Append, upd; intros;
  repeat progress (cbn in *; eqb_cases);
  try match goal with
      | HR : forall sc : Sched, wake _ sc w = sc w |- _ => rewrite HR
      end;
  try congruence; auto using Append_keeps_out.

Lemma forgotten_step (w : tid) (c : cid) (l : lid) (e : Event) (s : State) :
  Forgotten w c l s -> wakes_cond c e = false -> Forgotten w c l (step e s).
Proof.
  intros F He. pose proof F as [Fb Fp Fl Fc Fn]. unfold step.
  destruct (halted s); [assumption|].
  destruct e as [t op|t]; destruct (sched s t) eqn:Hs; try assumption.
  - assert (Hw : w <> t) by congruence.
    destruct (pc s t) eqn:Hpc; try assumption.
    destruct op; cbn in He |- *;
      unfold Acquire_enter, Release_enter, Wait_enter, Release_enter,
        Condition_enter;
      repeat match goal with
             | |- context [if ?b then _ else _] => destruct b
             end;
      forgotten w.
  - assert (Hw : w <> t) by congruence.
    assert (Hn := Fn t).
    unfold run_thread. destruct (pc s t) eqn:Hpc; try assumption;
      unfold Acquire_P, Acquire_set, Release_clear, Release_test, Release_V,
        Wait_P, Acquire_enter, Signal_test, Cond_V, Cond_clamp, Broadcast_test,
        after_Release, P, V, V_wake, V_incr;
      cbn in Hn; eqb_cases; try discriminate;
      repeat match goal with
             | |- context [if ?b then _ else _] => destruct b
             | |- context [let (_, _) := Remove ?q in _] =>
               let E := fresh "E" in
               destruct (Remove q) as [thread q'] eqn:E
             | |- context [match ?k with FromUser => _ | FromWait _ => _ end] =>
               destruct k
             end.
    all: forgotten w.
Qed.

Definition quiet (c : cid) (es : list Event) : bool :=
  forallb (fun e => negb (wakes_cond c e)) es.

Lemma forgotten_run (w : tid) (c : cid) (l : lid) (es : list Event) :
  forall s, Forgotten w c l s -> quiet c es = true -> Forgotten w c l (run es s).
Proof.
  induction es as [|e es IH]; intros s F Q; cbn; [assumption|].
  cbn in Q. apply andb_true_iff in Q. destruct Q as [Qe Qes].
  apply IH; [|exact Qes]. apply forgotten_step; [exact F|].
  destruct (wakes_cond c e); [discriminate | reflexivity].
Qed.

(** *** [Broadcast] with two waiters *)

(** Thread [t] takes lock 0 and calls [Wait] on condition 0, running up
    to its [Sleep] in [semCond->P()]. *)
Definition enters_Wait (t : tid) : list Event :=
  [Call t (Acquire 0)] ++ go t 2 ++ [Call t (Wait 0 0)] ++ go t 4.

(** Threads 1 and 2 wait; thread 3 holds the lock. *)
Definition two_waiters : State :=
  run (enters_Wait 1 ++ enters_Wait 2 ++ [Call 3 (Acquire 0)] ++ go 3 2) init.

(** Thread 3 runs [Broadcast] to its end. *)
Definition broadcast_done : State :=
  run ([Call 3 (Broadcast 0 0)] ++ go 3 6) two_waiters.

(** Thread 3 releases the lock; thread 1 runs until it is back from
    [Wait]; thread 2 runs. *)
Definition all_scheduled : State :=
  run ([Call 3 (Release 0)] ++ go 3 3 ++ go 1 4 ++ go 2 1) broadcast_done.

Lemma all_scheduled_forgets_2 : Forgotten 2 0 0 all_scheduled.
Proof.
  split.
  - vm_compute. reflexivity.
  - vm_compute. reflexivity.
  - intros l'. destruct l' as [|l']; vm_compute; intros H; exact H.
  - intros c' Hc. destruct c' as [|c']; [congruence|].
    vm_compute. intros H; exact H.
  - intros t. destruct t as [|[|[|[|t]]]]; vm_compute; reflexivity.
Qed.

(** C2, on the semaphore-based condition: with threads 1 and 2 asleep in
    [Wait], one [Broadcast] makes both ready and empties the queue, but it
    leaves the semaphore at 1 (the clamp), so only the first waiter to run
    gets through [P]: thread 1 returns from [Wait], thread 2 queues itself
    again and sleeps, and stays asleep as long as nobody calls [Signal] or
    [Broadcast] on the condition again. *)
Theorem Broadcast_strands_a_waiter :
  (Sem.queue (semCond (conds two_waiters 0)) = [1; 2] /\
   sched two_waiters 1 = BLOCKED /\ sched two_waiters 2 = BLOCKED /\
   pc two_waiters 1 = WaitP 0 0 /\ pc two_waiters 2 = WaitP 0 0 /\
   holds two_waiters 3 0 = true /\ halted two_waiters = false) /\
  (pc broadcast_done 3 = User /\
   semCond (conds broadcast_done 0) = mkSemaphore 1 [] /\
   sched broadcast_done 1 = READY /\ sched broadcast_done 2 = READY) /\
  (pc all_scheduled 1 = User /\ holds all_scheduled 1 0 = true /\
   sched all_scheduled 2 = BLOCKED /\ pc all_scheduled 2 = WaitP 0 0 /\
   semCond (conds all_scheduled 0) = mkSemaphore 0 [2] /\
   halted all_scheduled = false) /\
  (forall es, quiet 0 es = true ->
     sched (run es all_scheduled) 2 = BLOCKED /\
     pc (run es all_scheduled) 2 = WaitP 0 0).
Proof.
  split; [vm_compute; repeat split; reflexivity|].
  split; [vm_compute; repeat split; reflexivity|].
  split; [vm_compute; repeat split; reflexivity|].
  intros es Q.
  pose proof (forgotten_run 2 0 0 es all_scheduled all_scheduled_forgets_2 Q) as F.
  split; [exact (fg_blocked _ _ _ _ F) | exact (fg_pc _ _ _ _ F)].
Qed.

(** *** A condition used with two locks *)

(** [Signal] and [Broadcast] look at the lock they are passed and at
    nothing else. *)
Lemma sem_Condition_enter_held (t : tid) (l : lid) (next : Pc) (s : State) :
  isHeldByCurrentThread t (locks s l) = true ->
  Condition_enter t l next s = set_pc t next s.
Proof.
  intros H. unfold Condition_enter. rewrite H. reflexivity.
Qed.

(** Thread 2 waits on condition 0 under lock 0; thread 1 takes lock 1. *)
Definition waiter_and_stranger : State :=
  run (enters_Wait 2 ++ [Call 1 (Acquire 1)] ++ go 1 2) init.

(** Thread 1 signals condition 0 under lock 1, to the end of [Signal]. *)
Definition signalled_under_lock_1 : State :=
  run ([Call 1 (Signal 0 1)] ++ go 1 3) waiter_and_stranger.

(** C4, on the semaphore-based condition: condition 0 was first used with
    lock 0 (the [Wait] of thread 2); a later [Signal], [Broadcast] or
    [Wait] on it by thread 1 with lock 1 passes its assertions, and the
    [Signal] runs to its end and wakes the waiter. *)
Theorem Condition_accepts_another_lock :
  (pc waiter_and_stranger 2 = WaitP 0 0 /\
   sched waiter_and_stranger 2 = BLOCKED /\
   holds waiter_and_stranger 1 1 = true /\
   holds waiter_and_stranger 1 0 = false /\
   halted waiter_and_stranger = false) /\
  (halted (step (Call 1 (Signal 0 1)) waiter_and_stranger) = false /\
   pc (step (Call 1 (Signal 0 1)) waiter_and_stranger) 1 = SignalTest 0 /\
   halted (step (Call 1 (Broadcast 0 1)) waiter_and_stranger) = false /\
   pc (step (Call 1 (Broadcast 0 1)) waiter_and_stranger) 1 = BroadcastTest 0 /\
   halted (step (Call 1 (Wait 0 1)) waiter_and_stranger) = false /\
   pc (step (Call 1 (Wait 0 1)) waiter_and_stranger) 1
     = ReleaseClear 1 (FromWait 0)) /\
  (halted signalled_under_lock_1 = false /\
   pc signalled_under_lock_1 1 = User /\
   sched signalled_under_lock_1 2 = READY).
Proof.
  vm_compute. repeat split; reflexivity.
Qed.

Local Close Scope nat_scope.

End SynchSem.

(** ** Mutual exclusion, for both locks *)

(** C1: in every state the machine reaches from its initial state, by any
    sequence of calls and steps of any threads, a lock has at most one
    holder (a thread whose [Acquire] returned and which has not called
    [Release] since); from the call of [Release] on, the lock has no
    holder, and a thread becomes the holder only by a step of its own at
    the end of the acquire sequence: with the queue-based lock, a pass
    through the loop test of [Acquire] that finds [mutex] non-zero; with
    the semaphore-based lock, the assignment that follows a pass through
    [semLock->P()] that found the semaphore non-zero.  Being woken by
    [Release] gives none of this. *)
Theorem Lock_mutual_exclusion :
  (* the lock on a raw wait queue *)
  (forall (es : list SynchQueue.Event) (t u : Kernel.tid) (l : Kernel.lid),
     SynchQueue.holds (SynchQueue.run es SynchQueue.init) t l = true ->
     SynchQueue.holds (SynchQueue.run es SynchQueue.init) u l = true ->
     t = u) /\
  (forall (es : list SynchQueue.Event) (t u : Kernel.tid) (l : Kernel.lid),
     SynchQueue.pc (SynchQueue.run es SynchQueue.init) t = SynchQueue.ReleaseBody l ->
     SynchQueue.holds (SynchQueue.run es SynchQueue.init) u l = false) /\
  (forall (es : list SynchQueue.Event) (e : SynchQueue.Event)
          (u : Kernel.tid) (l : Kernel.lid),
     let s := SynchQueue.run es SynchQueue.init in
     SynchQueue.holds s u l = false ->
     SynchQueue.holds (SynchQueue.step e s) u l = true ->
     e = SynchQueue.Run u /\
     SynchQueue.sched s u = Kernel.READY /\
     SynchQueue.mutex (SynchQueue.locks s l) <> 0 /\
     (SynchQueue.pc s u = SynchQueue.AcquireLoop l \/
      SynchQueue.pc s u = SynchQueue.WaitWoken l)) /\
  (* the lock on a semaphore *)
  (forall (es : list SynchSem.Event) (t u : Kernel.tid) (l : Kernel.lid),
     SynchSem.holds (SynchSem.run es SynchSem.init) t l = true ->
     SynchSem.holds (SynchSem.run es SynchSem.init) u l = true ->
     t = u) /\
  (forall (es : list SynchSem.Event) (t u : Kernel.tid) (l : Kernel.lid)
          (k : SynchSem.Caller),
     SynchSem.pc (SynchSem.run es SynchSem.init) t = SynchSem.ReleaseClear l k \/
     SynchSem.pc (SynchSem.run es SynchSem.init) t = SynchSem.ReleaseTest l k \/
     SynchSem.pc (SynchSem.run es SynchSem.init) t = SynchSem.ReleaseV l k ->
     SynchSem.holds (SynchSem.run es SynchSem.init) u l = false) /\
  (forall (es : list SynchSem.Event) (e : SynchSem.Event)
          (u : Kernel.tid) (l : Kernel.lid),
     let s := SynchSem.run es SynchSem.init in
     (SynchSem.holds s u l = false ->
      SynchSem.holds (SynchSem.step e s) u l = true ->
      e = SynchSem.Run u /\
      SynchSem.sched s u = Kernel.READY /\
      SynchSem.pc s u = SynchSem.AcquireSet l) /\
     (SynchSem.pc s u <> SynchSem.AcquireSet l ->
      SynchSem.pc (SynchSem.step e s) u = SynchSem.AcquireSet l ->
      e = SynchSem.Run u /\
      SynchSem.sched s u = Kernel.READY /\
      SynchSem.pc s u = SynchSem.AcquireP l /\
      Sem.value (SynchSem.semLock (SynchSem.locks s l)) <> 0)).
Proof.
  split; [exact SynchQueue.queue_lock_exclusive|].
  split; [exact SynchQueue.queue_lock_released|].
  split; [intros es e u l s; apply SynchQueue.queue_lock_taken_by_own_step|].
  split; [exact SynchSem.sem_lock_exclusive|].
  split; [exact SynchSem.sem_lock_released|].
  intros es e u l s. split.
  - apply SynchSem.sem_lock_taken_by_own_step.
  - apply SynchSem.sem_lock_P_by_own_step.
Qed.

(** Thread 1 holds lock 0 and thread 2 has asked for it: thread 2 is not
    a holder, on either machine. *)
Definition queue_contention : list SynchQueue.Event :=
  [SynchQueue.Call 1%nat (SynchQueue.Acquire 0%nat); SynchQueue.Run 1%nat;
   SynchQueue.Call 2%nat (SynchQueue.Acquire 0%nat); SynchQueue.Run 2%nat].

Definition sem_contention : list SynchSem.Event :=
  [SynchSem.Call 1%nat (SynchSem.Acquire 0%nat); SynchSem.Run 1%nat;
   SynchSem.Run 1%nat;
   SynchSem.Call 2%nat (SynchSem.Acquire 0%nat); SynchSem.Run 2%nat].

Lemma Lock_mutual_exclusion_witness :
  (SynchQueue.holds (SynchQueue.run queue_contention SynchQueue.init)
     1%nat 0%nat = true /\
   SynchQueue.holds (SynchQueue.run queue_contention SynchQueue.init)
     2%nat 0%nat <> true) /\
  (SynchSem.holds (SynchSem.run sem_contention SynchSem.init)
     1%nat 0%nat = true /\
   SynchSem.holds (SynchSem.run sem_contention SynchSem.init)
     2%nat 0%nat <> true).
Proof.
  destruct Lock_mutual_exclusion as (Q & _ & _ & S & _).
  split; (split; [reflexivity|]); intros H.
  - pose proof (Q queue_contention 1%nat 2%nat 0%nat eq_refl H). discriminate.
  - pose proof (S sem_contention 1%nat 2%nat 0%nat eq_refl H). discriminate.
Defined.

(** ** The elevator and the building ([Elevator.cc]) *)

Module Elev.

(** The event barrier class is used by the elevator code but its
    implementation is not part of the sources at hand: its state and its
    operations are taken as parameters. *)
Class EventBarrierOps : Type := {
  EventBarrier : Type;
  eb_new : EventBarrier;                       (* new EventBarrier() *)
  Waiters : EventBarrier -> Z;                 (* ->Waiters() *)
  Signal : EventBarrier -> EventBarrier;       (* ->Signal() *)
  Complete : EventBarrier -> EventBarrier      (* ->Complete() *)
}.

(** The named locks of a [Building]. *)
Inductive BLock : Type := upIDLock | downIDLock | lock.

(** Calls into the thread system, in program order. *)
Inductive Event : Type :=
| EvPause (howLong : Z)          (* alarms->Pause(n) *)
| EvYield                        (* currentThread->Yield() *)
| EvAcquire (l : BLock)          (* l->Acquire() *)
| EvRelease (l : BLock)          (* l->Release() *)
| EvBroadcast                    (* cond->Broadcast(lock) *)
| EvWait.                        (* cond->Wait(lock) *)

(** Directions, as [Operating] and [getelevID] read [dir]. *)
Definition UP : Z := 1.
Definition DOWN : Z := 0.

Section WithBarrier.
Context {EB : EventBarrierOps}.

Record Elevator : Type := mkElevator {
  currentfloor : Z;
  occupancy : Z;
  floorCounts : Z;
  elevatorID : Z;
  dir : Z;
  floorCalled : Z -> Z;
  exitBar : Z -> EventBarrier
}.

Record Building : Type := mkBuilding {
  riderRequest : Z;
  floorCalledUp : Z -> Z;
  floorCalledDown : Z -> Z;
  enterBarUp : Z -> EventBarrier;
  enterBarDown : Z -> EventBarrier;
  elevatorUpID : Z -> Z;
  elevatorDownID : Z -> Z;
  idCells : Z;       (* the length of the two arrays: [new int[numFloors]] *)
  overrun : bool     (* history: a cell past the end of one of them was written *)
}.

(** One elevator, the building it points to, the global [capacity] and the
    calls made into the thread system so far. *)
Record World : Type := mkWorld {
  elev : Elevator;
  building : Building;
  capacity : Z;
  trace : list Event
}.

(** *** Field updates *)

Definition set_elev (f : Elevator -> Elevator) (w : World) : World :=
  mkWorld (f (elev w)) (building w) (capacity w) (trace w).
Definition set_building (f : Building -> Building) (w : World) : World :=
  mkWorld (elev w) (f (building w)) (capacity w) (trace w).
Definition emit (e : Event) (w : World) : World :=
  mkWorld (elev w) (building w) (capacity w) (trace w ++ [e]).

Definition set_currentfloor (v : Z) (e : Elevator) : Elevator :=
  mkElevator v (occupancy e) (floorCounts e) (elevatorID e) (dir e)
    (floorCalled e) (exitBar e).
Definition set_occupancy (v : Z) (e : Elevator) : Elevator :=
  mkElevator (currentfloor e) v (floorCounts e) (elevatorID e) (dir e)
    (floorCalled e) (exitBar e).
Definition set_dir (v : Z) (e : Elevator) : Elevator :=
  mkElevator (currentfloor e) (occupancy e) (floorCounts e) (elevatorID e) v
    (floorCalled e) (exitBar e).
Definition set_floorCalled (i v : Z) (e : Elevator) : Elevator :=
  mkElevator (currentfloor e) (occupancy e) (floorCounts e) (elevatorID e)
    (dir e) (store (floorCalled e) i v) (exitBar e).
Definition set_exitBar (i : Z) (b : EventBarrier) (e : Elevator) : Elevator :=
  mkElevator (currentfloor e) (occupancy e) (floorCounts e) (elevatorID e)
    (dir e) (floorCalled e) (store (exitBar e) i b).

Definition set_riderRequest (v : Z) (b : Building) : Building :=
  mkBuilding v (floorCalledUp b) (floorCalledDown b) (enterBarUp b)
    (enterBarDown b) (elevatorUpID b) (elevatorDownID b) (idCells b) (overrun b).
Definition set_floorCalledUp (i v : Z) (b : Building) : Building :=
  mkBuilding (riderRequest b) (store (floorCalledUp b) i v) (floorCalledDown b)
    (enterBarUp b) (enterBarDown b) (elevatorUpID b) (elevatorDownID b)
    (idCells b) (overrun b).
Definition set_floorCalledDown (i v : Z) (b : Building) : Building :=
  mkBuilding (riderRequest b) (floorCalledUp b) (store (floorCalledDown b) i v)
    (enterBarUp b) (enterBarDown b) (elevatorUpID b) (elevatorDownID b)
    (idCells b) (overrun b).
Definition set_enterBarUp (i : Z) (x : EventBarrier) (b : Building) : Building :=
  mkBuilding (riderRequest b) (floorCalledUp b) (floorCalledDown b)
    (store (enterBarUp b) i x) (enterBarDown b) (elevatorUpID b)
    (elevatorDownID b) (idCells b) (overrun b).
Definition set_enterBarDown (i : Z) (x : EventBarrier) (b : Building) : Building :=
  mkBuilding (riderRequest b) (floorCalledUp b) (floorCalledDown b)
    (enterBarUp b) (store (enterBarDown b) i x) (elevatorUpID b)
    (elevatorDownID b) (idCells b) (overrun b).
Definition set_elevatorUpID (i v : Z) (b : Building) : Building :=
  mkBuilding (riderRequest b) (floorCalledUp b) (floorCalledDown b)
    (enterBarUp b) (enterBarDown b) (store (elevatorUpID b) i v)
    (elevatorDownID b) (idCells b) (overrun b).
Definition set_elevatorDownID (i v : Z) (b : Building) : Building :=
  mkBuilding (riderRequest b) (floorCalledUp b) (floorCalledDown b)
    (enterBarUp b) (enterBarDown b) (elevatorUpID b)
    (store (elevatorDownID b) i v) (idCells b) (overrun b).
Definition set_overrun (b : Building) : Building :=
  mkBuilding (riderRequest b) (floorCalledUp b) (floorCalledDown b)
    (enterBarUp b) (enterBarDown b) (elevatorUpID b) (elevatorDownID b)
    (idCells b) true.

(** *** [Elevator::Elevator]

    [raw] is the object before construction: the array cells the
    constructor does not write keep their contents. *)
Fixpoint ctor_loop (n : nat) (i : Z) (e : Elevator) : Elevator :=
  match n with
  | O => e
  | S n' => ctor_loop n' (i + 1) (set_exitBar i eb_new (set_floorCalled i 0 e))
  end.

Definition Elevator_new (raw : Elevator) (numFloors myID : Z) : Elevator :=
  let e := mkElevator 1 0 numFloors myID 0 (floorCalled raw) (exitBar raw) in
  ctor_loop (Z.to_nat numFloors) 1 e.

(** *** [Building::GetUpID], [Building::GetDownID]

    The two arrays are allocated with [numFloors] cells, [0] to
    [numFloors - 1], and written at the number of a floor.  A write at an
    index that is not a cell of the array is outside what the source
    defines: the model leaves the array as it is and notes the write in
    [overrun]. *)
Definition in_cells (i : Z) (b : Building) : bool :=
  (0 <=? i) && (i <? idCells b).

(** [elevatorUpID[floor] = elevatorID] and [elevatorDownID[floor] =
    elevatorID]. *)
Definition write_elevatorUpID (floor id : Z) (b : Building) : Building :=
  if in_cells floor b then set_elevatorUpID floor id b else set_overrun b.

Definition write_elevatorDownID (floor id : Z) (b : Building) : Building :=
  if in_cells floor b then set_elevatorDownID floor id b else set_overrun b.

Definition GetUpID (floor id : Z) (w : World) : World :=
  emit (EvRelease upIDLock)
    (set_building (write_elevatorUpID floor id) (emit (EvAcquire upIDLock) w)).

Definition GetDownID (floor id : Z) (w : World) : World :=
  emit (EvRelease downIDLock)
    (set_building (write_elevatorDownID floor id) (emit (EvAcquire downIDLock) w)).

(** *** [Building::CallUp], [Building::CallDown] *)
Definition CallUp (fromFloor : Z) (w : World) : World :=
  let w1 := set_building (fun b => set_riderRequest (Int.incr (riderRequest b)) b) w in
  let w2 := set_building (set_floorCalledUp fromFloor 1) w1 in
  emit (EvRelease lock) (emit EvBroadcast (emit (EvAcquire lock) w2)).

Definition CallDown (fromFloor : Z) (w : World) : World :=
  let w1 := set_building (fun b => set_riderRequest (Int.incr (riderRequest b)) b) w in
  let w2 := set_building (set_floorCalledDown fromFloor 1) w1 in
  emit (EvRelease lock) (emit EvBroadcast (emit (EvAcquire lock) w2)).

(** *** [Elevator::getelevID] *)
Definition getelevID (w : World) : World :=
  if dir (elev w) =? 1
  then GetUpID (currentfloor (elev w)) (elevatorID (elev w)) w
  else GetDownID (currentfloor (elev w)) (elevatorID (elev w)) w.

(** *** [Elevator::OpenDoors] *)
Definition OpenDoors (w : World) : World :=
  let cf := currentfloor (elev w) in
  let w1 :=
    if Waiters (exitBar (elev w) cf) >? 0
    then set_elev (set_exitBar cf (Signal (exitBar (elev w) cf))) w
    else w in
  let w2 := getelevID w1 in
  let w3 :=
    if (Waiters (enterBarUp (building w2) cf) >? 0) && (dir (elev w2) =? 1)
    then set_building (set_enterBarUp cf (Signal (enterBarUp (building w2) cf))) w2
    else w2 in
  if (Waiters (enterBarDown (building w3) cf) >? 0) && (dir (elev w3) =? 0)
  then set_building (set_enterBarDown cf (Signal (enterBarDown (building w3) cf))) w3
  else w3.

(** *** [Elevator::CloseDoors] *)
Definition CloseDoors (w : World) : World := emit EvYield w.

(** *** [Elevator::VisitFloor] *)
Definition VisitFloor (floor : Z) (w : World) : World :=
  let cf := currentfloor (elev w) in
  let w1 :=
    if floor >? cf
    then emit (EvPause (Int.mul 10 (Int.sub floor cf))) w
    else emit (EvPause (Int.mul 10 (Int.sub cf floor))) w in
  set_elev (set_floorCalled floor 0) (set_elev (set_currentfloor floor) w1).

(** *** Outcome of a call that may hit an [ASSERT] *)
Inductive Result (A : Type) : Type :=
| Ret (a : A) (w : World)          (* the call returned [a] *)
| AssertFailed (w : World).        (* ASSERT aborted the program in state [w] *)
Arguments Ret {A} a w.
Arguments AssertFailed {A} w.

Definition world_of {A : Type} (r : Result A) : World :=
  match r with Ret _ w => w | AssertFailed w => w end.

(** *** [Elevator::Enter] *)
Definition Enter (w : World) : Result bool :=
  let w1 := set_building (fun b => set_riderRequest (Int.decr (riderRequest b)) b) w in
  if negb (riderRequest (building w1) >=? 0) then AssertFailed w1 else
  let cf := currentfloor (elev w1) in
  if occupancy (elev w1) <? capacity w1 then
    let w2 := set_elev (fun e => set_occupancy (Int.incr (occupancy e)) e) w1 in
    if dir (elev w2) =? 1 then
      let w3 := set_building (set_floorCalledUp cf 0) w2 in
      Ret true (set_building (set_enterBarUp cf (Complete (enterBarUp (building w3) cf))) w3)
    else
      let w3 := set_building (set_floorCalledDown cf 0) w2 in
      Ret true (set_building (set_enterBarDown cf (Complete (enterBarDown (building w3) cf))) w3)
  else
    let w2 :=
      if dir (elev w1) =? 1 then
        let w3 := set_building (set_floorCalledDown cf 0) w1 in
        set_building (set_enterBarUp cf (Complete (enterBarUp (building w3) cf))) w3
      else
        let w3 := set_building (set_floorCalledDown cf 0) w1 in
        set_building (set_enterBarDown cf (Complete (enterBarDown (building w3) cf))) w3 in
    Ret false (emit EvYield w2).

(** *** [Elevator::Exit] *)
Definition Exit (w : World) : World :=
  let w1 := set_elev (fun e => set_occupancy (Int.decr (occupancy e)) e) w in
  let cf := currentfloor (elev w1) in
  set_elev (set_exitBar cf (Complete (exitBar (elev w1) cf))) w1.

(** *** [Elevator::noneedUp], [Elevator::noneedDown]

    The [for] loops run over a fixed range of floors ([floorCounts] and the
    start are not written in the loop): the first argument counts the
    iterations left, the second is the loop variable. *)
Fixpoint noneedUp_loop (n : nat) (i : Z) (w : World) : Z :=
  match n with
  | O => 1
  | S n' =>
    if (floorCalledUp (building w) i =? 1) || (floorCalled (elev w) i =? 1)
    then 0
    else noneedUp_loop n' (i + 1) w
  end.

Definition noneedUp (here : Z) (w : World) : Z :=
  noneedUp_loop (Z.to_nat (floorCounts (elev w) - here)) (here + 1) w.

Fixpoint noneedDown_loop (n : nat) (i : Z) (w : World) : Z :=
  match n with
  | O => 1
  | S n' =>
    if (floorCalledDown (building w) i =? 1) || (floorCalled (elev w) i =? 1)
    then 0
    else noneedDown_loop n' (i - 1) w
  end.

Definition noneedDown (here : Z) (w : World) : Z :=
  noneedDown_loop (Z.to_nat (here - 1)) (here - 1) w.

(** *** [Elevator::Operating]: the body of the main loop *)

(** Turning round at a floor that also has a call the other way
    (the inner [if] of the first loop of each branch). *)
Definition turn_down (w : World) : World :=
  let w1 := set_elev (set_dir 0) w in
  let cf := currentfloor (elev w1) in
  let w2 := set_building (set_floorCalledDown cf 0) w1 in
  if Waiters (enterBarDown (building w2) cf) >? 0
  then set_building (set_enterBarDown cf (Signal (enterBarDown (building w2) cf))) w2
  else w2.

Definition turn_up (w : World) : World :=
  let w1 := set_elev (set_dir 1) w in
  let cf := currentfloor (elev w1) in
  let w2 := set_building (set_floorCalledUp cf 0) w1 in
  if Waiters (enterBarUp (building w2) cf) >? 0
  then set_building (set_enterBarUp cf (Signal (enterBarUp (building w2) cf))) w2
  else w2.

(** [for (int i=currentfloor+1;i<=floorCounts;i++)] of the UP branch. *)
Fixpoint up_sweep (n : nat) (i : Z) (w : World) : World :=
  match n with
  | O => w
  | S n' =>
    if (floorCalledUp (building w) i =? 1) || (floorCalled (elev w) i =? 1) then
      let w1 := OpenDoors (VisitFloor i w) in
      if negb (noneedUp i w1 =? 0) then
        let w2 := if floorCalledDown (building w1) i =? 1 then turn_down w1 else w1 in
        CloseDoors w2                                  (* break *)
      else up_sweep n' (i + 1) (CloseDoors w1)
    else up_sweep n' (i + 1) w
  end.

(** [for(int i=floorCounts;i>=1;--i)] of the UP branch. *)
Fixpoint down_check (n : nat) (i : Z) (w : World) : World :=
  match n with
  | O => w
  | S n' =>
    if floorCalledDown (building w) i =? 1 then
      CloseDoors (OpenDoors (set_elev (set_dir 0) (VisitFloor i w)))   (* break *)
    else down_check n' (i - 1) w
  end.

(** [for (int i=currentfloor-1;i>=1;i--)] of the DOWN branch. *)
Fixpoint down_sweep (n : nat) (i : Z) (w : World) : World :=
  match n with
  | O => w
  | S n' =>
    if (floorCalledDown (building w) i =? 1) || (floorCalled (elev w) i =? 1) then
      let w1 := OpenDoors (VisitFloor i w) in
      if negb (noneedDown i w1 =? 0) then
        let w2 := if floorCalledUp (building w1) i =? 1 then turn_up w1 else w1 in
        CloseDoors w2                                  (* break *)
      else down_sweep n' (i - 1) (CloseDoors w1)
    else down_sweep n' (i - 1) w
  end.

(** [for(int i=1;i<=floorCounts;++i)] of the DOWN branch. *)
Fixpoint up_check (n : nat) (i : Z) (w : World) : World :=
  match n with
  | O => w
  | S n' =>
    if floorCalledUp (building w) i =? 1 then
      CloseDoors (OpenDoors (set_elev (set_dir 1) (VisitFloor i w)))   (* break *)
    else up_check n' (i + 1) w
  end.

(** The [if (dir==1) ... else if (dir==0) ...] statement. *)
Definition Operating_scan (w : World) : World :=
  let cf := currentfloor (elev w) in
  let fc := floorCounts (elev w) in
  if dir (elev w) =? 1 then
    let w1 := up_sweep (Z.to_nat (fc - cf)) (cf + 1) w in
    let w2 := down_check (Z.to_nat (floorCounts (elev w1))) (floorCounts (elev w1)) w1 in
    set_elev (set_dir 0) w2
  else if dir (elev w) =? 0 then
    let w1 := down_sweep (Z.to_nat (cf - 1)) (cf - 1) w in
    let w2 := up_check (Z.to_nat (floorCounts (elev w1))) 1 w1 in
    set_elev (set_dir 1) w2
  else w.

(** The end of the loop body: with nothing to do the elevator thread
    blocks in [cond->Wait]; it tests again when it is woken. *)
Inductive Activity : Type := Running | Parked.

Definition idle (w : World) : bool :=
  (riderRequest (building w) =? 0) && (occupancy (elev w) =? 0).

Definition Operating_park (w : World) : World * Activity :=
  let w1 := emit (EvAcquire lock) w in
  if idle w1 then (emit EvWait w1, Parked) else (emit (EvRelease lock) w1, Running).

Definition Operating_wake (w : World) : World * Activity :=
  if idle w then (emit EvWait w, Parked) else (emit (EvRelease lock) w, Running).

(** One iteration of [while (true)]. *)
Definition Operating_iteration (w : World) : World * Activity :=
  Operating_park (Operating_scan w).

(** *** Sequences of [Enter] and [Exit] calls on one elevator *)
Inductive Call : Type := CEnter | CExit.

Definition do_call (c : Call) (w : World) : option World :=
  match c with
  | CEnter => match Enter w with Ret _ w' => Some w' | AssertFailed _ => None end
  | CExit => Some (Exit w)
  end.

(** Occupancy after every call of the sequence that completed (an
    assertion failure ends the program). *)
Fixpoint occupancies (cs : list Call) (w : World) : list Z :=
  match cs with
  | [] => []
  | c :: cs' =>
    match do_call c w with
    | Some w' => occupancy (elev w') :: occupancies cs' w'
    | None => []
    end
  end.

(** Every [Exit] of the sequence is made with somebody inside. *)
Fixpoint exits_by_occupants (cs : list Call) (w : World) : bool :=
  match cs with
  | [] => true
  | c :: cs' =>
    match c with CExit => 0 <? occupancy (elev w) | CEnter => true end
    && match do_call c w with
       | Some w' => exits_by_occupants cs' w'
       | None => true
       end
  end.

End WithBarrier.

Arguments Ret {EB A} a w.
Arguments AssertFailed {EB A} w.

(** A barrier that only counts: used to run the code on concrete inputs. *)
Definition countingBarrier : EventBarrierOps :=
  {| EventBarrier := Z; eb_new := 0; Waiters := fun n => n;
     Signal := fun n => n; Complete := fun n => Z.max 0 (n - 1) |}.

(** A five-floor building with one elevator of capacity two, as
    constructed; used to run the code on concrete inputs. *)
Definition raw_elevator : @Elevator countingBarrier :=
  @mkElevator countingBarrier 0 0 0 0 0 (fun _ => 0) (fun _ => 0).

Definition building0 : @Building countingBarrier :=
  @mkBuilding countingBarrier 0 (fun _ => 0) (fun _ => 0) (fun _ => 0)
    (fun _ => 0) (fun _ => 0) (fun _ => 0) 5 false.

Definition world0 : @World countingBarrier :=
  @mkWorld countingBarrier (@Elevator_new countingBarrier raw_elevator 5 0)
    building0 2 [].

(** A barrier that counts its waiters and remembers that it was
    signalled: used to see the doors open on concrete inputs. *)
Record Bar : Type := mkBar {
  bar_waiters : Z;
  bar_signalled : bool
}.

Definition flagBarrier : EventBarrierOps :=
  {| EventBarrier := Bar; eb_new := mkBar 0 false; Waiters := bar_waiters;
     Signal := fun b => mkBar (bar_waiters b) true;
     Complete := fun b =>
       mkBar (Z.max 0 (bar_waiters b - 1))
         (bar_signalled b && (1 <? bar_waiters b)) |}.

(** *** Facts about machine integers *)

Lemma wrap_in_range (z : Z) : Int.in_range z -> Int.wrap z = z.
Proof.
  unfold Int.in_range, Int.min_int, Int.max_int, Int.wrap. intros H.
  rewrite Z.mod_small by lia. lia.
Qed.

Lemma decr_exact (z : Z) :
  Int.min_int < z -> z <= Int.max_int -> Int.decr z = z - 1.
Proof.
  intros H1 H2. unfold Int.decr. apply wrap_in_range.
  unfold Int.in_range. lia.
Qed.

Lemma incr_exact (z : Z) :
  Int.min_int <= z -> z < Int.max_int -> Int.incr z = z + 1.
Proof.
  intros H1 H2. unfold Int.incr. apply wrap_in_range.
  unfold Int.in_range. lia.
Qed.

Section Facts.
Context {EB : EventBarrierOps}.

(** *** The constructor *)

Lemma ctor_loop_scalars (n : nat) (i : Z) (e : Elevator) :
  currentfloor (ctor_loop n i e) = currentfloor e /\
  dir (ctor_loop n i e) = dir e /\
  occupancy (ctor_loop n i e) = occupancy e.
Proof.
  revert i e. induction n as [|n IH]; intros i e; simpl.
  - auto.
  - destruct (IH (i + 1) (set_exitBar i eb_new (set_floorCalled i 0 e)))
      as (H1 & H2 & H3).
    rewrite H1, H2, H3. auto.
Qed.

(** C7 as the specification states it: a fresh elevator is at floor 1,
    heading up, and empty. *)
Definition fresh_elevator_heads_up : Prop :=
  forall (raw : Elevator) (numFloors myID : Z),
    currentfloor (Elevator_new raw numFloors myID) = 1 /\
    dir (Elevator_new raw numFloors myID) = UP /\
    occupancy (Elevator_new raw numFloors myID) = 0.

(** C7 (amended): a freshly constructed elevator is at floor 1, its
    direction is DOWN ([dir = 0]; [Operating] and [getelevID] read [1] as
    up), and its occupancy is 0. *)
Theorem Elevator_new_initial_state (raw : Elevator) (numFloors myID : Z) :
  currentfloor (Elevator_new raw numFloors myID) = 1 /\
  dir (Elevator_new raw numFloors myID) = DOWN /\
  occupancy (Elevator_new raw numFloors myID) = 0.
Proof.
  unfold Elevator_new.
  destruct (ctor_loop_scalars (Z.to_nat numFloors) 1
              (mkElevator 1 0 numFloors myID 0 (floorCalled raw) (exitBar raw)))
    as (H1 & H2 & H3).
  rewrite H1, H2, H3. auto.
Qed.

(** *** [Enter] *)

(** The state in which [Enter] tests its assertion. *)
Definition after_decrement (w : World) : World :=
  set_building (fun b => set_riderRequest (Int.decr (riderRequest b)) b) w.

Lemma Enter_assert_fails (w : World) :
  Int.decr (riderRequest (building w)) < 0 ->
  Enter w = AssertFailed (after_decrement w).
Proof.
  intros H. unfold Enter. cbn.
  destruct (Z.geb_spec (Int.decr (riderRequest (building w))) 0); [lia|].
  reflexivity.
Qed.

Lemma Enter_returns (w : World) :
  0 <= Int.decr (riderRequest (building w)) ->
  exists w', Enter w = Ret (occupancy (elev w) <? capacity w) w' /\
    riderRequest (building w') = Int.decr (riderRequest (building w)) /\
    capacity w' = capacity w /\
    currentfloor (elev w') = currentfloor (elev w) /\
    dir (elev w') = dir (elev w) /\
    occupancy (elev w') =
      (if occupancy (elev w) <? capacity w
       then Int.incr (occupancy (elev w)) else occupancy (elev w)).
Proof.
  intros H. unfold Enter. cbn.
  destruct (Z.geb_spec (Int.decr (riderRequest (building w))) 0); [|lia].
  cbn.
  destruct (occupancy (elev w) <? capacity w); cbn;
    destruct (dir (elev w) =? 1); cbn; eexists; repeat split; reflexivity.
Qed.

Lemma Enter_world_of (w : World) :
  riderRequest (building (world_of (Enter w))) =
  Int.decr (riderRequest (building w)).
Proof.
  destruct (Z_lt_ge_dec (Int.decr (riderRequest (building w))) 0) as [H|H].
  - rewrite (Enter_assert_fails w H). reflexivity.
  - destruct (Enter_returns w) as (w' & E & R & _); [lia|].
    rewrite E. exact R.
Qed.

(** C6 as the specification states it: at [occupancy == capacity] the call
    returns [false] and leaves the occupancy as it was. *)
Definition full_Enter_returns_false : Prop :=
  forall w : World,
    occupancy (elev w) = capacity w ->
    exists w', Enter w = Ret false w' /\
      occupancy (elev w') = occupancy (elev w).

(** C6 (amended): an [Enter] made at [occupancy == capacity] while at least
    one rider request is outstanding ([riderRequest >= 1], so that the
    assertion after the decrement holds) returns [false], not a fatal error,
    and leaves the occupancy unchanged.  With [INT_MIN < riderRequest <= 0]
    the call ends in [ASSERT(riderRequest>=0)], before the capacity test,
    with the occupancy unchanged.  (At [riderRequest == INT_MIN] the
    decrement wraps to [INT_MAX] and the call returns [false].) *)
Theorem Enter_full_returns_false (w : World) :
  occupancy (elev w) = capacity w ->
  (1 <= riderRequest (building w) <= Int.max_int ->
   exists w', Enter w = Ret false w' /\
     occupancy (elev w') = occupancy (elev w)) /\
  (Int.min_int < riderRequest (building w) <= 0 ->
   exists w', Enter w = AssertFailed w' /\
     riderRequest (building w') = riderRequest (building w) - 1 /\
     occupancy (elev w') = occupancy (elev w)) /\
  (riderRequest (building w) = Int.min_int ->
   exists w', Enter w = Ret false w' /\
     riderRequest (building w') = Int.max_int /\
     occupancy (elev w') = occupancy (elev w)).
Proof.
  intros Hfull.
  assert (Hmin : Int.min_int = -2147483648) by reflexivity.
  assert (Hmax : Int.max_int = 2147483647) by reflexivity.
  assert (Full : (occupancy (elev w) <? capacity w) = false).
  { destruct (Z.ltb_spec (occupancy (elev w)) (capacity w)); [lia | reflexivity]. }
  split; [|split].
  - intros Hrr.
    assert (D : Int.decr (riderRequest (building w)) = riderRequest (building w) - 1)
      by (apply decr_exact; lia).
    destruct (Enter_returns w) as (w' & E & _ & _ & _ & _ & O); [lia|].
    exists w'. rewrite E, O, Full. split; reflexivity.
  - intros Hrr.
    assert (D : Int.decr (riderRequest (building w)) = riderRequest (building w) - 1)
      by (apply decr_exact; lia).
    exists (after_decrement w). split; [|split].
    + apply Enter_assert_fails. lia.
    + cbn. exact D.
    + reflexivity.
  - intros Hrr.
    assert (D : Int.decr (riderRequest (building w)) = Int.max_int)
      by (rewrite Hrr; reflexivity).
    destruct (Enter_returns w) as (w' & E & R & _ & _ & _ & O); [lia|].
    exists w'. rewrite E, O, Full, R. repeat split. exact D.
Qed.

(** C9: every [Enter] first takes one off [riderRequest], whatever the
    outcome: the call returns (admitted or rejected for capacity) exactly
    when the decremented counter is non-negative, with the counter one
    lower in both branches; otherwise the assertion on the decremented
    counter aborts.  After a rejection the counter is short by the
    rejected rider's request until that rider calls again. *)
Theorem Enter_consumes_one_request (w : World) :
  Int.min_int < riderRequest (building w) <= Int.max_int ->
  riderRequest (building (world_of (Enter w))) = riderRequest (building w) - 1 /\
  (1 <= riderRequest (building w) ->
     exists w', Enter w = Ret (occupancy (elev w) <? capacity w) w' /\
       riderRequest (building w') = riderRequest (building w) - 1 /\
       0 <= riderRequest (building w')) /\
  (riderRequest (building w) <= 0 ->
     Enter w = AssertFailed (after_decrement w) /\
     riderRequest (building (after_decrement w)) < 0) /\
  (forall (w' : World) (fromFloor : Z),
     Enter w = Ret false w' ->
     riderRequest (building w') = riderRequest (building w) - 1 /\
     riderRequest (building (CallUp fromFloor w')) = riderRequest (building w) /\
     riderRequest (building (CallDown fromFloor w')) = riderRequest (building w)).
Proof.
  intros Hrr.
  assert (D : Int.decr (riderRequest (building w)) = riderRequest (building w) - 1).
  { apply decr_exact; lia. }
  split; [rewrite Enter_world_of; exact D|].
  split; [|split].
  - intros H1. destruct (Enter_returns w) as (w' & E & R & _); [lia|].
    exists w'. rewrite R, D. split; [exact E|]. lia.
  - intros H0. rewrite (Enter_assert_fails w) by lia.
    split; [reflexivity|]. cbn. lia.
  - intros w' fromFloor E.
    pose proof (Enter_world_of w) as R. rewrite E in R. cbn in R.
    rewrite D in R.
    assert (I : Int.incr (riderRequest (building w')) = riderRequest (building w)).
    { rewrite R. unfold Int.incr.
      replace (riderRequest (building w) - 1 + 1) with (riderRequest (building w)) by lia.
      apply wrap_in_range. unfold Int.in_range. lia. }
    split; [exact R|]. split; cbn; exact I.
Qed.

(** C10: with the elevator heading up ([dir == 1]), an [Enter] rejected for
    capacity clears [floorCalledDown[currentfloor]], leaves every
    [floorCalledUp] cell as it was and completes the up entry barrier of the
    floor; an admitted [Enter] is the one that clears
    [floorCalledUp[currentfloor]] (and leaves [floorCalledDown] alone). *)
Theorem Enter_up_flag_effects (w w' : World) (admitted : bool) :
  dir (elev w) = 1 ->
  Enter w = Ret admitted w' ->
  let cf := currentfloor (elev w) in
  enterBarUp (building w') cf = Complete (enterBarUp (building w) cf) /\
  (forall i, enterBarDown (building w') i = enterBarDown (building w) i) /\
  if admitted
  then floorCalledUp (building w') cf = 0 /\
       (forall i, floorCalledDown (building w') i = floorCalledDown (building w) i)
  else floorCalledDown (building w') cf = 0 /\
       (forall i, floorCalledUp (building w') i = floorCalledUp (building w) i) /\
       occupancy (elev w') = occupancy (elev w).
Proof.
  intros Hdir E. unfold Enter in E. cbn in E. rewrite Hdir in E. cbn in E.
  destruct (negb (Int.decr (riderRequest (building w)) >=? 0)); [discriminate|].
  destruct (occupancy (elev w) <? capacity w); inversion E; subst; cbn;
    unfold store; rewrite Z.eqb_refl; repeat split; reflexivity.
Qed.

(** *** Sequences of [Enter] and [Exit] *)

(** C5 as the specification states it: whatever the sequence of calls,
    the occupancy stays between 0 and the capacity. *)
Definition occupancy_bounded_on_any_sequence : Prop :=
  forall (w : World) (cs : list Call),
    occupancy (elev w) = 0 ->
    Forall (fun o => 0 <= o <= capacity w) (occupancies cs w).

Lemma do_call_bounds (c : Call) (w w' : World) :
  capacity w <= Int.max_int ->
  0 <= occupancy (elev w) <= capacity w ->
  (c = CExit -> 0 < occupancy (elev w)) ->
  do_call c w = Some w' ->
  capacity w' = capacity w /\ 0 <= occupancy (elev w') <= capacity w.
Proof.
  intros Hcap Hocc Hexit E. destruct c; cbn in E.
  - destruct (Z_lt_ge_dec (Int.decr (riderRequest (building w))) 0) as [H|H].
    + rewrite (Enter_assert_fails w H) in E. discriminate.
    + destruct (Enter_returns w) as (w1 & E1 & _ & C & _ & _ & O); [lia|].
      rewrite E1 in E. inversion E; subst w1. split; [exact C|].
      rewrite O. destruct (Z.ltb_spec (occupancy (elev w)) (capacity w)).
      * rewrite incr_exact; unfold Int.min_int; lia.
      * lia.
  - inversion E; subst w'. cbn. split; [reflexivity|].
    specialize (Hexit eq_refl).
    rewrite decr_exact; unfold Int.min_int; lia.
Qed.

Lemma occupancies_bounded (cs : list Call) :
  forall w : World,
    capacity w <= Int.max_int ->
    0 <= occupancy (elev w) <= capacity w ->
    exits_by_occupants cs w = true ->
    Forall (fun o => 0 <= o <= capacity w) (occupancies cs w).
Proof.
  induction cs as [|c cs IH]; intros w Hcap Hocc Hex; cbn.
  - constructor.
  - cbn in Hex. apply andb_true_iff in Hex. destruct Hex as [Hc Hrest].
    destruct (do_call c w) as [w'|] eqn:E; [|constructor].
    destruct (do_call_bounds c w w' Hcap Hocc) as [C O]; [|exact E|].
    { intros ->. apply Z.ltb_lt. exact Hc. }
    constructor; [exact O|].
    rewrite <- C. apply IH; rewrite ?C; assumption.
Qed.

(** C5 (amended): starting from an empty elevator of capacity at least 0,
    along every sequence of [Enter] and [Exit] calls in which each [Exit]
    is made while somebody is inside ([occupancy > 0]), the occupancy is
    within [[0, capacity]] after every call. *)
Theorem occupancy_bounded (w : World) (cs : list Call) :
  0 <= capacity w <= Int.max_int ->
  occupancy (elev w) = 0 ->
  exits_by_occupants cs w = true ->
  Forall (fun o => 0 <= o <= capacity w) (occupancies cs w).
Proof.
  intros Hcap H0 Hex. apply occupancies_bounded; [lia | lia | exact Hex].
Qed.

(** *** The operating loop *)

Lemma up_sweep_nothing_called (n : nat) :
  forall (i0 : Z) (w : World),
    (forall i, i0 <= i < i0 + Z.of_nat n ->
       floorCalledUp (building w) i <> 1 /\ floorCalled (elev w) i <> 1) ->
    up_sweep n i0 w = w.
Proof.
  induction n as [|n IH]; intros i0 w H; [reflexivity|].
  cbn [up_sweep]. destruct (H i0) as [Hu Hc]; [lia|].
  apply Z.eqb_neq in Hu. apply Z.eqb_neq in Hc. rewrite Hu, Hc. cbn.
  apply IH. intros i Hi. apply H. lia.
Qed.

Lemma down_check_highest_call (n : nat) :
  forall (i0 f : Z) (w : World),
    f <= i0 -> i0 - f < Z.of_nat n ->
    floorCalledDown (building w) f = 1 ->
    (forall i, f < i <= i0 -> floorCalledDown (building w) i <> 1) ->
    down_check n i0 w =
    CloseDoors (OpenDoors (set_elev (set_dir 0) (VisitFloor f w))).
Proof.
  induction n as [|n IH]; intros i0 f w Hle Hn Hf Hab; [lia|].
  cbn [down_check]. destruct (Z.eq_dec i0 f) as [->|Hne].
  - rewrite Hf. reflexivity.
  - assert (Hn0 : floorCalledDown (building w) i0 <> 1) by (apply Hab; lia).
    apply Z.eqb_neq in Hn0. rewrite Hn0.
    apply IH; try lia; try assumption. intros i Hi. apply Hab. lia.
Qed.

(** [if (bar->Waiters() > 0) bar->Signal();]: what [OpenDoors] does to a
    barrier of the floor. *)
Definition Signal_if_waiting (bar : EventBarrier) : EventBarrier :=
  if Waiters bar >? 0 then Signal bar else bar.


Lemma write_elevatorUpID_frame (floor id : Z) (b : Building) :
  riderRequest (write_elevatorUpID floor id b) = riderRequest b /\
  floorCalledUp (write_elevatorUpID floor id b) = floorCalledUp b /\
  floorCalledDown (write_elevatorUpID floor id b) = floorCalledDown b /\
  enterBarUp (write_elevatorUpID floor id b) = enterBarUp b /\
  enterBarDown (write_elevatorUpID floor id b) = enterBarDown b /\
  elevatorDownID (write_elevatorUpID floor id b) = elevatorDownID b /\
  idCells (write_elevatorUpID floor id b) = idCells b.
Proof.
  unfold write_elevatorUpID. destruct (in_cells floor b);
    repeat split; reflexivity.
Qed.


Lemma write_elevatorUpID_cell (floor id : Z) (b : Building) :
  (in_cells floor b = true ->
   elevatorUpID (write_elevatorUpID floor id b) floor = id /\
   (forall i, i <> floor ->
      elevatorUpID (write_elevatorUpID floor id b) i = elevatorUpID b i) /\
   overrun (write_elevatorUpID floor id b) = overrun b) /\
  (in_cells floor b = false ->
   (forall i, elevatorUpID (write_elevatorUpID floor id b) i =
              elevatorUpID b i) /\
   overrun (write_elevatorUpID floor id b) = true).
Proof.
  unfold write_elevatorUpID. split; intros H; rewrite H; cbn.
  - unfold store. rewrite Z.eqb_refl. repeat split.
    intros i Hi. destruct (Z.eqb_spec i floor); [contradiction | reflexivity].
  - split; reflexivity.
Qed.



End Facts.

(** C6, refuted as stated: with no request outstanding the assertion on the
    decremented counter fires before the capacity test. *)
Lemma full_Enter_can_abort : ~ @full_Enter_returns_false countingBarrier.
Proof.
  intros H.
  destruct (H (@set_elev countingBarrier (set_occupancy 2) world0) eq_refl)
    as (w' & E & _).
  vm_compute in E. discriminate E.
Qed.

Lemma Enter_full_returns_false_witness :
  (exists w', Enter (set_building (set_riderRequest 1)
                       (set_elev (set_occupancy 2) world0)) = Ret false w' /\
     occupancy (elev w') = 2) /\
  (exists w', Enter (set_elev (set_occupancy 2) world0) = AssertFailed w' /\
     riderRequest (building w') = -1 /\ occupancy (elev w') = 2).
Proof.
  assert (H1 : 1 <= 1 <= Int.max_int).
  { vm_compute. split; discriminate. }
  assert (H0 : Int.min_int < 0 <= 0).
  { vm_compute. split; [reflexivity | discriminate]. }
  pose proof (proj1 (@Enter_full_returns_false countingBarrier
                (set_building (set_riderRequest 1)
                   (set_elev (set_occupancy 2) world0)) eq_refl) H1) as A.
  pose proof (proj1 (proj2 (@Enter_full_returns_false countingBarrier
                (set_elev (set_occupancy 2) world0) eq_refl)) H0) as B.
  exact (conj A B).
Defined.

Lemma Enter_consumes_one_request_witness :
  riderRequest (building (world_of
    (Enter (set_building (set_riderRequest 1) world0)))) =
  riderRequest (building (set_building (set_riderRequest 1) world0)) - 1.
Proof.
  assert (H : Int.min_int < 1 <= Int.max_int).
  { vm_compute. split; [reflexivity | discriminate]. }
  exact (proj1 (@Enter_consumes_one_request countingBarrier
                  (set_building (set_riderRequest 1) world0) H)).
Defined.

Definition full_up_world : @World countingBarrier :=
  set_building (set_riderRequest 1)
    (set_building (set_floorCalledDown 1 1)
       (set_elev (set_dir 1) (set_elev (set_occupancy 2) world0))).

Lemma Enter_up_flag_effects_witness :
  floorCalledDown (building (world_of (Enter full_up_world))) 1 = 0.
Proof.
  assert (E : Enter full_up_world = Ret false (world_of (Enter full_up_world))).
  { vm_compute. reflexivity. }
  exact (proj1 (proj2 (proj2
    (@Enter_up_flag_effects countingBarrier full_up_world
       (world_of (Enter full_up_world)) false eq_refl E)))).
Defined.

(** C5, refuted as stated: an [Exit] on an empty elevator takes the
    occupancy to -1. *)
Lemma occupancy_unbounded_on_stray_Exit :
  ~ @occupancy_bounded_on_any_sequence countingBarrier.
Proof.
  intros H. specialize (H world0 [CExit] eq_refl).
  inversion H as [|o os Hbad _]; subst.
  vm_compute in Hbad. destruct Hbad as [Hbad _]. apply Hbad. reflexivity.
Qed.

Definition three_requests : @World countingBarrier :=
  set_building (set_riderRequest 3) world0.

Lemma occupancy_bounded_witness :
  Forall (fun o => 0 <= o <= capacity three_requests)
    (occupancies [CEnter; CEnter; CEnter; CExit; CExit] three_requests).
Proof.
  assert (Hcap : 0 <= capacity three_requests <= Int.max_int).
  { vm_compute. split; discriminate. }
  assert (Hex : exits_by_occupants [CEnter; CEnter; CEnter; CExit; CExit]
                  three_requests = true).
  { vm_compute. reflexivity. }
  exact (@occupancy_bounded countingBarrier three_requests
           [CEnter; CEnter; CEnter; CExit; CExit] Hcap eq_refl Hex).
Defined.

(** Elevator 7 of a five-floor building, as constructed. *)
Definition elevator7 : @Elevator flagBarrier :=
  @Elevator_new flagBarrier
    (@mkElevator flagBarrier 0 0 0 0 0 (fun _ => 0) (fun _ => mkBar 0 false))
    5 7.



(** C7, refuted as stated: the constructor sets [dir=0], which the rest of
    the code reads as DOWN. *)
Lemma fresh_elevator_does_not_head_up :
  ~ @fresh_elevator_heads_up countingBarrier.
Proof.
  intros H. destruct (H raw_elevator 5 0) as (_ & Hdir & _).
  vm_compute in Hdir. discriminate Hdir.
Qed.

End Elev.

(** ** The queue-based primitives in use *)

Module QueueDiscipline.
Import Kernel SynchQueue.
Local Open Scope nat_scope.

(** *** What the lock knows and what the threads did *)

(** [heldByThread] names a thread only while the thread holds the lock or
    is about to give it back; a thread that passed the ASSERTs of [Wait]
    holds the lock until the body of [Wait] runs; a thread inside
    [Acquire], or woken inside [Wait], does not hold the lock. *)
Record Use (s : State) : Prop := mkUse {
  held_known : forall t l,
    heldByThread (locks s l) = Some t ->
    holds s t l = true \/ pc s t = ReleaseBody l;
  waiting_holds : forall t c l,
    pc s t = WaitBody c l -> holds s t l = true;
  woken_free : forall t l,
    pc s t = WaitWoken l -> holds s t l = false;
  acquiring_free : forall t l,
    pc s t = AcquireLoop l -> holds s t l = false
}.

Ltac know :=
  repeat match goal with
  | I : Inv ?s, H : holds ?s ?t ?l = true |- _ => note (holder_owns s I t l H)
  | I : Inv ?s, H : pc ?s ?t = ReleaseBody ?l |- _ => note (releaser_owns s I t l H)
  | I : Inv ?s, H : pc ?s ?t = ReleaseBody ?l |- _ => note (releaser_let_go s I t l H)
  | U : Use ?s, H : heldByThread (locks ?s ?l) = Some ?t |- _ =>
      note (held_known s U t l H)
  | U : Use ?s, H : pc ?s ?t = WaitBody ?c ?l |- _ => note (waiting_holds s U t c l H)
  | U : Use ?s, H : pc ?s ?t = WaitWoken ?l |- _ => note (woken_free s U t l H)
  | U : Use ?s, H : pc ?s ?t = AcquireLoop ?l |- _ => note (acquiring_free s U t l H)
  end.

Ltac settle :=
  split; cbn; unfold upd; intros; eqb_cases; cbn in *; know; split_ors; know;
  try congruence; try solve [intuition congruence].

Ltac enter_cases :=
  unfold Condition_enter, bind, bound_to;
  match goal with |- context [firstLock ?C] => destruct (firstLock C) end;
  cbn; unfold upd; cbn; rewrite ?Nat.eqb_refl; cbn;
  repeat match goal with
         | |- context [isHeldByCurrentThread ?t ?L] =>
           let Hh := fresh "Hh" in
           destruct (isHeldByCurrentThread t L) eqn:Hh;
           [apply queue_isHeld in Hh|]; cbn
         | |- context [if ?c then _ else _] => destruct c eqn:?
         end;
  settle.

Lemma queue_not_held (t : tid) (L : Lock) :
  isHeldByCurrentThread t L = false -> heldByThread L <> Some t.
Proof.
  intros H E. apply queue_isHeld in E. congruence.
Qed.

Lemma queue_Use_init : Use init.
Proof.
  split; cbn; intros; try discriminate; auto.
Qed.

Lemma queue_Use_step (e : Event) (s : State) : Inv s -> Use s -> Use (step e s).
Proof.
  intros I U. unfold step.
  destruct (halted s); [assumption|].
  destruct e as [t op|t]; destruct (sched s t) eqn:Hs; try assumption.
  - destruct (pc s t) eqn:Hpc; try assumption.
    destruct op; cbn.
    + unfold Acquire_enter.
      destruct (isHeldByCurrentThread t (locks s l)) eqn:Hh; [settle|].
      apply queue_not_held in Hh. settle.
      all: match goal with |- holds ?s ?t ?l = false =>
             destruct (holds s t l) eqn:Hq; [know; congruence | reflexivity] end.
    + destruct (isHeldByCurrentThread t (locks s l)) eqn:Hh; [|settle].
      apply queue_isHeld in Hh. settle.
    + enter_cases.
    + enter_cases.
    + enter_cases.
  - unfold run_thread. destruct (pc s t) eqn:Hpc; try assumption.
    + unfold Acquire_loop. destruct (mutex (locks s l) =? 0)%Z eqn:Hm; settle.
    + unfold Release_body.
      destruct (Remove (queue (locks s l))) as [thread q]. settle.
    + unfold Wait_body, Release_body. cbn.
      destruct (isHeldByCurrentThread t (locks s l)) eqn:Hh; cbn; [|settle].
      apply queue_isHeld in Hh.
      destruct (Remove (queue (locks s l))) as [thread q]. settle.
    + unfold Wait_woken.
      destruct (isHeldByCurrentThread t (locks s l)) eqn:Hh; cbn; [settle|].
      unfold Acquire_loop. destruct (mutex (locks s l) =? 0)%Z eqn:Hm; settle.
    + unfold Signal_body.
      destruct (Remove (cond_queue (conds s c))) as [thread q]. settle.
    + unfold Broadcast_body. settle.
Qed.


(** *** The wait queues and the sleeping threads *)

(** A thread that sleeps is on the queue of the lock it is acquiring, or,
    inside [Wait], on the queue of a condition. *)
Definition sleeper_queued (s : State) : Prop :=
  forall t, sched s t = BLOCKED ->
    (exists l, pc s t = AcquireLoop l /\ In t (queue (locks s l))) \/
    (exists l c, pc s t = WaitWoken l /\ In t (cond_queue (conds s c))).

Lemma queue_wake_all_other (q : list tid) :
  forall (sc : Sched) (u : tid), ~ In u q -> wake_all q sc u = sc u.
Proof.
  induction q as [|x q IH]; intros sc u H; cbn; [reflexivity|].
  rewrite IH by (intros K; apply H; right; exact K).
  unfold ReadyToRun, upd. destruct (Nat.eqb_spec u x); [|reflexivity].
  exfalso. apply H. left. congruence.
Qed.

Lemma queue_wake_all_blocked (q : list tid) (sc : Sched) (u : tid) :
  wake_all q sc u = BLOCKED -> ~ In u q /\ sc u = BLOCKED.
Proof.
  intros H. assert (N : ~ In u q).
  { intros K. rewrite (wake_all_wakes q sc u K) in H. discriminate. }
  split; [exact N|]. rewrite (queue_wake_all_other q sc u N) in H. exact H.
Qed.

Ltac queued_from Q t :=
  let l := fresh "l" in let c := fresh "c" in
  let Hp := fresh "Hp" in let Hq := fresh "Hq" in
  destruct (Q t ltac:(assumption)) as [(l & Hp & Hq)|(l & c & Hp & Hq)];
  [left; exists l | right; exists l, c]; cbn; unfold upd, Append; eqb_cases;
  cbn; try congruence; try (split; [congruence|]);
  auto using in_or_app, in_eq, in_cons.

Ltac tail_of Hq :=
  cbn in Hq; destruct Hq as [Hq|Hq]; [subst; congruence | auto].

Lemma queue_sleeper_queued_init : sleeper_queued init.
Proof.
  intros t H. discriminate.
Qed.

Lemma queue_sleeper_queued_set_pc (t : tid) (p : Pc) (s : State) :
  sched s t = READY -> sleeper_queued s -> sleeper_queued (set_pc t p s).
Proof.
  intros Hs Q u Hu. cbn in Hu. assert (u <> t) by congruence. queued_from Q u.
Qed.

Lemma queue_sleeper_queued_bind (c : cid) (l : lid) (s : State) :
  sleeper_queued s -> sleeper_queued (bind c l s).
Proof.
  intros Q u Hu. unfold bind in *.
  destruct (firstLock (conds s c)); [auto|]. cbn in Hu. queued_from Q u.
Qed.

Lemma queue_sleeper_queued_enter (t : tid) (c : cid) (l : lid) (p : Pc) (s : State) :
  sched s t = READY -> sleeper_queued s ->
  sleeper_queued (Condition_enter t c l p s).
Proof.
  intros Hs Q. unfold Condition_enter. cbv zeta.
  pose proof (queue_sleeper_queued_bind c l s Q) as B.
  assert (Hb : sched (bind c l s) t = READY).
  { unfold bind. destruct (firstLock (conds s c)); exact Hs. }
  destruct (negb (bound_to c l (bind c l s))); [exact B|].
  destruct (negb (isHeldByCurrentThread t (locks (bind c l s) l))); [exact B|].
  apply queue_sleeper_queued_set_pc; assumption.
Qed.

Lemma queue_sleeper_queued_Acquire_loop (t : tid) (l : lid) (s : State) :
  sched s t = READY -> sleeper_queued s -> sleeper_queued (Acquire_loop t l s).
Proof.
  intros Hs Q. unfold Acquire_loop. cbv zeta.
  destruct (mutex (locks s l) =? 0)%Z.
  - intros u Hu. cbn in Hu. unfold Sleep, upd in Hu.
    destruct (Nat.eqb_spec u t) as [E|Hne]; [subst u|].
    + left. exists l. cbn. unfold upd. rewrite !Nat.eqb_refl. cbn.
      split; [reflexivity|]. unfold Append. apply in_or_app. right. left. reflexivity.
    + unfold Append. queued_from Q u.
  - intros u Hu. cbn in Hu. assert (u <> t) by congruence. queued_from Q u.
Qed.

Lemma queue_sleeper_queued_Release_body (l : lid) (s : State) :
  sleeper_queued s -> sleeper_queued (Release_body l s).
Proof.
  intros Q. unfold Release_body.
  destruct (queue (locks s l)) as [|w q] eqn:Hq0; cbn.
  - intros u Hu. cbn in Hu. queued_from Q u.
    rewrite Hq0 in *. assumption.
  - intros u Hu. cbn in Hu. unfold ReadyToRun, upd in Hu.
    destruct (Nat.eqb_spec u w); [discriminate|].
    queued_from Q u. rewrite Hq0 in *. tail_of Hq.
Qed.

Lemma queue_Release_body_ready (l : lid) (s : State) (t : tid) :
  sched s t = READY -> sched (Release_body l s) t = READY.
Proof.
  intros H. unfold Release_body.
  destruct (Remove (queue (locks s l))) as [[w|] q]; cbn; [|exact H].
  unfold ReadyToRun, upd. destruct (Nat.eqb t w); [reflexivity | exact H].
Qed.

Lemma queue_Release_body_conds (l : lid) (s : State) :
  conds (Release_body l s) = conds s /\ pc (Release_body l s) = pc s.
Proof.
  unfold Release_body.
  destruct (Remove (queue (locks s l))) as [[w|] q]; split; reflexivity.
Qed.

Lemma queue_sleeper_queued_Wait_body (t : tid) (c : cid) (l : lid) (s : State) :
  sched s t = READY -> sleeper_queued s -> sleeper_queued (Wait_body t c l s).
Proof.
  intros Hs Q. unfold Wait_body. cbv zeta.
  set (s1 := set_cond c _ s).
  assert (Q1 : sleeper_queued s1).
  { intros u Hu. cbn in Hu. unfold Append. queued_from Q u. }
  destruct (negb (isHeldByCurrentThread t (locks s1 l))); [exact Q1|].
  set (s0 := set_holds t l false s1).
  assert (Q2 : sleeper_queued (Release_body l s0))
    by (apply queue_sleeper_queued_Release_body; exact Q1).
  destruct (queue_Release_body_conds l s0) as [Ec Ep].
  intros u Hu. cbn in Hu |- *. unfold Sleep, upd in Hu |- *.
  destruct (Nat.eqb_spec u t) as [E|Hne]; [subst u|].
  - right. exists l, c. split; [reflexivity|]. rewrite Ec. cbn. unfold upd.
    rewrite Nat.eqb_refl. cbn. unfold Append. apply in_or_app. right. left.
    reflexivity.
  - exact (Q2 u Hu).
Qed.

Lemma queue_sleeper_queued_step (e : Event) (s : State) :
  sleeper_queued s -> sleeper_queued (step e s).
Proof.
  intros Q. unfold step.
  destruct (halted s); [assumption|].
  destruct e as [t op|t]; destruct (sched s t) eqn:Hs; try assumption.
  - destruct (pc s t) eqn:Hpc; try assumption.
    destruct op; cbn; auto using queue_sleeper_queued_enter.
    + unfold Acquire_enter. destruct (isHeldByCurrentThread t (locks s l));
        auto using queue_sleeper_queued_set_pc.
    + destruct (isHeldByCurrentThread t (locks s l)); auto.
      intros u Hu. cbn in Hu. assert (u <> t) by congruence. queued_from Q u.
  - unfold run_thread. destruct (pc s t) eqn:Hpc; try assumption.
    + apply queue_sleeper_queued_Acquire_loop; assumption.
    + apply queue_sleeper_queued_set_pc.
      * apply queue_Release_body_ready. exact Hs.
      * apply queue_sleeper_queued_Release_body. exact Q.
    + apply queue_sleeper_queued_Wait_body; assumption.
    + unfold Wait_woken. destruct (isHeldByCurrentThread t (locks s l)); [exact Q|].
      apply queue_sleeper_queued_Acquire_loop; assumption.
    + unfold Signal_body.
      destruct (cond_queue (conds s c)) as [|w q] eqn:Hq0; cbn.
      * intros u Hu. cbn in Hu. assert (u <> t) by congruence. queued_from Q u.
        rewrite Hq0 in *. assumption.
      * intros u Hu. cbn in Hu. unfold ReadyToRun, upd in Hu.
        destruct (Nat.eqb_spec u w); [discriminate|].
        assert (u <> t) by congruence. queued_from Q u.
        rewrite Hq0 in *. tail_of Hq.
    + unfold Broadcast_body. intros u Hu. cbn in Hu.
      apply queue_wake_all_blocked in Hu. destruct Hu as [Hn Hu].
      assert (u <> t) by congruence. queued_from Q u.
Qed.


(** Woken or asleep inside [Wait]. *)
Definition in_Wait (p : Pc) : bool :=
  match p with WaitWoken _ => true | _ => false end.

(** Every entry of a wait queue is a thread asleep in the matching
    operation; no thread is queued twice, nor on two conditions. *)
Record Queues (s : State) : Prop := mkQueues {
  lock_queue_asleep : forall t l,
    In t (queue (locks s l)) -> sched s t = BLOCKED;
  lock_queue_pc : forall t l,
    In t (queue (locks s l)) -> pc s t = AcquireLoop l;
  cond_queue_asleep : forall t c,
    In t (cond_queue (conds s c)) -> sched s t = BLOCKED;
  cond_queue_pc : forall t c,
    In t (cond_queue (conds s c)) -> in_Wait (pc s t) = true;
  lock_queue_once : forall l, NoDup (queue (locks s l));
  cond_queue_once : forall c, NoDup (cond_queue (conds s c));
  one_condition : forall t c c',
    In t (cond_queue (conds s c)) -> In t (cond_queue (conds s c')) -> c = c'
}.

Lemma queue_Queues_init : Queues init.
Proof.
  split; cbn; intros; try contradiction; constructor.
Qed.

Lemma queue_NoDup_Append (q : list tid) (t : tid) :
  NoDup q -> ~ In t q -> NoDup (Append q t).
Proof.
  intros N H. unfold Append. induction N as [|x q Hx N IH]; cbn.
  - constructor; [intros []|constructor].
  - constructor.
    + intros K. apply in_app_or in K. destruct K as [K|[K|[]]]; [auto|].
      apply H. left. symmetry. exact K.
    + apply IH. intros K. apply H. right. exact K.
Qed.

Lemma queue_In_Append (q : list tid) (t u : tid) :
  In u (Append q t) -> In u q \/ u = t.
Proof.
  unfold Append. intros H. apply in_app_or in H.
  destruct H as [H|[H|[]]]; auto.
Qed.

(** A thread that runs is on no queue. *)
Lemma queue_ready_not_queued (s : State) (t : tid) :
  Queues s -> sched s t = READY ->
  (forall l, ~ In t (queue (locks s l))) /\
  (forall c, ~ In t (cond_queue (conds s c))).
Proof.
  intros Q Hs. split.
  - intros l H. pose proof (lock_queue_asleep s Q t l H). congruence.
  - intros c H. pose proof (cond_queue_asleep s Q t c H). congruence.
Qed.

Ltac queue_facts :=
  repeat match goal with
  | H : In _ (Append _ _) |- _ => apply queue_In_Append in H; destruct H as [H|H]; subst
  | Q : Queues ?s, H : In ?t (queue (locks ?s ?l)) |- _ =>
      note (lock_queue_asleep s Q t l H)
  | Q : Queues ?s, H : In ?t (queue (locks ?s ?l)) |- _ =>
      note (lock_queue_pc s Q t l H)
  | Q : Queues ?s, H : In ?t (cond_queue (conds ?s ?c)) |- _ =>
      note (cond_queue_asleep s Q t c H)
  | Q : Queues ?s, H : In ?t (cond_queue (conds ?s ?c)) |- _ =>
      note (cond_queue_pc s Q t c H)
  | Q : Queues ?s, H : In ?t (cond_queue (conds ?s ?c)),
    H' : In ?t (cond_queue (conds ?s ?c')) |- _ =>
      note (one_condition s Q t c c' H H')
  end.

Ltac at_pc :=
  repeat match goal with
  | Hp : pc ?s ?t = _, H : context [in_Wait (pc ?s ?t)] |- _ =>
    rewrite Hp in H; cbn in H
  end.

Ltac queues :=
  split; cbn; unfold upd; intros; eqb_cases; cbn in *; queue_facts; at_pc;
  try congruence; try contradiction;
  eauto using lock_queue_once, cond_queue_once, queue_NoDup_Append.

Lemma queue_Queues_set_pc (t : tid) (p : Pc) (s : State) :
  sched s t = READY -> Queues s -> Queues (set_pc t p s).
Proof.
  intros Hs Q. queues.
Qed.

Lemma queue_Queues_bind (c : cid) (l : lid) (s : State) :
  Queues s -> Queues (bind c l s).
Proof.
  intros Q. unfold bind. destruct (firstLock (conds s c)); [exact Q|]. queues.
Qed.


Lemma queue_Queues_halt (s : State) : Queues s -> Queues (halt s).
Proof.
  intros Q. destruct Q. split; assumption.
Qed.

Lemma queue_Queues_enter (t : tid) (c : cid) (l : lid) (p : Pc) (s : State) :
  sched s t = READY -> Queues s -> Queues (Condition_enter t c l p s).
Proof.
  intros Hs Q. unfold Condition_enter. cbv zeta.
  pose proof (queue_Queues_bind c l s Q) as B.
  assert (Hb : sched (bind c l s) t = READY).
  { unfold bind. destruct (firstLock (conds s c)); exact Hs. }
  destruct (negb (bound_to c l (bind c l s))); [apply queue_Queues_halt; exact B|].
  destruct (negb (isHeldByCurrentThread t (locks (bind c l s) l)));
    [apply queue_Queues_halt; exact B|].
  apply queue_Queues_set_pc; assumption.
Qed.

Lemma queue_Queues_Acquire_loop (t : tid) (l : lid) (s : State) :
  sched s t = READY -> Queues s -> Queues (Acquire_loop t l s).
Proof.
  intros Hs Q. destruct (queue_ready_not_queued s t Q Hs) as [NL NC].
  unfold Acquire_loop. cbv zeta.
  destruct (mutex (locks s l) =? 0)%Z; unfold Sleep; queues.
Qed.

Lemma queue_Queues_Release_body (l : lid) (s : State) :
  Queues s -> Queues (Release_body l s).
Proof.
  intros Q. unfold Release_body.
  pose proof (lock_queue_once s Q l) as N.
  assert (M : forall u, In u (queue (locks s l)) ->
                sched s u = BLOCKED /\ pc s u = AcquireLoop l).
  { intros u Hu. split; [eapply lock_queue_asleep | eapply lock_queue_pc]; eauto. }
  destruct (queue (locks s l)) as [|w q] eqn:Hq0; cbn.
  - queues.
  - inversion N as [|? ? Nw Nq]; subst.
    destruct (M w (or_introl eq_refl)) as [Mw Pw].
    unfold ReadyToRun. queues; try (apply M; auto).
Qed.

Lemma queue_Queues_Signal_body (t : tid) (c : cid) (s : State) :
  sched s t = READY -> Queues s -> Queues (Signal_body t c s).
Proof.
  intros Hs Q. unfold Signal_body.
  destruct (queue_ready_not_queued s t Q Hs) as [NL NC].
  pose proof (cond_queue_once s Q c) as N.
  assert (M : forall u, In u (cond_queue (conds s c)) ->
                sched s u = BLOCKED /\ in_Wait (pc s u) = true /\
                forall c', In u (cond_queue (conds s c')) -> c' = c).
  { intros u Hu. split; [|split].
    - eapply cond_queue_asleep; eauto.
    - eapply cond_queue_pc; eauto.
    - intros c' Hc. eapply one_condition; eauto. }
  destruct (cond_queue (conds s c)) as [|w q] eqn:Hq0; cbn.
  - queues.
  - inversion N as [|? ? Nw Nq]; subst.
    destruct (M w (or_introl eq_refl)) as (Mw & Pw & Cw).
    unfold ReadyToRun. queues; try (apply M; auto).
    all: try solve [exfalso;
      match goal with
      | C : forall c', In ?w _ -> c' = _, H : In ?w (cond_queue (conds _ _)) |- _ =>
        apply C in H; congruence
      end].
    all: try solve [exfalso;
      match goal with
      | NC' : forall c, ~ In ?t (cond_queue (conds _ c)), E : cond_queue (conds _ ?c) = _
        |- _ => apply (NC' c); rewrite E; cbn; auto
      end].
    all: try solve [
      match goal with
      | M' : forall u, _ \/ In u ?q' -> _, H : In ?u ?q' |- _ =>
        destruct (M' u (or_intror H)) as (_ & _ & K);
        (first [apply K | symmetry; apply K]); assumption
      end].
Qed.

Lemma queue_Queues_Broadcast_body (t : tid) (c : cid) (s : State) :
  sched s t = READY -> Queues s -> Queues (Broadcast_body t c s).
Proof.
  intros Hs Q. unfold Broadcast_body.
  destruct (queue_ready_not_queued s t Q Hs) as [NL NC].
  assert (W : forall u, sched s u = BLOCKED ->
                (forall c', In u (cond_queue (conds s c')) -> c' <> c) ->
                wake_all (cond_queue (conds s c)) (sched s) u = BLOCKED).
  { intros u Hu Hn. rewrite queue_wake_all_other; [exact Hu|].
    intros K. exact (Hn c K eq_refl). }
  queues; try constructor.
  - apply W; [assumption|]. intros c' K.
    pose proof (cond_queue_pc s Q _ _ K) as P. rewrite H1 in P. discriminate.
  - apply W; [assumption|]. intros c' K.
    pose proof (one_condition s Q _ _ _ H K). congruence.
Qed.

Lemma queue_Queues_Wait_body (t : tid) (c : cid) (l : lid) (s : State) :
  sched s t = READY -> pc s t = WaitBody c l ->
  isHeldByCurrentThread t (locks s l) = true ->
  Queues s -> Queues (Wait_body t c l s).
Proof.
  intros Hs Hpc Hh Q. unfold Wait_body. cbv zeta. cbn [locks set_cond].
  rewrite Hh. cbn [negb].
  destruct (queue_ready_not_queued s t Q Hs) as [NL NC].
  unfold Release_body. cbn [locks set_holds set_cond].
  pose proof (lock_queue_once s Q l) as N.
  assert (M : forall u, In u (queue (locks s l)) ->
                sched s u = BLOCKED /\ pc s u = AcquireLoop l).
  { intros u Hu. split; [eapply lock_queue_asleep | eapply lock_queue_pc]; eauto. }
  destruct (queue (locks s l)) as [|w q] eqn:Hq0; cbn.
  - unfold Sleep. queues.
  - inversion N as [|? ? Nw Nq]; subst.
    destruct (M w (or_introl eq_refl)) as [Mw Pw].
    unfold Sleep, ReadyToRun. queues; try (apply M; auto).
    exfalso. apply (NL l). rewrite Hq0. right. assumption.
Qed.

Lemma queue_Queues_step (e : Event) (s : State) :
  Inv s -> Use s -> Queues s -> Queues (step e s).
Proof.
  intros I U Q. unfold step.
  destruct (halted s); [assumption|].
  destruct e as [t op|t]; destruct (sched s t) eqn:Hs; try assumption.
  - destruct (pc s t) eqn:Hpc; try assumption.
    destruct op; cbn; auto using queue_Queues_enter.
    + unfold Acquire_enter. destruct (isHeldByCurrentThread t (locks s l));
        auto using queue_Queues_set_pc, queue_Queues_halt.
    + destruct (isHeldByCurrentThread t (locks s l)); auto using queue_Queues_halt.
      queues.
  - unfold run_thread. destruct (pc s t) eqn:Hpc; try assumption.
    + apply queue_Queues_Acquire_loop; assumption.
    + apply queue_Queues_set_pc.
      * apply queue_Release_body_ready. exact Hs.
      * apply queue_Queues_Release_body. exact Q.
    + apply queue_Queues_Wait_body; try assumption.
      apply queue_isHeld. apply (holder_owns s I).
      exact (waiting_holds s U t c l Hpc).
    + unfold Wait_woken.
      destruct (isHeldByCurrentThread t (locks s l)); [apply queue_Queues_halt; exact Q|].
      apply queue_Queues_Acquire_loop; assumption.
    + apply queue_Queues_Signal_body; assumption.
    + apply queue_Queues_Broadcast_body; assumption.
Qed.

(** *** The lock word *)

(** [mutex] is 0 or 1, and 0 only while [heldByThread] names a thread. *)
Record Word (s : State) : Prop := mkWord {
  mutex_binary : forall l, mutex (locks s l) = 0%Z \/ mutex (locks s l) = 1%Z;
  taken_owned : forall l, mutex (locks s l) = 0%Z -> heldByThread (locks s l) <> None
}.

Lemma queue_Word_init : Word init.
Proof.
  split; cbn; intros; [auto | discriminate].
Qed.

Ltac word :=
  split; cbn; unfold upd; intros; eqb_cases; cbn in *;
  eauto using mutex_binary, taken_owned; try congruence.

Lemma queue_Word_step (e : Event) (s : State) : Word s -> Word (step e s).
Proof.
  intros W. unfold step.
  destruct (halted s); [assumption|].
  destruct e as [t op|t]; destruct (sched s t) eqn:Hs; try assumption.
  - destruct (pc s t) eqn:Hpc; try assumption.
    destruct op; cbn; unfold Acquire_enter, Condition_enter, bind, bound_to;
      repeat match goal with
             | |- context [match firstLock ?C with _ => _ end] =>
               destruct (firstLock C) eqn:?; cbn
             | |- context [if ?b then _ else _] => destruct b; cbn
             end; word.
  - unfold run_thread.
    destruct (pc s t);
      unfold Acquire_loop, Release_body, Wait_body, Wait_woken, Acquire_loop,
        Release_body, Signal_body, Broadcast_body; cbn;
      repeat match goal with
             | |- context [if ?b then _ else _] => destruct b; cbn
             | |- context [let (_, _) := ?x in _] => destruct x; cbn
             end; word.
Qed.

(** *** One lock per condition *)

(** A thread about to wait, or waiting, on a condition passed the lock
    the condition is bound to. *)
Record Bound (s : State) : Prop := mkBound {
  bound_body : forall t c l,
    pc s t = WaitBody c l -> firstLock (conds s c) = Some l;
  bound_queue : forall t c l,
    In t (cond_queue (conds s c)) -> pc s t = WaitWoken l ->
    firstLock (conds s c) = Some l
}.

Lemma queue_Bound_init : Bound init.
Proof.
  split; cbn; intros; [discriminate | contradiction].
Qed.

Ltac bound_facts :=
  repeat match goal with
  | H : In _ (Append _ _) |- _ => apply queue_In_Append in H; destruct H as [H|H]; subst
  | B : Bound ?s, H : pc ?s ?t = WaitBody ?c ?l |- _ => note (bound_body s B t c l H)
  | B : Bound ?s, H : In ?t (cond_queue (conds ?s ?c)), H' : pc ?s ?t = WaitWoken ?l
    |- _ => note (bound_queue s B t c l H H')
  end.

Ltac bound :=
  split; cbn; unfold upd; intros; eqb_cases; cbn in *; bound_facts;
  try congruence; try contradiction; eauto;
  try solve [exfalso;
    match goal with N : forall x, ~ In ?t _, H : In ?t _ |- _ => exact (N _ H) end].

Lemma queue_Bound_halt (s : State) : Bound s -> Bound (halt s).
Proof.
  intros B. destruct B. split; assumption.
Qed.

Lemma queue_Bound_bind (c : cid) (l : lid) (s : State) : Bound s -> Bound (bind c l s).
Proof.
  intros B. unfold bind.
  destruct (firstLock (conds s c)) eqn:F; [exact B|]. bound.
Qed.

Lemma queue_Bound_enter (t : tid) (c : cid) (l : lid) (p : Pc) (s : State) :
  sched s t = READY -> Queues s -> Bound s ->
  (forall c' l', p = WaitBody c' l' -> c' = c /\ l' = l) ->
  (forall l', p <> WaitWoken l') ->
  Bound (Condition_enter t c l p s).
Proof.
  intros Hs Q B Hp Hw. unfold Condition_enter. cbv zeta.
  pose proof (queue_Bound_bind c l s B) as B1.
  destruct (negb (bound_to c l (bind c l s))) eqn:Hb; [apply queue_Bound_halt; exact B1|].
  destruct (negb (isHeldByCurrentThread t (locks (bind c l s) l)));
    [apply queue_Bound_halt; exact B1|].
  apply negb_false_iff in Hb. unfold bound_to in Hb.
  destruct (firstLock (conds (bind c l s) c)) as [l0|] eqn:F; [|discriminate].
  apply Nat.eqb_eq in Hb. subst l0.
  split; cbn; unfold upd; intros u c1 l1; destruct (Nat.eqb_spec u t) as [E|E].
  - intros P. destruct (Hp c1 l1 P) as [-> ->]. exact F.
  - apply (bound_body _ B1).
  - intros _ P. destruct (Hw l1 P).
  - apply (bound_queue _ B1).
Qed.

Lemma queue_Bound_step (e : Event) (s : State) :
  Queues s -> Bound s -> Bound (step e s).
Proof.
  intros Q B. unfold step.
  destruct (halted s); [assumption|].
  destruct e as [t op|t]; destruct (sched s t) eqn:Hs; try assumption.
  - destruct (pc s t) eqn:Hpc; try assumption.
    destruct (queue_ready_not_queued s t Q Hs) as [NL NC].
    destruct op; cbn.
    + unfold Acquire_enter.
      destruct (isHeldByCurrentThread t (locks s l)); [apply queue_Bound_halt; exact B|].
      bound.
    + destruct (isHeldByCurrentThread t (locks s l)); [|apply queue_Bound_halt; exact B].
      bound.
    + apply queue_Bound_enter; auto; [intros c' l' E; inversion E; auto | discriminate].
    + apply queue_Bound_enter; auto; [discriminate | discriminate].
    + apply queue_Bound_enter; auto; [discriminate | discriminate].
  - destruct (queue_ready_not_queued s t Q Hs) as [NL NC].
    unfold run_thread. destruct (pc s t) eqn:Hpc; try assumption.
    + unfold Acquire_loop. destruct (mutex (locks s l) =? 0)%Z; bound.
    + unfold Release_body.
      destruct (Remove (queue (locks s l))) as [thread q]. bound.
    + unfold Wait_body, Release_body. cbn.
      destruct (isHeldByCurrentThread t (locks s l)) eqn:Hh; cbn.
      * destruct (Remove (queue (locks s l))) as [thread q]. bound.
      * bound.
    + unfold Wait_woken.
      destruct (isHeldByCurrentThread t (locks s l)) eqn:Hh; cbn;
        [apply queue_Bound_halt; exact B|].
      unfold Acquire_loop. destruct (mutex (locks s l) =? 0)%Z; bound.
    + unfold Signal_body.
      destruct (cond_queue (conds s c)) as [|w q] eqn:Hq; cbn; bound.
      apply (bound_queue s B t0 c l); [rewrite Hq; right; assumption | assumption].
    + unfold Broadcast_body. bound.
Qed.

(** *** Reachable states *)

Record Sound (s : State) : Prop := mkSound {
  sound_lock : Inv s;
  sound_use : Use s;
  sound_sleepers : sleeper_queued s;
  sound_queues : Queues s;
  sound_word : Word s;
  sound_bound : Bound s
}.

Lemma queue_Sound_run (es : list Event) :
  forall s, Sound s -> Sound (run es s).
Proof.
  induction es as [|e es IH]; intros s S; cbn; [assumption|].
  apply IH. destruct S as [I U A Q W B]. split.
  - apply queue_Inv_step; assumption.
  - apply queue_Use_step; assumption.
  - apply queue_sleeper_queued_step; assumption.
  - apply queue_Queues_step; assumption.
  - apply queue_Word_step; assumption.
  - apply queue_Bound_step; assumption.
Qed.

Lemma queue_Sound_reachable (es : list Event) : Sound (run es init).
Proof.
  apply queue_Sound_run. split.
  - exact queue_Inv_init.
  - exact queue_Use_init.
  - exact queue_sleeper_queued_init.
  - exact queue_Queues_init.
  - exact queue_Word_init.
  - exact queue_Bound_init.
Qed.


(** *** The ASSERTs at the head of the operations *)

Lemma queue_isHeld_is_holds (s : State) (t : tid) (l : lid) :
  Sound s -> pc s t = User ->
  isHeldByCurrentThread t (locks s l) = holds s t l.
Proof.
  intros [I U _ _ _ _] Hpc.
  destruct (holds s t l) eqn:Hh.
  - apply queue_isHeld. exact (holder_owns s I t l Hh).
  - destruct (isHeldByCurrentThread t (locks s l)) eqn:Hi; [|reflexivity].
    apply queue_isHeld in Hi.
    destruct (held_known s U t l Hi); congruence.
Qed.

(** X1: What a thread is about to do wrong is caught when it calls: in every
    state the machine can reach, [isHeldByCurrentThread] answers whether
    the calling thread acquired the lock and has not released it since;
    so [Acquire] on a lock the caller holds aborts and on any other lock
    does not, [Release] aborts exactly when the caller does not hold the
    lock, and [Wait], [Signal] and [Broadcast] abort exactly when the
    caller does not hold the lock it passes or the condition is bound to
    another lock. *)
Theorem queue_misuse_aborts (es : list Event) (t : tid) (l : lid) (c : cid) :
  let s := run es init in
  halted s = false -> sched s t = READY -> pc s t = User ->
  isHeldByCurrentThread t (locks s l) = holds s t l /\
  halted (step (Call t (Acquire l)) s) = holds s t l /\
  halted (step (Call t (Release l)) s) = negb (holds s t l) /\
  (forall op, In op [Wait c l; Signal c l; Broadcast c l] ->
     halted (step (Call t op) s) =
       negb (holds s t l) ||
       match firstLock (conds s c) with
       | Some l0 => negb (Nat.eqb l0 l)
       | None => false
       end).
Proof.
  cbv zeta. set (s := run es init). intros Hh Hs Hpc.
  pose proof (queue_isHeld_is_holds s t l (queue_Sound_reachable es) Hpc) as E.
  split; [exact E|].
  unfold step. rewrite Hh, Hs, Hpc. cbn. unfold Acquire_enter.
  split; [|split].
  - rewrite E. destruct (holds s t l); cbn; [reflexivity | exact Hh].
  - rewrite E. destruct (holds s t l); cbn; [exact Hh | reflexivity].
  - assert (C : forall next,
      halted (Condition_enter t c l next s) =
        negb (holds s t l) ||
        match firstLock (conds s c) with
        | Some l0 => negb (Nat.eqb l0 l)
        | None => false
        end).
    { intros next. unfold Condition_enter, bind, bound_to.
      destruct (firstLock (conds s c)) as [l0|] eqn:F; cbn.
      - rewrite F, E. destruct (Nat.eqb l0 l); destruct (holds s t l); cbn;
          try reflexivity; exact Hh.
      - unfold upd. rewrite Nat.eqb_refl. cbn. rewrite Nat.eqb_refl. cbn.
        rewrite E. destruct (holds s t l); cbn; [exact Hh | reflexivity]. }
    intros op [<-|[<-|[<-|[]]]]; cbn; apply C.
Qed.

Definition lock_taken_then_waiting : list Event :=
  [Call 1 (Acquire 0); Run 1; Call 2 (Acquire 0); Run 2].

Lemma queue_misuse_aborts_witness :
  let s := run lock_taken_then_waiting init in
  isHeldByCurrentThread 1 (locks s 0) = holds s 1 0 /\
  halted (step (Call 1 (Acquire 0)) s) = holds s 1 0 /\
  halted (step (Call 1 (Release 0)) s) = negb (holds s 1 0) /\
  (forall op, In op [Wait 0 0; Signal 0 0; Broadcast 0 0] ->
     halted (step (Call 1 op) s) =
       negb (holds s 1 0) ||
       match firstLock (conds s 0) with
       | Some l0 => negb (Nat.eqb l0 0)
       | None => false
       end).
Proof.
  assert (H1 : halted (run lock_taken_then_waiting init) = false) by reflexivity.
  assert (H2 : sched (run lock_taken_then_waiting init) 1 = READY) by reflexivity.
  assert (H3 : pc (run lock_taken_then_waiting init) 1 = User) by reflexivity.
  exact (queue_misuse_aborts lock_taken_then_waiting 1 0 0 H1 H2 H3).
Defined.


(** *** Who sleeps where *)

(** X2: In every state the machine can reach, the wait queues hold exactly the
    sleeping threads: a thread is asleep if and only if it is on the queue
    of a lock or of a condition; a thread on the queue of a lock is in the
    loop of [Acquire] on that lock, a thread on the queue of a condition
    is inside [Wait]; no queue holds a thread twice and no thread is on
    the queues of two conditions. *)
Theorem queue_wait_queues_hold_the_sleepers (es : list Event) (t : tid) :
  let s := run es init in
  (sched s t = BLOCKED <->
   (exists l, In t (queue (locks s l))) \/
   (exists c, In t (cond_queue (conds s c)))) /\
  (forall l, In t (queue (locks s l)) -> pc s t = AcquireLoop l) /\
  (forall c, In t (cond_queue (conds s c)) -> exists l, pc s t = WaitWoken l) /\
  (forall l, NoDup (queue (locks s l))) /\
  (forall c, NoDup (cond_queue (conds s c))) /\
  (forall c c', In t (cond_queue (conds s c)) ->
     In t (cond_queue (conds s c')) -> c = c').
Proof.
  cbv zeta. destruct (queue_Sound_reachable es) as [_ _ A Q _ _].
  set (s := run es init) in *.
  split; [split|split; [|split; [|split; [|split]]]].
  - intros B. destruct (A t B) as [(l & _ & H)|(l & c & _ & H)]; eauto.
  - intros [(l & H)|(c & H)].
    + exact (lock_queue_asleep s Q t l H).
    + exact (cond_queue_asleep s Q t c H).
  - intros l H. exact (lock_queue_pc s Q t l H).
  - intros c H. pose proof (cond_queue_pc s Q t c H) as P.
    destruct (pc s t); try discriminate. eauto.
  - exact (lock_queue_once s Q).
  - exact (cond_queue_once s Q).
  - exact (one_condition s Q t).
Qed.

(** *** [Acquire] and [Release] on a reachable state *)

Ltac run_at Hh Hs Hpc :=
  unfold step; rewrite Hh, Hs; unfold run_thread; rewrite Hpc.

(** X3: A thread at the loop test of [Acquire] does not hold the lock and its
    step never aborts.  It takes the lock exactly when no thread holds it
    and no [Release] of it is under way; otherwise it goes to sleep at the
    end of the queue of the lock. *)
Theorem queue_Acquire_takes_a_free_lock (es : list Event) (t : tid) (l : lid) :
  let s := run es init in
  let s' := step (Run t) s in
  halted s = false -> sched s t = READY -> pc s t = AcquireLoop l ->
  holds s t l = false /\ halted s' = false /\
  ((forall u, holds s u l = false /\ pc s u <> ReleaseBody l) ->
   pc s' t = User /\ holds s' t l = true /\ sched s' t = READY /\
   heldByThread (locks s' l) = Some t /\ queue (locks s' l) = queue (locks s l)) /\
  ((exists u, holds s u l = true \/ pc s u = ReleaseBody l) ->
   pc s' t = AcquireLoop l /\ holds s' t l = false /\ sched s' t = BLOCKED /\
   heldByThread (locks s' l) = heldByThread (locks s l) /\
   queue (locks s' l) = queue (locks s l) ++ [t]).
Proof.
  cbv zeta. destruct (queue_Sound_reachable es) as [I U _ _ W _].
  set (s := run es init) in *. intros Hh Hs Hpc.
  split; [exact (acquiring_free s U t l Hpc)|].
  run_at Hh Hs Hpc. unfold Acquire_loop.
  destruct (mutex (locks s l) =? 0)%Z eqn:Hm; cbn; unfold upd, Sleep, upd;
    rewrite ?Nat.eqb_refl; cbn; rewrite ?Nat.eqb_refl; cbn.
  - apply Z.eqb_eq in Hm. split; [exact Hh|]. split.
    + intros F. exfalso.
      destruct (heldByThread (locks s l)) as [u|] eqn:Hu.
      * destruct (F u) as [F1 F2].
        destruct (held_known s U u l Hu); congruence.
      * exact (taken_owned s W l Hm Hu).
    + intros _. repeat split; try reflexivity.
      exact (acquiring_free s U t l Hpc).
  - apply Z.eqb_neq in Hm. split; [exact Hh|]. split.
    + intros _. repeat split; try reflexivity. exact Hs.
    + intros (u & [Hu|Hu]); exfalso; apply Hm.
      * exact (owned_taken s I u l (holder_owns s I u l Hu)).
      * exact (owned_taken s I u l (releaser_owns s I u l Hu)).
Qed.

(** X4: The step of [Release] never aborts: it leaves the lock free, held by
    nobody, and makes the longest-waiting thread of its queue, which was
    asleep in [Acquire], ready, and no other thread. *)
Theorem queue_Release_wakes_first_waiter (es : list Event) (t : tid) (l : lid) :
  let s := run es init in
  let s' := step (Run t) s in
  halted s = false -> sched s t = READY -> pc s t = ReleaseBody l ->
  halted s' = false /\ pc s' t = User /\
  mutex (locks s' l) = 1%Z /\ heldByThread (locks s' l) = None /\
  (forall u, holds s' u l = false) /\
  match queue (locks s l) with
  | [] => queue (locks s' l) = [] /\ sched s' = sched s
  | w :: q =>
    sched s w = BLOCKED /\ pc s w = AcquireLoop l /\
    sched s' w = READY /\ queue (locks s' l) = q /\
    (forall u, u <> w -> sched s' u = sched s u)
  end.
Proof.
  cbv zeta. pose proof (queue_Sound_reachable (es ++ [Run t])) as S'.
  destruct (queue_Sound_reachable es) as [I U _ Q _ _].
  unfold run in S'. rewrite fold_left_app in S'. cbn in S'.
  change (fold_left (fun s e => step e s) es init) with (run es init) in S'.
  set (s := run es init) in *. intros Hh Hs Hpc.
  assert (N : heldByThread (locks (step (Run t) s) l) = None ->
              forall u, holds (step (Run t) s) u l = false).
  { intros E u. destruct (holds (step (Run t) s) u l) eqn:Hu; [|reflexivity].
    pose proof (holder_owns _ (sound_lock _ S') u l Hu). congruence. }
  revert N. clear S'. run_at Hh Hs Hpc. unfold Release_body.
  pose proof (lock_queue_asleep s Q) as QA. pose proof (lock_queue_pc s Q) as QP.
  destruct (queue (locks s l)) as [|w q] eqn:Hq; cbn; unfold upd;
    rewrite ?Nat.eqb_refl; cbn; intros N.
  - repeat split; auto.
  - assert (Hw : In w (queue (locks s l))) by (rewrite Hq; left; reflexivity).
    repeat split; eauto.
    + unfold ReadyToRun, upd. rewrite Nat.eqb_refl. reflexivity.
    + intros u Hu. unfold ReadyToRun, upd.
      destruct (Nat.eqb_spec u w); [contradiction | reflexivity].
Qed.


(** *** The condition on a reachable state *)

(** X5: The body of [Wait] never aborts (the caller still holds the lock, so
    the ASSERT of the [Release] inside passes).  In one step, with
    interrupts off, it puts the caller at the end of the queue of the
    condition, frees the lock, makes the first thread waiting for the lock
    ready, and puts the caller to sleep. *)
Theorem queue_Wait_releases_and_sleeps
  (es : list Event) (t : tid) (c : cid) (l : lid) :
  let s := run es init in
  let s' := step (Run t) s in
  halted s = false -> sched s t = READY -> pc s t = WaitBody c l ->
  holds s t l = true /\ halted s' = false /\
  pc s' t = WaitWoken l /\ sched s' t = BLOCKED /\
  cond_queue (conds s' c) = cond_queue (conds s c) ++ [t] /\
  holds s' t l = false /\
  mutex (locks s' l) = 1%Z /\ heldByThread (locks s' l) = None /\
  match queue (locks s l) with
  | [] => queue (locks s' l) = []
  | w :: q => sched s' w = READY /\ queue (locks s' l) = q
  end.
Proof.
  cbv zeta. destruct (queue_Sound_reachable es) as [I U _ Q _ _].
  set (s := run es init) in *. intros Hh Hs Hpc.
  pose proof (waiting_holds s U t c l Hpc) as Hl.
  assert (Hi : isHeldByCurrentThread t (locks s l) = true).
  { apply queue_isHeld. exact (holder_owns s I t l Hl). }
  destruct (queue_ready_not_queued s t Q Hs) as [NL _].
  split; [exact Hl|].
  run_at Hh Hs Hpc. unfold Wait_body. cbv zeta. cbn [locks set_cond].
  rewrite Hi. cbn [negb]. unfold Release_body. cbn [locks set_holds set_cond].
  destruct (queue (locks s l)) as [|w q] eqn:Hq; cbn; unfold upd, Sleep, upd;
    rewrite ?Nat.eqb_refl; cbn; rewrite ?Nat.eqb_refl; cbn.
  - repeat split; auto.
  - repeat split; auto.
    destruct (Nat.eqb_spec w t) as [E|E].
    + exfalso. apply (NL l). rewrite Hq. left. exact E.
    + unfold ReadyToRun, upd. rewrite Nat.eqb_refl. reflexivity.
Qed.

(** X6: A thread that went to sleep inside [Wait] does not hold the lock; it
    sleeps exactly as long as it is on the queue of a condition; once
    woken, its step does not abort, and when it is back outside the
    primitives it holds the lock again. *)
Theorem queue_Wait_returns_with_the_lock (es : list Event) (t : tid) (l : lid) :
  let s := run es init in
  let s' := step (Run t) s in
  halted s = false -> pc s t = WaitWoken l ->
  holds s t l = false /\
  (sched s t = BLOCKED <-> exists c, In t (cond_queue (conds s c))) /\
  halted s' = false /\
  (pc s' t = User ->
   holds s' t l = true /\ heldByThread (locks s' l) = Some t) /\
  (pc s' t = User \/ pc s' t = AcquireLoop l \/ pc s' t = WaitWoken l).
Proof.
  cbv zeta. destruct (queue_Sound_reachable es) as [I U A Q _ _].
  set (s := run es init) in *. intros Hh Hpc.
  pose proof (woken_free s U t l Hpc) as Hl.
  assert (Hi : isHeldByCurrentThread t (locks s l) = false).
  { destruct (isHeldByCurrentThread t (locks s l)) eqn:Hi; [|reflexivity].
    apply queue_isHeld in Hi. destruct (held_known s U t l Hi); congruence. }
  split; [exact Hl|]. split.
  { split.
    - intros B. destruct (A t B) as [(l' & P & _)|(l' & c & _ & H)];
        [congruence | eauto].
    - intros (c & H). exact (cond_queue_asleep s Q t c H). }
  unfold step. rewrite Hh. destruct (sched s t) eqn:Hs.
  - unfold run_thread. rewrite Hpc. unfold Wait_woken. rewrite Hi.
    unfold Acquire_loop.
    destruct (mutex (locks s l) =? 0)%Z; cbn; unfold upd;
      rewrite ?Nat.eqb_refl; cbn; rewrite ?Nat.eqb_refl; cbn.
    + split; [exact Hh|]. split; [discriminate | auto].
    + split; [exact Hh|]. split; auto.
  - split; [exact Hh|]. rewrite Hpc. split; [discriminate | auto].
Qed.

(** X7: [Signal] never aborts in its body.  It makes the longest-waiting
    thread of the condition, which was asleep inside [Wait], ready, takes
    it off the queue, and wakes no other thread; on a condition nobody
    waits on it changes nothing that a later [Wait] could see. *)
Theorem queue_Signal_wakes_longest_waiter (es : list Event) (t : tid) (c : cid) :
  let s := run es init in
  let s' := step (Run t) s in
  halted s = false -> sched s t = READY -> pc s t = SignalBody c ->
  halted s' = false /\ pc s' t = User /\
  locks s' = locks s /\ holds s' = holds s /\
  firstLock (conds s' c) = firstLock (conds s c) /\
  match cond_queue (conds s c) with
  | [] => cond_queue (conds s' c) = [] /\ sched s' = sched s
  | w :: q =>
    sched s w = BLOCKED /\ (exists l, pc s w = WaitWoken l) /\
    sched s' w = READY /\ cond_queue (conds s' c) = q /\
    (forall u, u <> w -> sched s' u = sched s u)
  end.
Proof.
  cbv zeta. destruct (queue_Sound_reachable es) as [I U _ Q _ _].
  set (s := run es init) in *. intros Hh Hs Hpc.
  run_at Hh Hs Hpc. unfold Signal_body.
  pose proof (cond_queue_asleep s Q) as QA. pose proof (cond_queue_pc s Q) as QP.
  destruct (cond_queue (conds s c)) as [|w q] eqn:Hq; cbn; unfold upd;
    rewrite ?Nat.eqb_refl; cbn.
  - repeat split; auto.
  - assert (Hw : In w (cond_queue (conds s c))) by (rewrite Hq; left; reflexivity).
    repeat split; eauto.
    + specialize (QP w c Hw). destruct (pc s w); try discriminate. eauto.
    + unfold ReadyToRun, upd. rewrite Nat.eqb_refl. reflexivity.
    + intros u Hu. unfold ReadyToRun, upd.
      destruct (Nat.eqb_spec u w); [contradiction | reflexivity].
Qed.

(** X8: [Broadcast] never aborts in its body.  It makes every thread on the
    queue of the condition, each of which was asleep inside [Wait], ready,
    leaves the queue empty, wakes no thread that was not on it and leaves
    the queues of the other conditions as they are. *)
Theorem queue_Broadcast_wakes_every_waiter (es : list Event) (t : tid) (c : cid) :
  let s := run es init in
  let s' := step (Run t) s in
  halted s = false -> sched s t = READY -> pc s t = BroadcastBody c ->
  halted s' = false /\ pc s' t = User /\
  cond_queue (conds s' c) = [] /\
  (forall u, In u (cond_queue (conds s c)) ->
     sched s u = BLOCKED /\ (exists l, pc s u = WaitWoken l) /\
     sched s' u = READY /\ pc s' u = pc s u) /\
  (forall u, ~ In u (cond_queue (conds s c)) -> sched s' u = sched s u) /\
  (forall c', c' <> c -> conds s' c' = conds s c').
Proof.
  cbv zeta. destruct (queue_Sound_reachable es) as [I U _ Q _ _].
  set (s := run es init) in *. intros Hh Hs Hpc.
  destruct (queue_ready_not_queued s t Q Hs) as [_ NC].
  run_at Hh Hs Hpc. unfold Broadcast_body. cbn. unfold upd.
  rewrite !Nat.eqb_refl. cbn.
  split; [exact Hh|]. split; [reflexivity|]. split; [reflexivity|].
  split; [|split].
  - intros u Hu. split; [exact (cond_queue_asleep s Q u c Hu)|]. split.
    + pose proof (cond_queue_pc s Q u c Hu) as P.
      destruct (pc s u); try discriminate. eauto.
    + split; [apply wake_all_wakes; exact Hu|].
      destruct (Nat.eqb_spec u t) as [E|E]; [|reflexivity].
      subst u. destruct (NC c Hu).
  - intros u Hu. apply queue_wake_all_other. exact Hu.
  - intros c' Hc. destruct (Nat.eqb_spec c' c); [contradiction | reflexivity].
Qed.



(** *** The lock of a condition *)

Lemma queue_binding_kept (es : list Event) :
  forall (s : State) (c : cid) (l0 : lid),
    firstLock (conds s c) = Some l0 ->
    firstLock (conds (run es s) c) = Some l0.
Proof.
  induction es as [|e es IH]; intros s c l0 H; cbn; [exact H|].
  apply IH. apply queue_binding_is_permanent. exact H.
Qed.

Lemma queue_run_app (es es' : list Event) (s : State) :
  run es' (run es s) = run (es ++ es') s.
Proof.
  unfold run. rewrite fold_left_app. reflexivity.
Qed.

(** X9: Once a condition is bound to a lock it stays bound to that lock for
    good; every thread on its queue went to sleep with that lock; and any
    later [Wait], [Signal] or [Broadcast] on it with another lock
    aborts. *)
Theorem queue_Condition_is_bound_to_one_lock
  (es es' : list Event) (c : cid) (l0 : lid) :
  let s := run es init in
  let s' := run es' s in
  firstLock (conds s c) = Some l0 ->
  firstLock (conds s' c) = Some l0 /\
  (forall t l, In t (cond_queue (conds s' c)) -> pc s' t = WaitWoken l -> l = l0) /\
  (forall t l op, l <> l0 ->
     In op [Wait c l; Signal c l; Broadcast c l] ->
     halted s' = false -> sched s' t = READY -> pc s' t = User ->
     halted (step (Call t op) s') = true).
Proof.
  cbv zeta. intros F.
  pose proof (queue_binding_kept es' _ c l0 F) as F'.
  rewrite queue_run_app in *.
  destruct (queue_Sound_reachable (es ++ es')) as [_ _ _ _ _ B].
  set (s' := run (es ++ es') init) in *.
  split; [exact F'|]. split.
  - intros t l Ht Hp. pose proof (bound_queue s' B t c l Ht Hp). congruence.
  - intros t l op Hne Hop Hh Hs Hpc. unfold step. rewrite Hh, Hs, Hpc.
    destruct Hop as [<-|[<-|[<-|[]]]]; cbn;
      apply queue_Condition_rejects_other_lock with (l0 := l0); assumption.
Qed.

(** X10: Nobody waits on a condition that is not bound to a lock yet; the
    first [Wait], [Signal] or [Broadcast] on it by a thread that holds
    the lock it passes does not abort and binds the condition to that
    lock. *)
Theorem queue_Condition_first_use_binds
  (es : list Event) (t : tid) (c : cid) (l : lid) :
  let s := run es init in
  firstLock (conds s c) = None ->
  halted s = false -> sched s t = READY -> pc s t = User ->
  holds s t l = true ->
  cond_queue (conds s c) = [] /\
  (forall op, In op [Wait c l; Signal c l; Broadcast c l] ->
     halted (step (Call t op) s) = false /\
     firstLock (conds (step (Call t op) s) c) = Some l /\
     pc (step (Call t op) s) t <> User).
Proof.
  cbv zeta. destruct (queue_Sound_reachable es) as [I _ _ Q _ B].
  set (s := run es init) in *. intros F Hh Hs Hpc Hl.
  split.
  - destruct (cond_queue (conds s c)) as [|w q] eqn:Hq; [reflexivity|].
    assert (Hw : In w (cond_queue (conds s c))) by (rewrite Hq; left; reflexivity).
    pose proof (cond_queue_pc s Q w c Hw) as P.
    destruct (pc s w) eqn:Pw; try discriminate.
    pose proof (bound_queue s B w c l0 Hw Pw). congruence.
  - assert (Hi : isHeldByCurrentThread t (locks s l) = true).
    { apply queue_isHeld. exact (holder_owns s I t l Hl). }
    assert (C : forall next, next <> User ->
      halted (Condition_enter t c l next s) = false /\
      firstLock (conds (Condition_enter t c l next s) c) = Some l /\
      pc (Condition_enter t c l next s) t <> User).
    { intros next Hn. unfold Condition_enter, bind, bound_to. rewrite F. cbn.
      unfold upd. rewrite !Nat.eqb_refl. cbn. rewrite Nat.eqb_refl, Hi. cbn.
      unfold upd. rewrite !Nat.eqb_refl. cbn. auto. }
    intros op Hop. unfold step. rewrite Hh, Hs, Hpc.
    destruct Hop as [<-|[<-|[<-|[]]]]; cbn; apply C; discriminate.
Qed.


(** *** The theorems at work *)

Definition lock_taken : list Event := [Call 1 (Acquire 0); Run 1].

Definition waiting : list Event := lock_taken ++ [Call 1 (Wait 0 0); Run 1].

Definition signaller_in : list Event :=
  waiting ++ [Call 2 (Acquire 0); Run 2].

Lemma queue_Acquire_takes_a_free_lock_witness :
  let s := run [Call 1 (Acquire 0)] init in
  (halted s = false /\ sched s 1 = READY /\ pc s 1 = AcquireLoop 0) /\
  holds s 1 0 = false /\ halted (step (Run 1) s) = false.
Proof.
  assert (H1 : halted (run [Call 1 (Acquire 0)] init) = false) by reflexivity.
  assert (H2 : sched (run [Call 1 (Acquire 0)] init) 1 = READY) by reflexivity.
  assert (H3 : pc (run [Call 1 (Acquire 0)] init) 1 = AcquireLoop 0) by reflexivity.
  pose proof (queue_Acquire_takes_a_free_lock [Call 1 (Acquire 0)] 1 0 H1 H2 H3)
    as (A & B & _).
  exact (conj (conj H1 (conj H2 H3)) (conj A B)).
Defined.

Lemma queue_Release_wakes_first_waiter_witness :
  let s := run (lock_taken_then_waiting ++ [Call 1 (Release 0)]) init in
  (halted s = false /\ sched s 1 = READY /\ pc s 1 = ReleaseBody 0) /\
  queue (locks s 0) = [2] /\
  halted (step (Run 1) s) = false /\ pc (step (Run 1) s) 1 = User.
Proof.
  assert (H1 : halted (run (lock_taken_then_waiting ++ [Call 1 (Release 0)]) init)
               = false) by reflexivity.
  assert (H2 : sched (run (lock_taken_then_waiting ++ [Call 1 (Release 0)]) init) 1
               = READY) by reflexivity.
  assert (H3 : pc (run (lock_taken_then_waiting ++ [Call 1 (Release 0)]) init) 1
               = ReleaseBody 0) by reflexivity.
  pose proof (queue_Release_wakes_first_waiter
                (lock_taken_then_waiting ++ [Call 1 (Release 0)]) 1 0 H1 H2 H3)
    as (A & B & _).
  exact (conj (conj H1 (conj H2 H3)) (conj eq_refl (conj A B))).
Defined.

Lemma queue_Wait_releases_and_sleeps_witness :
  let s := run (lock_taken ++ [Call 1 (Wait 0 0)]) init in
  (halted s = false /\ sched s 1 = READY /\ pc s 1 = WaitBody 0 0) /\
  holds s 1 0 = true /\ halted (step (Run 1) s) = false.
Proof.
  assert (H1 : halted (run (lock_taken ++ [Call 1 (Wait 0 0)]) init) = false)
    by reflexivity.
  assert (H2 : sched (run (lock_taken ++ [Call 1 (Wait 0 0)]) init) 1 = READY)
    by reflexivity.
  assert (H3 : pc (run (lock_taken ++ [Call 1 (Wait 0 0)]) init) 1 = WaitBody 0 0)
    by reflexivity.
  pose proof (queue_Wait_releases_and_sleeps
                (lock_taken ++ [Call 1 (Wait 0 0)]) 1 0 0 H1 H2 H3) as (A & B & _).
  exact (conj (conj H1 (conj H2 H3)) (conj A B)).
Defined.

Definition signalled : list Event :=
  signaller_in ++ [Call 2 (Signal 0 0); Run 2; Call 2 (Release 0); Run 2].

Lemma queue_Wait_returns_with_the_lock_witness :
  let s := run signalled init in
  (halted s = false /\ pc s 1 = WaitWoken 0) /\
  sched s 1 = READY /\ pc (step (Run 1) s) 1 = User /\
  holds s 1 0 = false /\ halted (step (Run 1) s) = false.
Proof.
  assert (H1 : halted (run signalled init) = false) by reflexivity.
  assert (H2 : pc (run signalled init) 1 = WaitWoken 0) by reflexivity.
  pose proof (queue_Wait_returns_with_the_lock signalled 1 0 H1 H2) as (A & _ & B & _).
  exact (conj (conj H1 H2) (conj eq_refl (conj eq_refl (conj A B)))).
Defined.

Lemma queue_Signal_wakes_longest_waiter_witness :
  let s := run (signaller_in ++ [Call 2 (Signal 0 0)]) init in
  (halted s = false /\ sched s 2 = READY /\ pc s 2 = SignalBody 0) /\
  cond_queue (conds s 0) = [1] /\
  halted (step (Run 2) s) = false /\ pc (step (Run 2) s) 2 = User.
Proof.
  assert (H1 : halted (run (signaller_in ++ [Call 2 (Signal 0 0)]) init) = false)
    by reflexivity.
  assert (H2 : sched (run (signaller_in ++ [Call 2 (Signal 0 0)]) init) 2 = READY)
    by reflexivity.
  assert (H3 : pc (run (signaller_in ++ [Call 2 (Signal 0 0)]) init) 2 = SignalBody 0)
    by reflexivity.
  pose proof (queue_Signal_wakes_longest_waiter
                (signaller_in ++ [Call 2 (Signal 0 0)]) 2 0 H1 H2 H3) as (A & B & _).
  exact (conj (conj H1 (conj H2 H3)) (conj eq_refl (conj A B))).
Defined.

Lemma queue_Broadcast_wakes_every_waiter_witness :
  let s := run (signaller_in ++ [Call 2 (Broadcast 0 0)]) init in
  (halted s = false /\ sched s 2 = READY /\ pc s 2 = BroadcastBody 0) /\
  cond_queue (conds s 0) = [1] /\
  halted (step (Run 2) s) = false /\ pc (step (Run 2) s) 2 = User.
Proof.
  assert (H1 : halted (run (signaller_in ++ [Call 2 (Broadcast 0 0)]) init) = false)
    by reflexivity.
  assert (H2 : sched (run (signaller_in ++ [Call 2 (Broadcast 0 0)]) init) 2 = READY)
    by reflexivity.
  assert (H3 : pc (run (signaller_in ++ [Call 2 (Broadcast 0 0)]) init) 2
               = BroadcastBody 0) by reflexivity.
  pose proof (queue_Broadcast_wakes_every_waiter
                (signaller_in ++ [Call 2 (Broadcast 0 0)]) 2 0 H1 H2 H3)
    as (A & B & _).
  exact (conj (conj H1 (conj H2 H3)) (conj eq_refl (conj A B))).
Defined.

Lemma queue_Condition_is_bound_to_one_lock_witness :
  firstLock (conds (run (lock_taken ++ [Call 1 (Wait 0 0)]) init) 0) = Some 0 /\
  firstLock (conds (run (lock_taken ++ [Call 1 (Wait 0 0)] ++ [Run 1]) init) 0)
    = Some 0.
Proof.
  assert (H1 : firstLock (conds (run (lock_taken ++ [Call 1 (Wait 0 0)]) init) 0)
               = Some 0) by reflexivity.
  pose proof (queue_Condition_is_bound_to_one_lock
                (lock_taken ++ [Call 1 (Wait 0 0)]) [Run 1] 0 0 H1) as (A & _).
  exact (conj H1 A).
Defined.

Lemma queue_Condition_first_use_binds_witness :
  let s := run lock_taken init in
  (firstLock (conds s 0) = None /\ halted s = false /\ sched s 1 = READY /\
   pc s 1 = User /\ holds s 1 0 = true) /\
  cond_queue (conds s 0) = [].
Proof.
  assert (H0 : firstLock (conds (run lock_taken init) 0) = None) by reflexivity.
  assert (H1 : halted (run lock_taken init) = false) by reflexivity.
  assert (H2 : sched (run lock_taken init) 1 = READY) by reflexivity.
  assert (H3 : pc (run lock_taken init) 1 = User) by reflexivity.
  assert (H4 : holds (run lock_taken init) 1 0 = true) by reflexivity.
  pose proof (queue_Condition_first_use_binds lock_taken 1 0 0 H0 H1 H2 H3 H4)
    as (A & _).
  exact (conj (conj H0 (conj H1 (conj H2 (conj H3 H4)))) A).
Defined.

End QueueDiscipline.

(** ** The semaphore-based primitives in use *)

Module SemDiscipline.
Import Kernel Sem SynchSem.
Local Open Scope nat_scope.

(** *** What the lock knows and what the threads did *)

(** The statements at which a thread is on its way to a lock it does not
    hold: [Acquire] before its [P] returns, and [Wait] after its
    [Release]. *)
Definition wants (p : Pc) (l : lid) : bool :=
  match p with
  | AcquireP l' | WaitAcquire l' | WaitP _ l' => Nat.eqb l' l
  | _ => false
  end.

Arguments wants !p l /.

Record Use (s : State) : Prop := mkUse {
  holder_known : forall t l,
    holds s t l = true -> heldByThread (locks s l) = Some t;
  wanting_free : forall t l,
    wants (pc s t) l = true -> holds s t l = false
}.

Lemma sem_stage_free (s : State) (t : tid) (l : lid) :
  Inv s -> in_stage (pc s t) l = true -> holds s t l = false.
Proof.
  intros I H. destruct (holds s t l) eqn:Hh; [|reflexivity].
  destruct (holder_or_stage s I t t l Hh H).
Qed.

Ltac know :=
  repeat match goal with
  | U : Use ?s, H : holds ?s ?t ?l = true |- _ => note (holder_known s U t l H)
  | U : Use ?s, H : wants (pc ?s ?t) ?l = true |- _ => note (wanting_free s U t l H)
  | I : Inv ?s, H : in_stage (pc ?s ?t) ?l = true |- _ => note (sem_stage_free s t l I H)
  | I : Inv ?s, H : holds ?s ?t ?l = true, H' : in_stage (pc ?s ?u) ?l = true |- _ =>
      destruct (holder_or_stage s I t u l H H')
  | I : Inv ?s, H : heldByThread (locks ?s ?l) = Some ?t |- _ =>
      note (owner s I t l H)
  end.

Ltac at_pc :=
  repeat match goal with
  | Hpc : pc ?s ?t = ?p, H : context [pc ?s ?t] |- _ =>
    lazymatch type of H with
    | pc s t = _ => fail
    | _ => rewrite Hpc in H; cbn in H
    end
  end.

Ltac settle :=
  split; cbn; unfold upd; intros;
  repeat progress (cbn in *; eqb_cases);
  know; split_ors; know; at_pc; eqb_cases; split_ors;
  try congruence; try solve [intuition congruence].

Lemma sem_not_held (t : tid) (L : Lock) :
  isHeldByCurrentThread t L = false -> heldByThread L <> Some t.
Proof.
  intros H E. apply sem_isHeld in E. congruence.
Qed.

Lemma sem_free_when_not_held (s : State) (t : tid) (l : lid) :
  Use s -> isHeldByCurrentThread t (locks s l) = false -> holds s t l = false.
Proof.
  intros U H. destruct (holds s t l) eqn:Hh; [|reflexivity].
  apply sem_not_held in H. destruct (H (holder_known s U t l Hh)).
Qed.

Lemma sem_Use_init : Use init.
Proof.
  split; cbn; intros; try discriminate; auto.
Qed.

Lemma sem_Use_step (e : Event) (s : State) : Inv s -> Use s -> Use (step e s).
Proof.
  intros I U. unfold step.
  destruct (halted s); [assumption|].
  destruct e as [t op|t]; destruct (sched s t) eqn:Hs; try assumption.
  - destruct (pc s t) eqn:Hpc; try assumption.
    destruct op; cbn;
      unfold Acquire_enter, Release_enter, Wait_enter, Release_enter,
        Condition_enter;
      destruct (isHeldByCurrentThread t (locks s l)) eqn:Hh;
      try (apply sem_isHeld in Hh);
      try (pose proof (sem_free_when_not_held s t l U Hh));
      settle.
  - unfold run_thread. destruct (pc s t) eqn:Hpc; try assumption.
    + unfold Acquire_P, P.
      destruct (value (semLock (locks s l)) =? 0)%Z eqn:Hv; settle.
    + unfold Acquire_set.
      assert (St : in_stage (pc s t) l = true) by (rewrite Hpc; apply Nat.eqb_refl).
      settle.
    + unfold Release_clear.
      assert (St : in_stage (pc s t) l = true) by (rewrite Hpc; apply Nat.eqb_refl).
      settle.
    + unfold Release_test.
      assert (St : in_stage (pc s t) l = true) by (rewrite Hpc; apply Nat.eqb_refl).
      destruct (value (semLock (locks s l)) =? 0)%Z; destruct k; settle.
    + unfold Release_V, V, V_wake.
      assert (St : in_stage (pc s t) l = true) by (rewrite Hpc; apply Nat.eqb_refl).
      destruct (Remove (Sem.queue (semLock (locks s l)))) as [thread q].
      destruct k; settle.
    + unfold Wait_P, P.
      assert (Wt : wants (pc s t) l = true) by (rewrite Hpc; apply Nat.eqb_refl).
      destruct (value (semCond (conds s c)) =? 0)%Z; settle.
    + unfold Acquire_enter.
      assert (Wt : wants (pc s t) l = true) by (rewrite Hpc; apply Nat.eqb_refl).
      destruct (isHeldByCurrentThread t (locks s l)) eqn:Hh; settle.
    + unfold Signal_test. destruct (negb _); settle.
    + unfold Cond_V, V, V_wake.
      destruct (Remove (Sem.queue (semCond (conds s c)))) as [thread q]. settle.
    + unfold Cond_clamp. settle.
    + unfold Broadcast_test. destruct (negb _); settle.
    + unfold Cond_V, V, V_wake.
      destruct (Remove (Sem.queue (semCond (conds s c)))) as [thread q]. settle.
    + unfold Cond_clamp. settle.
Qed.


(** *** The wait queues and the sleeping threads *)

(** A thread that sleeps is on the queue of the semaphore it called [P]
    on: the one of the lock it is acquiring or the one of the condition it
    waits on. *)
Definition sleeper_queued (s : State) : Prop :=
  forall t, sched s t = BLOCKED ->
    (exists l, pc s t = AcquireP l /\ In t (Sem.queue (semLock (locks s l)))) \/
    (exists c l, pc s t = WaitP c l /\ In t (Sem.queue (semCond (conds s c)))).

Ltac queued_from Q t :=
  let l := fresh "l" in let c := fresh "c" in
  let Hp := fresh "Hp" in let Hq := fresh "Hq" in
  destruct (Q t ltac:(assumption)) as [(l & Hp & Hq)|(c & l & Hp & Hq)];
  [left; exists l | right; exists c, l]; cbn; unfold upd, Append; eqb_cases;
  cbn; try congruence; try (split; [congruence|]);
  auto using in_or_app, in_eq, in_cons.

Ltac tail_of Hq :=
  cbn in Hq; destruct Hq as [Hq|Hq]; [subst; congruence | auto].

Lemma sem_sleeper_queued_init : sleeper_queued init.
Proof.
  intros t H. discriminate.
Qed.

Lemma sem_sleeper_queued_set_pc (t : tid) (p : Pc) (s : State) :
  sched s t = READY -> sleeper_queued s -> sleeper_queued (set_pc t p s).
Proof.
  intros Hs Q u Hu. cbn in Hu. assert (u <> t) by congruence. queued_from Q u.
Qed.

Lemma sem_sleeper_queued_Cond_V (t : tid) (c : cid) (p : Pc) (s : State) :
  sched s t = READY -> sleeper_queued s -> sleeper_queued (Cond_V t c p s).
Proof.
  intros Hs Q. unfold Cond_V, V, V_wake.
  destruct (Sem.queue (semCond (conds s c))) as [|w q] eqn:Hq0; cbn.
  - intros u Hu. cbn in Hu. assert (u <> t) by congruence. queued_from Q u.
    rewrite Hq0 in *. assumption.
  - intros u Hu. cbn in Hu. unfold ReadyToRun, upd in Hu.
    destruct (Nat.eqb_spec u w); [discriminate|].
    assert (u <> t) by congruence. queued_from Q u.
    rewrite Hq0 in *. tail_of Hq.
Qed.

Lemma sem_sleeper_queued_Cond_clamp (t : tid) (c : cid) (s : State) :
  sched s t = READY -> sleeper_queued s -> sleeper_queued (Cond_clamp t c s).
Proof.
  intros Hs Q. unfold Cond_clamp.
  intros u Hu. cbn in Hu. assert (u <> t) by congruence.
  destruct (value (semCond (conds s c)) >? 1)%Z; queued_from Q u.
Qed.

Lemma sem_sleeper_queued_step (e : Event) (s : State) :
  sleeper_queued s -> sleeper_queued (step e s).
Proof.
  intros Q. unfold step.
  destruct (halted s); [assumption|].
  destruct e as [t op|t]; destruct (sched s t) eqn:Hs; try assumption.
  - destruct (pc s t) eqn:Hpc; try assumption.
    destruct op; cbn;
      unfold Acquire_enter, Release_enter, Wait_enter, Release_enter,
        Condition_enter;
      destruct (isHeldByCurrentThread t (locks s l));
      auto using sem_sleeper_queued_set_pc;
      intros u Hu; cbn in Hu; assert (u <> t) by congruence; queued_from Q u.
  - unfold run_thread. destruct (pc s t) eqn:Hpc; try assumption.
    + unfold Acquire_P, P.
      destruct (value (semLock (locks s l)) =? 0)%Z.
      * intros u Hu. cbn in Hu. unfold Sleep, upd in Hu.
        destruct (Nat.eqb_spec u t) as [E|Hne]; [subst u|].
        -- left. exists l. cbn. unfold upd. rewrite !Nat.eqb_refl. cbn.
           split; [exact Hpc|]. unfold Append. apply in_or_app. right. left.
           reflexivity.
        -- queued_from Q u.
      * intros u Hu. cbn in Hu. assert (u <> t) by congruence. queued_from Q u.
    + intros u Hu. cbn in Hu. assert (u <> t) by congruence. queued_from Q u.
    + intros u Hu. cbn in Hu. assert (u <> t) by congruence. queued_from Q u.
    + unfold Release_test. destruct (value (semLock (locks s l)) =? 0)%Z;
        apply sem_sleeper_queued_set_pc; assumption.
    + unfold Release_V, V, V_wake.
      destruct (Sem.queue (semLock (locks s l))) as [|w q] eqn:Hq0; cbn.
      * intros u Hu. cbn in Hu. assert (u <> t) by congruence. queued_from Q u.
        rewrite Hq0 in *. assumption.
      * intros u Hu. cbn in Hu. unfold ReadyToRun, upd in Hu.
        destruct (Nat.eqb_spec u w); [discriminate|].
        assert (u <> t) by congruence. queued_from Q u.
        rewrite Hq0 in *. tail_of Hq.
    + unfold Wait_P, P.
      destruct (value (semCond (conds s c)) =? 0)%Z.
      * intros u Hu. cbn in Hu. unfold Sleep, upd in Hu.
        destruct (Nat.eqb_spec u t) as [E|Hne]; [subst u|].
        -- right. exists c, l. cbn. unfold upd. rewrite !Nat.eqb_refl. cbn.
           split; [exact Hpc|]. unfold Append. apply in_or_app. right. left.
           reflexivity.
        -- queued_from Q u.
      * intros u Hu. cbn in Hu. assert (u <> t) by congruence. queued_from Q u.
    + unfold Acquire_enter. destruct (isHeldByCurrentThread t (locks s l));
        auto using sem_sleeper_queued_set_pc.
    + unfold Signal_test. destruct (negb _); apply sem_sleeper_queued_set_pc; assumption.
    + apply sem_sleeper_queued_Cond_V; assumption.
    + apply sem_sleeper_queued_Cond_clamp; assumption.
    + unfold Broadcast_test. destruct (negb _); apply sem_sleeper_queued_set_pc; assumption.
    + apply sem_sleeper_queued_Cond_V; assumption.
    + apply sem_sleeper_queued_Cond_clamp; assumption.
Qed.


(** Asleep, or about to sleep, in the [P] of [Wait] on condition [c]. *)
Definition on_cond (p : Pc) (c : cid) : bool :=
  match p with WaitP c' _ => Nat.eqb c' c | _ => false end.

Arguments on_cond !p c /.

Lemma sem_on_cond_unique (p : Pc) (c c' : cid) :
  on_cond p c = true -> on_cond p c' = true -> c = c'.
Proof.
  destruct p; cbn; try discriminate.
  intros H H'. apply Nat.eqb_eq in H, H'. congruence.
Qed.

(** Every entry of the queue of a semaphore is a thread asleep in the [P]
    it called on that semaphore; no thread is queued twice. *)
Record Queues (s : State) : Prop := mkQueues {
  lock_queue_asleep : forall t l,
    In t (Sem.queue (semLock (locks s l))) -> sched s t = BLOCKED;
  lock_queue_pc : forall t l,
    In t (Sem.queue (semLock (locks s l))) -> pc s t = AcquireP l;
  cond_queue_asleep : forall t c,
    In t (Sem.queue (semCond (conds s c))) -> sched s t = BLOCKED;
  cond_queue_pc : forall t c,
    In t (Sem.queue (semCond (conds s c))) -> on_cond (pc s t) c = true;
  lock_queue_once : forall l, NoDup (Sem.queue (semLock (locks s l)));
  cond_queue_once : forall c, NoDup (Sem.queue (semCond (conds s c)))
}.

Lemma sem_Queues_init : Queues init.
Proof.
  split; cbn; intros; try contradiction; constructor.
Qed.

Lemma sem_NoDup_Append (q : list tid) (t : tid) :
  NoDup q -> ~ In t q -> NoDup (Append q t).
Proof.
  intros N H. unfold Append. induction N as [|x q Hx N IH]; cbn.
  - constructor; [intros []|constructor].
  - constructor.
    + intros K. apply in_app_or in K. destruct K as [K|[K|[]]]; [auto|].
      apply H. left. symmetry. exact K.
    + apply IH. intros K. apply H. right. exact K.
Qed.

Lemma sem_In_Append (q : list tid) (t u : tid) :
  In u (Append q t) -> In u q \/ u = t.
Proof.
  unfold Append. intros H. apply in_app_or in H.
  destruct H as [H|[H|[]]]; auto.
Qed.

(** A thread that runs is on no queue. *)
Lemma sem_ready_not_queued (s : State) (t : tid) :
  Queues s -> sched s t = READY ->
  (forall l, ~ In t (Sem.queue (semLock (locks s l)))) /\
  (forall c, ~ In t (Sem.queue (semCond (conds s c)))).
Proof.
  intros Q Hs. split.
  - intros l H. pose proof (lock_queue_asleep s Q t l H). congruence.
  - intros c H. pose proof (cond_queue_asleep s Q t c H). congruence.
Qed.

Ltac queue_facts :=
  repeat match goal with
  | H : In _ (Append _ _) |- _ => apply sem_In_Append in H; destruct H as [H|H]; subst
  | Q : Queues ?s, H : In ?t (Sem.queue (semLock (locks ?s ?l))) |- _ =>
      note (lock_queue_asleep s Q t l H)
  | Q : Queues ?s, H : In ?t (Sem.queue (semLock (locks ?s ?l))) |- _ =>
      note (lock_queue_pc s Q t l H)
  | Q : Queues ?s, H : In ?t (Sem.queue (semCond (conds ?s ?c))) |- _ =>
      note (cond_queue_asleep s Q t c H)
  | Q : Queues ?s, H : In ?t (Sem.queue (semCond (conds ?s ?c))) |- _ =>
      note (cond_queue_pc s Q t c H)
  end.

Ltac queues :=
  split; cbn; unfold upd; intros;
  repeat progress (cbn in *; eqb_cases); queue_facts; at_pc;
  repeat progress (cbn in *; eqb_cases);
  try congruence; try contradiction;
  eauto using lock_queue_once, cond_queue_once, sem_NoDup_Append;
  try solve [
    match goal with
    | Hpc : pc ?s ?t = _ |- context [pc ?s ?t] =>
      rewrite Hpc; cbn; rewrite ?Nat.eqb_refl; reflexivity
    end];
  try solve [exfalso;
    match goal with N : forall x, ~ In ?t _, H : In ?t _ |- _ => exact (N _ H) end].

Lemma sem_Queues_halt (s : State) : Queues s -> Queues (halt s).
Proof.
  intros Q. destruct Q. split; assumption.
Qed.

Lemma sem_Queues_set_pc (t : tid) (p : Pc) (s : State) :
  sched s t = READY -> Queues s -> Queues (set_pc t p s).
Proof.
  intros Hs Q. destruct (sem_ready_not_queued s t Q Hs) as [NL NC]. queues.
Qed.

(** [P] on the semaphore of lock [l], by a thread at [AcquireP l]. *)
Lemma sem_Queues_Acquire_P (t : tid) (l : lid) (s : State) :
  sched s t = READY -> pc s t = AcquireP l -> Queues s -> Queues (Acquire_P t l s).
Proof.
  intros Hs Hpc Q. destruct (sem_ready_not_queued s t Q Hs) as [NL NC].
  unfold Acquire_P, P.
  destruct (value (semLock (locks s l)) =? 0)%Z; unfold Sleep; queues.
Qed.

Lemma sem_Queues_Wait_P (t : tid) (c : cid) (l : lid) (s : State) :
  sched s t = READY -> pc s t = WaitP c l -> Queues s -> Queues (Wait_P t c l s).
Proof.
  intros Hs Hpc Q. destruct (sem_ready_not_queued s t Q Hs) as [NL NC].
  unfold Wait_P, P.
  destruct (value (semCond (conds s c)) =? 0)%Z; unfold Sleep; queues.
Qed.


(** [V] on the semaphore of lock [l]. *)
Lemma sem_Queues_Release_V (t : tid) (l : lid) (k : Caller) (s : State) :
  sched s t = READY -> Queues s -> Queues (Release_V t l k s).
Proof.
  intros Hs Q. destruct (sem_ready_not_queued s t Q Hs) as [NL NC].
  unfold Release_V, V, V_wake.
  pose proof (lock_queue_once s Q l) as N.
  assert (M : forall u, In u (Sem.queue (semLock (locks s l))) ->
                sched s u = BLOCKED /\ pc s u = AcquireP l).
  { intros u Hu. split; [eapply lock_queue_asleep | eapply lock_queue_pc]; eauto. }
  destruct (Sem.queue (semLock (locks s l))) as [|w q] eqn:Hq0; cbn.
  - queues.
  - inversion N as [|? ? Nw Nq]; subst.
    destruct (M w (or_introl eq_refl)) as [Mw Pw].
    unfold ReadyToRun. queues; try (apply M; auto).
    exfalso. apply (NL l). rewrite Hq0. right. assumption.
Qed.

(** [V] on the semaphore of condition [c]. *)
Lemma sem_Queues_Cond_V (t : tid) (c : cid) (p : Pc) (s : State) :
  sched s t = READY -> Queues s -> Queues (Cond_V t c p s).
Proof.
  intros Hs Q. destruct (sem_ready_not_queued s t Q Hs) as [NL NC].
  unfold Cond_V, V, V_wake.
  pose proof (cond_queue_once s Q c) as N.
  assert (M : forall u, In u (Sem.queue (semCond (conds s c))) ->
                sched s u = BLOCKED /\ on_cond (pc s u) c = true).
  { intros u Hu. split; [eapply cond_queue_asleep | eapply cond_queue_pc]; eauto. }
  destruct (Sem.queue (semCond (conds s c))) as [|w q] eqn:Hq0; cbn.
  - queues.
  - inversion N as [|? ? Nw Nq]; subst.
    destruct (M w (or_introl eq_refl)) as [Mw Pw].
    unfold ReadyToRun. queues; try (apply M; auto).
    + exfalso. apply n. symmetry. exact (sem_on_cond_unique _ _ _ Pw H0).
    + exfalso. apply (NC c). rewrite Hq0. right. assumption.
Qed.

Lemma sem_Queues_Cond_clamp (t : tid) (c : cid) (s : State) :
  sched s t = READY -> Queues s -> Queues (Cond_clamp t c s).
Proof.
  intros Hs Q. destruct (sem_ready_not_queued s t Q Hs) as [NL NC].
  unfold Cond_clamp.
  destruct (value (semCond (conds s c)) >? 1)%Z; queues.
Qed.

Lemma sem_Queues_step (e : Event) (s : State) : Queues s -> Queues (step e s).
Proof.
  intros Q. unfold step.
  destruct (halted s); [assumption|].
  destruct e as [t op|t]; destruct (sched s t) eqn:Hs; try assumption.
  - destruct (pc s t) eqn:Hpc; try assumption.
    destruct (sem_ready_not_queued s t Q Hs) as [NL NC].
    destruct op; cbn;
      unfold Acquire_enter, Release_enter, Wait_enter, Release_enter,
        Condition_enter;
      destruct (isHeldByCurrentThread t (locks s l));
      auto using sem_Queues_set_pc, sem_Queues_halt; queues.
  - unfold run_thread. destruct (pc s t) eqn:Hpc; try assumption.
    + apply sem_Queues_Acquire_P; assumption.
    + destruct (sem_ready_not_queued s t Q Hs) as [NL NC]. unfold Acquire_set. queues.
    + destruct (sem_ready_not_queued s t Q Hs) as [NL NC]. unfold Release_clear. queues.
    + unfold Release_test. destruct (value (semLock (locks s l)) =? 0)%Z;
        apply sem_Queues_set_pc; assumption.
    + apply sem_Queues_Release_V; assumption.
    + apply sem_Queues_Wait_P; assumption.
    + unfold Acquire_enter. destruct (isHeldByCurrentThread t (locks s l));
        auto using sem_Queues_set_pc, sem_Queues_halt.
    + unfold Signal_test. destruct (negb _); apply sem_Queues_set_pc; assumption.
    + apply sem_Queues_Cond_V; assumption.
    + apply sem_Queues_Cond_clamp; assumption.
    + unfold Broadcast_test. destruct (negb _); apply sem_Queues_set_pc; assumption.
    + apply sem_Queues_Cond_V; assumption.
    + apply sem_Queues_Cond_clamp; assumption.
Qed.

(** *** The semaphore of a lock *)

(** The semaphore of a lock is at 0 only while a thread holds the lock or
    is between the [P] of [Acquire] and the [V] of [Release]. *)
Definition Taken (s : State) : Prop :=
  forall l, value (semLock (locks s l)) = 0%Z ->
    exists u, holds s u l = true \/ in_stage (pc s u) l = true.

Lemma sem_Taken_init : Taken init.
Proof.
  intros l H. discriminate.
Qed.

Ltac by_thread t :=
  exists t; cbn; unfold upd; rewrite ?Nat.eqb_refl; cbn; rewrite ?Nat.eqb_refl;
  auto.

Ltac by_old T Hv :=
  let u := fresh "u" in let Hu := fresh "Hu" in
  destruct (T _ Hv) as (u & Hu); exists u; cbn; unfold upd;
  repeat progress (cbn in *; eqb_cases); at_pc;
  repeat progress (cbn in *; eqb_cases);
  split_ors; try congruence; auto.

Ltac taken T t :=
  let l0 := fresh "l0" in let Hv := fresh "Hv" in
  intros l0 Hv; cbn in Hv; unfold upd in Hv;
  repeat progress (cbn in *; eqb_cases); try discriminate;
  first [ solve [by_thread t] | solve [by_old T Hv] | idtac ].

Lemma sem_Taken_step (e : Event) (s : State) : Inv s -> Taken s -> Taken (step e s).
Proof.
  intros I T. unfold step.
  destruct (halted s); [assumption|].
  destruct e as [t op|t]; destruct (sched s t) eqn:Hs; try assumption.
  - destruct (pc s t) eqn:Hpc; try assumption.
    destruct op; cbn;
      unfold Acquire_enter, Release_enter, Wait_enter, Release_enter,
        Condition_enter;
      destruct (isHeldByCurrentThread t (locks s l)) eqn:Hh; try assumption;
      taken T t.
  - unfold run_thread. destruct (pc s t) eqn:Hpc; try assumption.
    + unfold Acquire_P, P.
      destruct (value (semLock (locks s l)) =? 0)%Z eqn:Hv0; taken T t.
    + unfold Acquire_set. taken T t.
    + unfold Release_clear. taken T t.
    + unfold Release_test.
      assert (St : in_stage (pc s t) l = true) by (rewrite Hpc; apply Nat.eqb_refl).
      rewrite (stage_taken s I t l St). cbn. taken T t.
    + unfold Release_V, V, V_wake.
      assert (St : in_stage (pc s t) l = true) by (rewrite Hpc; apply Nat.eqb_refl).
      pose proof (stage_taken s I t l St) as V0.
      destruct (Remove (Sem.queue (semLock (locks s l)))) as [thread q].
      unfold V_incr. cbn. rewrite V0, incr_zero.
      destruct k; taken T t.
    + unfold Wait_P, P.
      destruct (value (semCond (conds s c)) =? 0)%Z; taken T t.
    + unfold Acquire_enter.
      destruct (isHeldByCurrentThread t (locks s l)) eqn:Hh; try assumption;
        taken T t.
    + unfold Signal_test. destruct (negb _); taken T t.
    + unfold Cond_V, V, V_wake.
      destruct (Remove (Sem.queue (semCond (conds s c)))) as [thread q]. taken T t.
    + unfold Cond_clamp. taken T t.
    + unfold Broadcast_test. destruct (negb _); taken T t.
    + unfold Cond_V, V, V_wake.
      destruct (Remove (Sem.queue (semCond (conds s c)))) as [thread q]. taken T t.
    + unfold Cond_clamp. taken T t.
Qed.

(** *** Reachable states *)

Record Sound (s : State) : Prop := mkSound {
  sound_lock : Inv s;
  sound_use : Use s;
  sound_sleepers : sleeper_queued s;
  sound_queues : Queues s;
  sound_taken : Taken s
}.

Lemma sem_Sound_run (es : list Event) :
  forall s, Sound s -> Sound (run es s).
Proof.
  induction es as [|e es IH]; intros s S; cbn; [assumption|].
  apply IH. destruct S as [I U A Q T]. split.
  - apply sem_Inv_step; assumption.
  - apply sem_Use_step; assumption.
  - apply sem_sleeper_queued_step; assumption.
  - apply sem_Queues_step; assumption.
  - apply sem_Taken_step; assumption.
Qed.

Lemma sem_Sound_reachable (es : list Event) : Sound (run es init).
Proof.
  apply sem_Sound_run. split.
  - exact sem_Inv_init.
  - exact sem_Use_init.
  - exact sem_sleeper_queued_init.
  - exact sem_Queues_init.
  - exact sem_Taken_init.
Qed.


(** *** The ASSERTs at the head of the operations *)

Lemma sem_isHeld_is_holds (s : State) (t : tid) (l : lid) :
  Sound s -> pc s t = User ->
  isHeldByCurrentThread t (locks s l) = holds s t l.
Proof.
  intros [I U _ _ _] Hpc.
  destruct (holds s t l) eqn:Hh.
  - apply sem_isHeld. exact (holder_known s U t l Hh).
  - destruct (isHeldByCurrentThread t (locks s l)) eqn:Hi; [|reflexivity].
    apply sem_isHeld in Hi.
    destruct (owner s I t l Hi) as [H|H]; [congruence|].
    rewrite Hpc in H. discriminate.
Qed.

(** X11: In every state the machine can reach, [isHeldByCurrentThread] answers
    a thread outside the primitives whether it acquired the lock and has
    not released it since; so [Acquire] aborts exactly when the caller
    holds the lock already, and [Release], [Wait], [Signal] and
    [Broadcast] abort exactly when the caller does not hold the lock it
    releases or passes (whatever lock the condition was used with
    before). *)
Theorem sem_misuse_aborts (es : list Event) (t : tid) (l : lid) (c : cid) :
  let s := run es init in
  halted s = false -> sched s t = READY -> pc s t = User ->
  isHeldByCurrentThread t (locks s l) = holds s t l /\
  halted (step (Call t (Acquire l)) s) = holds s t l /\
  (forall op, In op [Release l; Wait c l; Signal c l; Broadcast c l] ->
     halted (step (Call t op) s) = negb (holds s t l)).
Proof.
  cbv zeta. set (s := run es init). intros Hh Hs Hpc.
  pose proof (sem_isHeld_is_holds s t l (sem_Sound_reachable es) Hpc) as E.
  split; [exact E|].
  unfold step. rewrite Hh, Hs, Hpc. cbn. unfold Acquire_enter.
  split.
  - rewrite E. destruct (holds s t l); cbn; [reflexivity | exact Hh].
  - intros op [<-|[<-|[<-|[<-|[]]]]]; cbn;
      unfold Wait_enter, Release_enter, Condition_enter; rewrite E;
      destruct (holds s t l); cbn; try reflexivity; exact Hh.
Qed.

Definition lock_taken_then_waiting : list Event :=
  [Call 1 (Acquire 0)] ++ go 1 2 ++ [Call 2 (Acquire 0)] ++ go 2 1.

Lemma sem_misuse_aborts_witness :
  let s := run lock_taken_then_waiting init in
  (halted s = false /\ sched s 1 = READY /\ pc s 1 = User) /\
  holds s 1 0 = true /\
  halted (step (Call 1 (Acquire 0)) s) = holds s 1 0.
Proof.
  assert (H1 : halted (run lock_taken_then_waiting init) = false) by reflexivity.
  assert (H2 : sched (run lock_taken_then_waiting init) 1 = READY) by reflexivity.
  assert (H3 : pc (run lock_taken_then_waiting init) 1 = User) by reflexivity.
  pose proof (sem_misuse_aborts lock_taken_then_waiting 1 0 0 H1 H2 H3)
    as (_ & A & _).
  exact (conj (conj H1 (conj H2 H3)) (conj eq_refl A)).
Defined.

(** *** Who sleeps where *)

(** X12: In every state the machine can reach, the queues of the semaphores
    hold exactly the sleeping threads: a thread is asleep if and only if
    it is on the queue of the semaphore of a lock or of a condition; a
    thread on the queue of a lock is in the [P] of [Acquire] on that lock,
    a thread on the queue of a condition is in the [P] of [Wait] on that
    condition; and no queue holds a thread twice. *)
Theorem sem_wait_queues_hold_the_sleepers (es : list Event) (t : tid) :
  let s := run es init in
  (sched s t = BLOCKED <->
   (exists l, In t (Sem.queue (semLock (locks s l)))) \/
   (exists c, In t (Sem.queue (semCond (conds s c))))) /\
  (forall l, In t (Sem.queue (semLock (locks s l))) -> pc s t = AcquireP l) /\
  (forall c, In t (Sem.queue (semCond (conds s c))) ->
     exists l, pc s t = WaitP c l) /\
  (forall l, NoDup (Sem.queue (semLock (locks s l)))) /\
  (forall c, NoDup (Sem.queue (semCond (conds s c)))).
Proof.
  cbv zeta. destruct (sem_Sound_reachable es) as [_ _ A Q _].
  set (s := run es init) in *.
  split; [split|split; [|split; [|split]]].
  - intros B. destruct (A t B) as [(l & _ & H)|(c & l & _ & H)]; eauto.
  - intros [(l & H)|(c & H)].
    + exact (lock_queue_asleep s Q t l H).
    + exact (cond_queue_asleep s Q t c H).
  - intros l H. exact (lock_queue_pc s Q t l H).
  - intros c H. pose proof (cond_queue_pc s Q t c H) as P.
    destruct (pc s t); try discriminate. cbn in P. apply Nat.eqb_eq in P.
    subst. eauto.
  - exact (lock_queue_once s Q).
  - exact (cond_queue_once s Q).
Qed.


(** *** [Acquire] and [Release] on a reachable state *)

Ltac run_at Hh Hs Hpc :=
  unfold step; rewrite Hh, Hs; unfold run_thread; rewrite Hpc.

(** X13: A thread at the [P] of [Acquire] does not hold the lock.  Its [P]
    gets through exactly when no thread holds the lock and none is between
    the [P] of [Acquire] and the [V] of [Release]; it then leaves the
    semaphore at 0.  Otherwise the thread goes to sleep at the end of the
    queue of the semaphore. *)
Theorem sem_Acquire_takes_a_free_lock (es : list Event) (t : tid) (l : lid) :
  let s := run es init in
  let s' := step (Run t) s in
  halted s = false -> sched s t = READY -> pc s t = AcquireP l ->
  holds s t l = false /\ halted s' = false /\
  ((forall u, holds s u l = false /\ in_stage (pc s u) l = false) ->
   pc s' t = AcquireSet l /\ sched s' t = READY /\
   semLock (locks s' l) = mkSemaphore 0 (Sem.queue (semLock (locks s l)))) /\
  ((exists u, holds s u l = true \/ in_stage (pc s u) l = true) ->
   pc s' t = AcquireP l /\ sched s' t = BLOCKED /\
   semLock (locks s' l) =
     mkSemaphore 0 (Sem.queue (semLock (locks s l)) ++ [t])).
Proof.
  cbv zeta. destruct (sem_Sound_reachable es) as [I U _ _ T].
  set (s := run es init) in *. intros Hh Hs Hpc.
  split.
  { apply (wanting_free s U). rewrite Hpc. apply Nat.eqb_refl. }
  run_at Hh Hs Hpc. unfold Acquire_P, P.
  destruct (value (semLock (locks s l)) =? 0)%Z eqn:Hv; cbn; unfold upd, Sleep, upd;
    rewrite ?Nat.eqb_refl; cbn; rewrite ?Nat.eqb_refl; cbn.
  - apply Z.eqb_eq in Hv. split; [exact Hh|]. split.
    + intros F. exfalso. destruct (T l Hv) as (u & Hu).
      destruct (F u) as [F1 F2]. destruct Hu; congruence.
    + intros _. rewrite Hv. repeat split; auto.
  - apply Z.eqb_neq in Hv. split; [exact Hh|].
    destruct (sem_binary s I l) as [V0|V1]; [congruence|]. split.
    + intros _. rewrite V1, decr_one. repeat split; auto.
    + intros (u & [Hu|Hu]); exfalso; apply Hv.
      * exact (holder_taken s I u l Hu).
      * exact (stage_taken s I u l Hu).
Qed.

(** X14: The last statement of [Acquire] records the caller in [heldByThread]
    and returns; from then on the caller holds the lock.  Nobody else can
    have touched [heldByThread] since the [P]: the lock is held by
    nobody until then. *)
Theorem sem_Acquire_records_the_holder (es : list Event) (t : tid) (l : lid) :
  let s := run es init in
  let s' := step (Run t) s in
  halted s = false -> sched s t = READY -> pc s t = AcquireSet l ->
  (forall u, holds s u l = false) /\
  value (semLock (locks s l)) = 0%Z /\
  halted s' = false /\ pc s' t = User /\ holds s' t l = true /\
  heldByThread (locks s' l) = Some t /\
  semLock (locks s' l) = semLock (locks s l).
Proof.
  cbv zeta. destruct (sem_Sound_reachable es) as [I U _ _ T].
  set (s := run es init) in *. intros Hh Hs Hpc.
  assert (St : in_stage (pc s t) l = true) by (rewrite Hpc; apply Nat.eqb_refl).
  split.
  { intros u. destruct (holds s u l) eqn:Hu; [|reflexivity].
    destruct (holder_or_stage s I u t l Hu St). }
  split; [exact (stage_taken s I t l St)|].
  run_at Hh Hs Hpc. unfold Acquire_set. cbn. unfold upd.
  rewrite ?Nat.eqb_refl. cbn. rewrite ?Nat.eqb_refl. auto.
Qed.

(** X15: In [Release], the test [semLock->value==0] always succeeds, so the
    [V] is always made; the [V] leaves the semaphore at 1 with nobody
    holding the lock, and makes the longest-waiting thread of the queue,
    which was asleep in the [P] of [Acquire], ready, and no other. *)
Theorem sem_Release_always_signals
  (es : list Event) (t : tid) (l : lid) (k : Caller) :
  let s := run es init in
  let s' := step (Run t) s in
  halted s = false -> sched s t = READY ->
  (pc s t = ReleaseTest l k -> pc s' t = ReleaseV l k /\ halted s' = false) /\
  (pc s t = ReleaseV l k ->
   halted s' = false /\ pc s' t = after_Release k l /\
   value (semLock (locks s' l)) = 1%Z /\
   heldByThread (locks s' l) = None /\
   (forall u, holds s' u l = false) /\
   match Sem.queue (semLock (locks s l)) with
   | [] => Sem.queue (semLock (locks s' l)) = [] /\ sched s' = sched s
   | w :: q =>
     sched s w = BLOCKED /\ pc s w = AcquireP l /\
     sched s' w = READY /\ Sem.queue (semLock (locks s' l)) = q /\
     (forall u, u <> w -> sched s' u = sched s u)
   end).
Proof.
  cbv zeta. destruct (sem_Sound_reachable es) as [I U _ Q _].
  set (s := run es init) in *. intros Hh Hs. split; intros Hpc.
  - assert (St : in_stage (pc s t) l = true) by (rewrite Hpc; apply Nat.eqb_refl).
    run_at Hh Hs Hpc. unfold Release_test.
    rewrite (stage_taken s I t l St). cbn. unfold upd. rewrite Nat.eqb_refl. auto.
  - assert (St : in_stage (pc s t) l = true) by (rewrite Hpc; apply Nat.eqb_refl).
    pose proof (stage_taken s I t l St) as V0.
    assert (Hn : heldByThread (locks s l) = None).
    { destruct (heldByThread (locks s l)) as [u|] eqn:Hu; [|reflexivity].
      exfalso. destruct (owner s I u l Hu) as [H|H].
      - exact (holder_or_stage s I u t l H St).
      - assert (Su : in_stage (pc s u) l = true).
        { destruct (pc s u); cbn in H |- *; try discriminate. exact H. }
        pose proof (one_stage s I u t l Su St). subst u.
        rewrite Hpc in H. discriminate. }
    assert (Hf : forall u, holds s u l = false).
    { intros u. destruct (holds s u l) eqn:Hu; [|reflexivity].
      destruct (holder_or_stage s I u t l Hu St). }
    run_at Hh Hs Hpc. unfold Release_V, V, V_wake, V_incr.
    pose proof (lock_queue_asleep s Q) as QA. pose proof (lock_queue_pc s Q) as QP.
    destruct (Sem.queue (semLock (locks s l))) as [|w q] eqn:Hq; cbn; unfold upd;
      rewrite ?Nat.eqb_refl; cbn; rewrite V0, incr_zero.
    + repeat split; auto.
    + assert (Hw : In w (Sem.queue (semLock (locks s l))))
        by (rewrite Hq; left; reflexivity).
      repeat split; eauto.
      * unfold ReadyToRun, upd. rewrite Nat.eqb_refl. reflexivity.
      * intros u Hu. unfold ReadyToRun, upd.
        destruct (Nat.eqb_spec u w); [contradiction | reflexivity].
Qed.


(** *** [Wait] and [Signal] on a reachable state *)

(** The statements of [Wait(c, l)] after its ASSERT. *)
Definition inside_Wait (p : Pc) (c : cid) (l : lid) : bool :=
  match p with
  | ReleaseClear l' (FromWait c') | ReleaseTest l' (FromWait c')
  | ReleaseV l' (FromWait c') | WaitP c' l' => Nat.eqb l' l && Nat.eqb c' c
  | WaitAcquire l' => Nat.eqb l' l
  | _ => false
  end.

(** X16: From the call of [Wait] to the [Acquire] at its end the caller does
    not hold the lock, and no statement in between aborts: the ASSERT of
    the [Acquire] inside [Wait] always passes.  The [P] on the semaphore
    of the condition lets the caller through when the semaphore is not 0
    (a [V] was banked) and otherwise puts it to sleep at the end of the
    queue. *)
Theorem sem_Wait_gives_up_the_lock
  (es : list Event) (t : tid) (c : cid) (l : lid) :
  let s := run es init in
  let s' := step (Run t) s in
  halted s = false -> sched s t = READY -> inside_Wait (pc s t) c l = true ->
  holds s t l = false /\ halted s' = false /\ holds s' t l = false /\
  (pc s t = WaitP c l ->
   (value (semCond (conds s c)) = 0%Z ->
    sched s' t = BLOCKED /\ pc s' t = WaitP c l /\
    semCond (conds s' c) =
      mkSemaphore 0 (Sem.queue (semCond (conds s c)) ++ [t])) /\
   (value (semCond (conds s c)) <> 0%Z ->
    sched s' t = READY /\ pc s' t = WaitAcquire l /\
    semCond (conds s' c) =
      mkSemaphore (Int.decr (value (semCond (conds s c))))
        (Sem.queue (semCond (conds s c))))) /\
  (pc s t = WaitAcquire l -> pc s' t = AcquireP l).
Proof.
  cbv zeta. destruct (sem_Sound_reachable es) as [I U _ _ _].
  set (s := run es init) in *. intros Hh Hs Hin.
  assert (Hf : holds s t l = false).
  { destruct (pc s t) as [| | |l' k|l' k|l' k|c' l'|l'| | | | | |] eqn:Hpc;
      cbn in Hin; try discriminate.
    1-3: destruct k; try discriminate; apply andb_true_iff in Hin;
      destruct Hin as [Hl _]; apply Nat.eqb_eq in Hl; subst l';
      apply (sem_stage_free s t l I); rewrite Hpc; apply Nat.eqb_refl.
    - apply andb_true_iff in Hin. destruct Hin as [Hl _].
      apply Nat.eqb_eq in Hl. subst l'.
      apply (wanting_free s U). rewrite Hpc. apply Nat.eqb_refl.
    - apply Nat.eqb_eq in Hin. subst l'.
      apply (wanting_free s U). rewrite Hpc. apply Nat.eqb_refl. }
  split; [exact Hf|].
  assert (Hi : pc s t = WaitAcquire l ->
               isHeldByCurrentThread t (locks s l) = false).
  { intros Hpc. destruct (isHeldByCurrentThread t (locks s l)) eqn:Hi; [|reflexivity].
    apply sem_isHeld in Hi. destruct (owner s I t l Hi) as [H|H]; [congruence|].
    rewrite Hpc in H. discriminate. }
  unfold step. rewrite Hh, Hs. unfold run_thread.
  destruct (pc s t) as [| | |l' k|l' k|l' k|c' l'|l'| | | | | |] eqn:Hpc;
    cbn in Hin; try discriminate.
  - unfold Release_clear. cbn. repeat split; try discriminate; auto.
  - unfold Release_test. destruct (value (semLock (locks s l')) =? 0)%Z; cbn;
      repeat split; try discriminate; auto.
  - unfold Release_V, V, V_wake.
    destruct (Remove (Sem.queue (semLock (locks s l')))) as [thread q]; cbn.
    repeat split; try discriminate; auto.
  - apply andb_true_iff in Hin. destruct Hin as [Hl Hc].
    apply Nat.eqb_eq in Hl, Hc. subst l' c'.
    unfold Wait_P, P.
    destruct (value (semCond (conds s c)) =? 0)%Z eqn:Hv; cbn; unfold upd, Sleep, upd;
      rewrite ?Nat.eqb_refl; cbn.
    + apply Z.eqb_eq in Hv. rewrite Hv.
      repeat split; try discriminate; try congruence; auto.
    + apply Z.eqb_neq in Hv.
      repeat split; try discriminate; try congruence; auto.
  - apply Nat.eqb_eq in Hin. subst l'.
    unfold Acquire_enter. rewrite (Hi eq_refl). cbn. unfold upd.
    rewrite Nat.eqb_refl. repeat split; try discriminate; auto.
Qed.

Lemma sem_upd_same {A : Type} (f : nat -> A) (k : nat) (v : A) : upd f k v k = v.
Proof.
  unfold upd. rewrite Nat.eqb_refl. reflexivity.
Qed.

(** X17: A [Signal] that comes after a thread has released the lock inside
    [Wait] and before that thread has reached its [P] is lost: with
    nobody on the queue of the condition yet, [Signal] makes no [V], and
    the thread then goes to sleep in its [P] although the signal was
    sent after its call of [Wait]. *)
Theorem sem_Signal_before_the_P_is_lost
  (es : list Event) (t u : tid) (c : cid) (l l' : lid) :
  let s := run es init in
  let s' := run ([Call u (Signal c l')] ++ go u 2 ++ [Run t]) s in
  halted s = false ->
  sched s t = READY -> pc s t = WaitP c l ->
  sched s u = READY -> pc s u = User -> holds s u l' = true ->
  semCond (conds s c) = mkSemaphore 0 [] ->
  halted s' = false /\ pc s' u = User /\ holds s' u l' = true /\
  sched s' t = BLOCKED /\ pc s' t = WaitP c l /\
  semCond (conds s' c) = mkSemaphore 0 [t].
Proof.
  cbv zeta. destruct (sem_Sound_reachable es) as [I U _ _ _].
  set (s := run es init) in *. intros Hh Hst Hpt Hsu Hpu Hl Hc.
  assert (Hne : t <> u) by congruence.
  assert (Hi : isHeldByCurrentThread u (locks s l') = true).
  { apply sem_isHeld. exact (holder_known s U u l' Hl). }
  change (run ([Call u (Signal c l')] ++ go u 2 ++ [Run t]) s)
    with (step (Run t) (step (Run u) (step (Run u) (step (Call u (Signal c l')) s)))).
  assert (E1 : step (Call u (Signal c l')) s = set_pc u (SignalTest c) s).
  { unfold step. rewrite Hh, Hsu, Hpu. cbn. unfold Condition_enter.
    rewrite Hi. reflexivity. }
  rewrite E1. clear E1.
  assert (E2 : step (Run u) (set_pc u (SignalTest c) s)
               = set_pc u (SignalClamp c) (set_pc u (SignalTest c) s)).
  { unfold step. cbn [halted sched set_pc]. rewrite Hh, Hsu. unfold run_thread.
    cbn [pc set_pc]. rewrite sem_upd_same.
    unfold Signal_test. cbn [conds set_pc]. rewrite Hc. reflexivity. }
  rewrite E2. clear E2.
  set (s2 := set_pc u (SignalClamp c) (set_pc u (SignalTest c) s)).
  assert (E3 : step (Run u) s2
               = set_pc u User (set_cond c (mkCondition (mkSemaphore 0 [])) s2)).
  { unfold step, s2. cbn [halted sched set_pc]. rewrite Hh, Hsu. unfold run_thread.
    cbn [pc set_pc]. rewrite sem_upd_same.
    unfold Cond_clamp. cbn [conds set_pc]. rewrite Hc. reflexivity. }
  rewrite E3. clear E3.
  set (s3 := set_pc u User (set_cond c (mkCondition (mkSemaphore 0 [])) s2)).
  assert (P3 : pc s3 t = WaitP c l).
  { cbn. unfold upd. destruct (Nat.eqb_spec t u); [contradiction | exact Hpt]. }
  assert (C3 : semCond (conds s3 c) = mkSemaphore 0 []).
  { cbn. unfold upd. rewrite Nat.eqb_refl. reflexivity. }
  unfold step. change (halted s3) with (halted s). change (sched s3) with (sched s).
  rewrite Hh, Hst. unfold run_thread. rewrite P3. unfold Wait_P, P. rewrite C3.
  cbn. unfold upd, Sleep, upd. rewrite !Nat.eqb_refl. cbn.
  destruct (Nat.eqb_spec t u); [contradiction|].
  destruct (Nat.eqb_spec u t); [congruence|].
  repeat split; auto.
Qed.


(** *** The theorems at work *)

Definition lock_taken : list Event := [Call 1 (Acquire 0)] ++ go 1 2.

(** Thread 1 is inside [Wait], about to call [P]. *)
Definition before_the_P : list Event :=
  lock_taken ++ [Call 1 (Wait 0 0)] ++ go 1 3.

Lemma sem_Acquire_takes_a_free_lock_witness :
  let s := run [Call 1 (Acquire 0)] init in
  (halted s = false /\ sched s 1 = READY /\ pc s 1 = AcquireP 0) /\
  holds s 1 0 = false /\ halted (step (Run 1) s) = false.
Proof.
  assert (H1 : halted (run [Call 1 (Acquire 0)] init) = false) by reflexivity.
  assert (H2 : sched (run [Call 1 (Acquire 0)] init) 1 = READY) by reflexivity.
  assert (H3 : pc (run [Call 1 (Acquire 0)] init) 1 = AcquireP 0) by reflexivity.
  pose proof (sem_Acquire_takes_a_free_lock [Call 1 (Acquire 0)] 1 0 H1 H2 H3)
    as (A & B & _).
  exact (conj (conj H1 (conj H2 H3)) (conj A B)).
Defined.

Lemma sem_Acquire_records_the_holder_witness :
  let s := run [Call 1 (Acquire 0); Run 1] init in
  (halted s = false /\ sched s 1 = READY /\ pc s 1 = AcquireSet 0) /\
  value (semLock (locks s 0)) = 0%Z /\ halted (step (Run 1) s) = false.
Proof.
  assert (H1 : halted (run [Call 1 (Acquire 0); Run 1] init) = false) by reflexivity.
  assert (H2 : sched (run [Call 1 (Acquire 0); Run 1] init) 1 = READY)
    by reflexivity.
  assert (H3 : pc (run [Call 1 (Acquire 0); Run 1] init) 1 = AcquireSet 0)
    by reflexivity.
  pose proof (sem_Acquire_records_the_holder [Call 1 (Acquire 0); Run 1] 1 0
                H1 H2 H3) as (_ & A & B & _).
  exact (conj (conj H1 (conj H2 H3)) (conj A B)).
Defined.

Definition releasing : list Event :=
  lock_taken_then_waiting ++ [Call 1 (Release 0)] ++ go 1 2.

Lemma sem_Release_always_signals_witness :
  let s := run releasing init in
  (halted s = false /\ sched s 1 = READY) /\
  pc s 1 = ReleaseV 0 FromUser /\ Sem.queue (semLock (locks s 0)) = [2] /\
  halted (step (Run 1) s) = false /\ pc (step (Run 1) s) 1 = User.
Proof.
  assert (H1 : halted (run releasing init) = false) by reflexivity.
  assert (H2 : sched (run releasing init) 1 = READY) by reflexivity.
  assert (H3 : pc (run releasing init) 1 = ReleaseV 0 FromUser) by reflexivity.
  pose proof (proj2 (sem_Release_always_signals releasing 1 0 FromUser H1 H2) H3)
    as (A & B & _).
  exact (conj (conj H1 H2) (conj H3 (conj eq_refl (conj A B)))).
Defined.

Lemma sem_Wait_gives_up_the_lock_witness :
  let s := run before_the_P init in
  (halted s = false /\ sched s 1 = READY /\ inside_Wait (pc s 1) 0 0 = true) /\
  pc s 1 = WaitP 0 0 /\
  holds s 1 0 = false /\ halted (step (Run 1) s) = false.
Proof.
  assert (H1 : halted (run before_the_P init) = false) by reflexivity.
  assert (H2 : sched (run before_the_P init) 1 = READY) by reflexivity.
  assert (H3 : inside_Wait (pc (run before_the_P init) 1) 0 0 = true) by reflexivity.
  pose proof (sem_Wait_gives_up_the_lock before_the_P 1 0 0 H1 H2 H3) as (A & B & _).
  exact (conj (conj H1 (conj H2 H3)) (conj eq_refl (conj A B))).
Defined.

(** Thread 1 is about to call [P] inside [Wait]; thread 2 has taken the
    lock thread 1 released. *)
Definition signaller_overtakes : list Event :=
  before_the_P ++ [Call 2 (Acquire 0)] ++ go 2 2.

Lemma sem_Signal_before_the_P_is_lost_witness :
  let s := run signaller_overtakes init in
  let s' := run ([Call 2 (Signal 0 0)] ++ go 2 2 ++ [Run 1]) s in
  (halted s = false /\ sched s 1 = READY /\ pc s 1 = WaitP 0 0 /\
   sched s 2 = READY /\ pc s 2 = User /\ holds s 2 0 = true /\
   semCond (conds s 0) = mkSemaphore 0 []) /\
  halted s' = false /\ pc s' 2 = User /\ holds s' 2 0 = true /\
  sched s' 1 = BLOCKED /\ pc s' 1 = WaitP 0 0 /\
  semCond (conds s' 0) = mkSemaphore 0 [1].
Proof.
  assert (H1 : halted (run signaller_overtakes init) = false) by reflexivity.
  assert (H2 : sched (run signaller_overtakes init) 1 = READY) by reflexivity.
  assert (H3 : pc (run signaller_overtakes init) 1 = WaitP 0 0) by reflexivity.
  assert (H4 : sched (run signaller_overtakes init) 2 = READY) by reflexivity.
  assert (H5 : pc (run signaller_overtakes init) 2 = User) by reflexivity.
  assert (H6 : holds (run signaller_overtakes init) 2 0 = true) by reflexivity.
  assert (H7 : semCond (conds (run signaller_overtakes init) 0) = mkSemaphore 0 [])
    by reflexivity.
  exact (conj (conj H1 (conj H2 (conj H3 (conj H4 (conj H5 (conj H6 H7))))))
           (sem_Signal_before_the_P_is_lost signaller_overtakes 1 2 0 0 0
              H1 H2 H3 H4 H5 H6 H7)).
Defined.

End SemDiscipline.

(** ** The semaphore as a counter *)

Module SemCount.
Import Kernel Sem.

(** One semaphore and the threads that use it.  [PassP t]: thread [t]
    runs a pass through [P], from its call or from the return of [Sleep];
    [DoV t]: thread [t], which is not inside [P], runs [V]. *)
Inductive Event : Type :=
| PassP (t : tid)
| DoV (t : tid).

(** [inP], [returned] and [signalled] are history variables: which
    threads are inside [P], how many calls of [P] have returned and how
    many calls of [V] were made.  No step reads the two counters. *)
Record State : Type := mkState {
  sem : Semaphore;
  sched : Sched;
  inP : tid -> bool;
  returned : nat;
  signalled : nat
}.

Definition start (initialValue : Z) : State :=
  mkState (Semaphore_new initialValue) (fun _ => READY) (fun _ => false) 0 0.

Definition step (e : Event) (s : State) : State :=
  match e with
  | PassP t =>
    match sched s t with
    | BLOCKED => s
    | READY =>
      let '(sem', sc', o) := P t (sem s) (sched s) in
      match o with
      | Returned => mkState sem' sc' (upd (inP s) t false) (S (returned s)) (signalled s)
      | _ => mkState sem' sc' (upd (inP s) t true) (returned s) (signalled s)
      end
    end
  | DoV t =>
    match sched s t, inP s t with
    | READY, false =>
      let '(sem', sc', _) := V (sem s) (sched s) in
      mkState sem' sc' (inP s) (returned s) (S (signalled s))
    | _, _ => s
    end
  end.

Definition run (es : list Event) (s : State) : State :=
  fold_left (fun s e => step e s) es s.

(** After [n] steps from a semaphore created with [initialValue]. *)
Record Counts (initialValue : Z) (n : nat) (s : State) : Prop := mkCounts {
  balance :
    value (sem s) = initialValue + Z.of_nat (signalled s) - Z.of_nat (returned s);
  not_negative : 0 <= value (sem s);
  few_signals : (signalled s <= n)%nat;
  asleep_queued : forall t, sched s t = BLOCKED -> In t (queue (sem s));
  queued_asleep : forall t, In t (queue (sem s)) -> sched s t = BLOCKED;
  queued_inside : forall t, In t (queue (sem s)) -> inP s t = true;
  queued_once : NoDup (queue (sem s))
}.

Lemma Counts_start (initialValue : Z) :
  0 <= initialValue -> Counts initialValue 0 (start initialValue).
Proof.
  intros H. split; cbn; try lia; try (intros; contradiction).
  - intros t Ht. discriminate.
  - constructor.
Qed.

Lemma NoDup_snoc (q : list tid) (t : tid) :
  NoDup q -> ~ In t q -> NoDup (q ++ [t]).
Proof.
  intros N H. induction N as [|x q Hx N IH]; cbn.
  - constructor; [intros []|constructor].
  - constructor.
    + intros K. apply in_app_or in K. destruct K as [K|[K|[]]]; [auto|].
      apply H. left. symmetry. exact K.
    + apply IH. intros K. apply H. right. exact K.
Qed.

Lemma Counts_step (initialValue : Z) (n : nat) (e : Event) (s : State) :
  initialValue + Z.of_nat n < Int.max_int ->
  Counts initialValue n s -> Counts initialValue (S n) (step e s).
Proof.
  intros Hn C. pose proof C as [B N F A Q I D].
  assert (Keep : Counts initialValue (S n) s) by (split; auto).
  assert (Hmax : Int.max_int = 2147483647) by reflexivity.
  assert (Hmin : Int.min_int = -2147483648) by reflexivity.
  destruct e as [t|t]; cbn.
  - destruct (sched s t) eqn:Hs; [|exact Keep].
    unfold P. destruct (Z.eqb_spec (value (sem s)) 0) as [Hv|Hv].
    + assert (Ht : ~ In t (queue (sem s))).
      { intros K. pose proof (Q t K). congruence. }
      split; cbn; unfold Sleep, Append, upd; auto.
      * intros u. destruct (Nat.eqb_spec u t) as [->|Hne].
        -- intros _. apply in_or_app. right. left. reflexivity.
        -- intros Hu. apply in_or_app. left. auto.
      * intros u Hu. apply in_app_or in Hu.
        destruct (Nat.eqb_spec u t); [reflexivity|].
        destruct Hu as [Hu|[Hu|[]]]; [auto | congruence].
      * intros u Hu. apply in_app_or in Hu.
        destruct (Nat.eqb_spec u t); [reflexivity|].
        destruct Hu as [Hu|[Hu|[]]]; [auto | congruence].
      * apply NoDup_snoc; assumption.
    + assert (Hd : Int.decr (value (sem s)) = value (sem s) - 1).
      { apply Elev.decr_exact; lia. }
      split; cbn; rewrite ?Hd; unfold upd; auto; try lia.
      intros u Hu. destruct (Nat.eqb_spec u t) as [->|Hne]; [|auto].
      pose proof (Q t Hu). congruence.
  - destruct (sched s t) eqn:Hs; [|exact Keep].
    destruct (inP s t) eqn:Hi; [exact Keep|].
    unfold V, V_wake, V_incr.
    assert (Hd : Int.incr (value (sem s)) = value (sem s) + 1).
    { apply Elev.incr_exact; lia. }
    destruct (queue (sem s)) as [|w q] eqn:Hq; cbn; rewrite Hd.
    + split; cbn; auto; try lia; try (intros; contradiction).
    + inversion D as [|? ? Dw Dq]; subst.
      split; cbn; unfold ReadyToRun, upd; auto; try lia.
      * intros u. destruct (Nat.eqb_spec u w); [discriminate|].
        intros Hu. specialize (A u Hu).
        destruct A as [A|A]; [congruence | exact A].
      * intros u Hu. destruct (Nat.eqb_spec u w) as [->|Hne]; [contradiction|].
        apply Q. right. exact Hu.
      * intros u Hu. apply I. right. exact Hu.
Qed.

Lemma Counts_run (initialValue : Z) (es : list Event) :
  forall (n : nat) (s : State),
    initialValue + Z.of_nat (n + length es) <= Int.max_int ->
    Counts initialValue n s ->
    Counts initialValue (n + length es) (run es s).
Proof.
  induction es as [|e es IH]; intros n s Hn C; cbn [run fold_left length] in *.
  - rewrite Nat.add_0_r. exact C.
  - replace (n + S (length es))%nat with (S n + length es)%nat in * by lia.
    apply IH; [exact Hn|]. apply Counts_step; [lia | exact C].
Qed.

(** X18: For a semaphore created with a value that is not negative, as long as
    the number of [V]s cannot push [value] past [INT_MAX]: [value] is the
    initial value plus the number of [V]s made minus the number of [P]s
    that have returned, and it is never negative; so no more calls of [P]
    have returned than the initial value plus the number of [V]s.  The
    queue holds exactly the threads asleep in [P], each once. *)
Theorem semaphore_counts (initialValue : Z) (es : list Event) :
  0 <= initialValue ->
  initialValue + Z.of_nat (length es) <= Int.max_int ->
  let s := run es (start initialValue) in
  value (sem s) = initialValue + Z.of_nat (signalled s) - Z.of_nat (returned s) /\
  0 <= value (sem s) /\
  Z.of_nat (returned s) <= initialValue + Z.of_nat (signalled s) /\
  (forall t, sched s t = BLOCKED <-> In t (queue (sem s))) /\
  (forall t, In t (queue (sem s)) -> inP s t = true) /\
  NoDup (queue (sem s)).
Proof.
  intros H0 Hn. cbv zeta.
  destruct (Counts_run initialValue es 0 (start initialValue) Hn
              (Counts_start initialValue H0)) as [B N F A Q I D].
  repeat split; auto; lia.
Qed.

(** Two threads on a semaphore created with 1: thread 1 gets through,
    thread 2 sleeps until thread 1 makes a [V]. *)
Definition handover : list Event :=
  [PassP 1%nat; PassP 2%nat; DoV 1%nat; PassP 2%nat].

Lemma semaphore_counts_witness :
  let s := run handover (start 1) in
  returned s = 2%nat /\ signalled s = 1%nat /\
  value (sem s) = 1 + Z.of_nat (signalled s) - Z.of_nat (returned s).
Proof.
  assert (H0 : 0 <= 1) by lia.
  assert (Hn : 1 + Z.of_nat (length handover) <= Int.max_int)
    by (vm_compute; discriminate).
  pose proof (semaphore_counts 1 handover H0 Hn) as (A & _).
  exact (conj eq_refl (conj eq_refl A)).
Defined.

End SemCount.

(** ** A waiter released by [V] *)

Module SemResume.
Import Kernel Sem SemCount.

(** *** The body of [V], statement by statement *)

Inductive Stmt : Type :=
| RemoveWaiter      (* [thread = queue->Remove();] *)
| ReadyWaiter       (* [if (thread != NULL) scheduler->ReadyToRun(thread);] *)
| IncrementValue.   (* [value++;] *)

(** The statements of [V] between the two calls of [SetLevel], in the
    order of the source. *)
Definition V_body : list Stmt := [RemoveWaiter; ReadyWaiter; IncrementValue].

(** The semaphore, the scheduler and the local variable [thread] of [V]
    ([None] for NULL). *)
Record Frame : Type := mkFrame {
  the_sem : Semaphore;
  the_sched : Sched;
  thread : option tid
}.

Definition exec (st : Stmt) (f : Frame) : Frame :=
  match st with
  | RemoveWaiter =>
    let (t, q) := Remove (queue (the_sem f)) in
    mkFrame (mkSemaphore (value (the_sem f)) q) (the_sched f) t
  | ReadyWaiter =>
    mkFrame (the_sem f) (wake (thread f) (the_sched f)) (thread f)
  | IncrementValue =>
    mkFrame (mkSemaphore (Int.incr (value (the_sem f))) (queue (the_sem f)))
      (the_sched f) (thread f)
  end.

Definition exec_all (body : list Stmt) (f : Frame) : Frame :=
  fold_left (fun f st => exec st f) body f.

(** At the entry of [V] the local variable holds whatever was there. *)
Definition enter_V (s : Semaphore) (sc : Sched) (junk : option tid) : Frame :=
  mkFrame s sc junk.

(** [Sem.V] is the body run to its end. *)
Lemma V_runs_its_body (s : Semaphore) (sc : Sched) (junk : option tid) :
  V s sc = (the_sem (exec_all V_body (enter_V s sc junk)),
            the_sched (exec_all V_body (enter_V s sc junk)), Returned).
Proof.
  destruct s as [v q]. destruct q as [|w q]; reflexivity.
Qed.

(** *** Released waiters on the thread machine *)

(** A thread that is inside [P] and ready: it slept in [P], a [V] made
    it ready, and it has not run since. *)
Definition released (s : State) (w : tid) : bool :=
  inP s w && match sched s w with READY => true | BLOCKED => false end.

(** C3 as the specification states it: whenever a released waiter
    resumes, it finds [value] incremented (not 0). *)
Definition released_waiter_finds_value : Prop :=
  forall (initialValue : Z) (es : list Event) (w : tid),
    0 <= initialValue ->
    initialValue + Z.of_nat (length es) <= Int.max_int ->
    released (run es (start initialValue)) w = true ->
    value (sem (run es (start initialValue))) <> 0.

(** Thread 1 takes the semaphore, thread 2 sleeps on it, thread 1 makes a
    [V], which releases thread 2, and thread 3 gets through [P] before
    thread 2 runs. *)
Definition overtaken : list Event :=
  [PassP 1%nat; PassP 2%nat; DoV 1%nat; PassP 3%nat].

Lemma counters_grow (es : list Event) :
  forall s : State,
    (signalled s <= signalled (run es s))%nat /\
    (returned s <= returned (run es s))%nat.
Proof.
  induction es as [|e es IH]; intros s; [cbn; split; lia|].
  change (run (e :: es) s) with (run es (step e s)).
  destruct (IH (step e s)) as [A B].
  assert (G : (signalled s <= signalled (step e s))%nat /\
              (returned s <= returned (step e s))%nat).
  { destruct e as [t|t]; cbn.
    - destruct (sched s t); [|split; lia].
      unfold P. destruct (value (sem s) =? 0); cbn; split; lia.
    - destruct (sched s t); [|split; lia].
      destruct (inP s t); [split; lia|].
      unfold V. destruct (V_wake (sem s) (sched s)). cbn. split; lia. }
  split; lia.
Qed.

(** A pass through [P] of a thread that is ready. *)
Lemma PassP_ready (s : State) (t : tid) :
  sched s t = READY ->
  Int.min_int < value (sem s) <= Int.max_int ->
  (value (sem s) = 0 ->
   sched (step (PassP t) s) t = BLOCKED /\
   In t (queue (sem (step (PassP t) s))) /\
   inP (step (PassP t) s) t = true /\
   returned (step (PassP t) s) = returned s /\
   value (sem (step (PassP t) s)) = 0 /\
   step (PassP t) (step (PassP t) s) = step (PassP t) s) /\
  (value (sem s) <> 0 ->
   sched (step (PassP t) s) t = READY /\
   queue (sem (step (PassP t) s)) = queue (sem s) /\
   inP (step (PassP t) s) t = false /\
   returned (step (PassP t) s) = S (returned s) /\
   value (sem (step (PassP t) s)) = value (sem s) - 1).
Proof.
  intros Hr Hv. split; intros H0.
  - assert (E : step (PassP t) s =
                mkState (mkSemaphore (value (sem s)) (queue (sem s) ++ [t]))
                  (Sleep t (sched s)) (upd (inP s) t true)
                  (returned s) (signalled s)).
    { cbn. rewrite Hr. unfold P. rewrite H0. reflexivity. }
    assert (B : Sleep t (sched s) t = BLOCKED).
    { unfold Sleep, upd. rewrite Nat.eqb_refl. reflexivity. }
    rewrite E. cbn [step sched sem inP returned value queue].
    rewrite B. unfold upd. rewrite Nat.eqb_refl.
    repeat split; try reflexivity; try exact H0.
    apply in_or_app. right. left. reflexivity.
  - assert (D : Int.decr (value (sem s)) = value (sem s) - 1)
      by (apply Elev.decr_exact; lia).
    apply Z.eqb_neq in H0.
    assert (E : step (PassP t) s =
                mkState (mkSemaphore (value (sem s) - 1) (queue (sem s)))
                  (sched s) (upd (inP s) t false)
                  (S (returned s)) (signalled s)).
    { cbn. rewrite Hr. unfold P. rewrite H0, D. reflexivity. }
    rewrite E. cbn. unfold upd. rewrite Nat.eqb_refl.
    repeat split; try reflexivity. exact Hr.
Qed.

(** C3 (amended): in [V] the first waiter, if any, is taken off the queue
    and made ready while [value] is still as it was, and [value++] is the
    last statement; [V] runs with interrupts off, so in the first state in
    which the released waiter can run [value] is already incremented and
    the waiter is off the queue, inside [P] and ready.  When the waiter
    resumes, after any number of steps of other threads, [value] is what
    that [V] left, plus the [V]s made since, minus the calls of [P] that
    have returned since: if none has returned, the waiter finds [value >=
    1], decrements it and leaves [P]; if it finds [value == 0] (another
    thread got through [P] first), it queues again and goes back to
    sleep, and a pass of a sleeping thread changes nothing.  [V] always
    returns; a pass through [P] never aborts: a ready thread that finds
    [value == 0] is queued and BLOCKED. *)
Theorem released_waiter_resumes
    (initialValue : Z) (es later : list Event) (u t : tid)
    (junk : option tid) :
  0 <= initialValue ->
  initialValue + Z.of_nat (length es + 1 + length later) <= Int.max_int ->
  let s0 := run es (start initialValue) in
  let s1 := step (DoV u) s0 in
  let s2 := run later s1 in
  sched s0 u = READY ->
  inP s0 u = false ->
  (* inside V: before [value++] the waiter is off the queue and ready *)
  (let f := exec_all (firstn 2 V_body) (enter_V (sem s0) (sched s0) junk) in
   skipn 2 V_body = [IncrementValue] /\
   value (the_sem f) = value (sem s0) /\
   queue (the_sem f) = tl (queue (sem s0)) /\
   (forall w, hd_error (queue (sem s0)) = Some w ->
      the_sched f w = READY /\
      forall x, x <> w -> the_sched f x = sched s0 x) /\
   (queue (sem s0) = [] -> the_sched f = sched s0) /\
   sem s1 = the_sem (exec IncrementValue f) /\
   sched s1 = the_sched (exec IncrementValue f)) /\
  (* the state V leaves *)
  value (sem s1) = value (sem s0) + 1 /\
  (forall w, hd_error (queue (sem s0)) = Some w ->
     sched s0 w = BLOCKED /\ released s0 w = false /\
     released s1 w = true /\ ~ In w (queue (sem s1))) /\
  (* when a released waiter resumes *)
  (signalled s1 <= signalled s2)%nat /\
  (returned s1 <= returned s2)%nat /\
  value (sem s2) =
    value (sem s1) + (Z.of_nat (signalled s2) - Z.of_nat (signalled s1))
                   - (Z.of_nat (returned s2) - Z.of_nat (returned s1)) /\
  (forall w, released s2 w = true ->
     (returned s2 = returned s1 ->
        1 <= value (sem s2) /\
        inP (step (PassP w) s2) w = false /\
        sched (step (PassP w) s2) w = READY /\
        returned (step (PassP w) s2) = S (returned s2) /\
        value (sem (step (PassP w) s2)) = value (sem s2) - 1) /\
     (value (sem s2) = 0 ->
        released (step (PassP w) s2) w = false /\
        sched (step (PassP w) s2) w = BLOCKED /\
        In w (queue (sem (step (PassP w) s2))) /\
        returned (step (PassP w) s2) = returned s2 /\
        value (sem (step (PassP w) s2)) = 0 /\
        step (PassP w) (step (PassP w) s2) = step (PassP w) s2)) /\
  (* V raises no error; P never fails, it only blocks *)
  snd (V (sem s2) (sched s2)) = Returned /\
  snd (P t (sem s2) (sched s2)) <> Aborted /\
  (sched s2 t = READY -> value (sem s2) = 0 ->
     sched (step (PassP t) s2) t = BLOCKED /\
     In t (queue (sem (step (PassP t) s2)))) /\
  (sched s2 t = BLOCKED ->
     step (PassP t) s2 = s2 /\ step (DoV t) s2 = s2).
Proof.
  intros H0 Hn s0 s1 s2 Hu Hi.
  assert (Hmax : Int.max_int = 2147483647) by reflexivity.
  assert (Hmin : Int.min_int = -2147483648) by reflexivity.
  assert (C0 : Counts initialValue (0 + length es) s0).
  { apply Counts_run; [lia|]. apply Counts_start. exact H0. }
  assert (C1 : Counts initialValue (S (0 + length es)) s1).
  { apply Counts_step; [lia | exact C0]. }
  assert (C2 : Counts initialValue (S (0 + length es) + length later) s2).
  { apply Counts_run; [lia | exact C1]. }
  destruct (counters_grow later s1) as [G1 G2]. fold s2 in G1, G2.
  assert (I0 : Int.incr (value (sem s0)) = value (sem s0) + 1).
  { pose proof (balance _ _ _ C0). pose proof (not_negative _ _ _ C0).
    pose proof (few_signals _ _ _ C0). apply Elev.incr_exact; lia. }
  assert (R2 : Int.min_int < value (sem s2) <= Int.max_int).
  { pose proof (balance _ _ _ C2). pose proof (not_negative _ _ _ C2).
    pose proof (few_signals _ _ _ C2). lia. }
  assert (E1 : s1 = mkState (fst (fst (V (sem s0) (sched s0))))
                      (snd (fst (V (sem s0) (sched s0))))
                      (inP s0) (returned s0) (S (signalled s0))).
  { unfold s1. cbn. rewrite Hu, Hi.
    destruct (V (sem s0) (sched s0)) as [[a b] c]. reflexivity. }
  assert (V1 : value (sem s1) = value (sem s0) + 1).
  { rewrite E1. cbn. unfold V, V_wake.
    destruct (Remove (queue (sem s0))). cbn. exact I0. }
  split.
  { cbv zeta. rewrite E1. unfold V, V_wake, enter_V. cbn.
    destruct (sem s0) as [v q]. destruct q as [|w q]; cbn.
    - repeat split; try reflexivity; cbn in *; discriminate.
    - split; [reflexivity|]. split; [reflexivity|]. split; [reflexivity|].
      split; [|split; [intros K; discriminate K | split; reflexivity]].
      intros w' Hw. injection Hw as <-. split.
      + unfold ReadyToRun, upd. rewrite Nat.eqb_refl. reflexivity.
      + intros x Hx. unfold ReadyToRun, upd.
        destruct (Nat.eqb_spec x w); [contradiction | reflexivity]. }
  split; [exact V1|].
  split.
  { intros w Hw.
    assert (Q : exists q, queue (sem s0) = w :: q).
    { destruct (queue (sem s0)) as [|x q]; [discriminate Hw|].
      injection Hw as ->. exists q. reflexivity. }
    destruct Q as [q Hq].
    assert (Bw : sched s0 w = BLOCKED).
    { apply (queued_asleep _ _ _ C0). rewrite Hq. left. reflexivity. }
    assert (Iw : inP s0 w = true).
    { apply (queued_inside _ _ _ C0). rewrite Hq. left. reflexivity. }
    pose proof (queued_once _ _ _ C0) as N. rewrite Hq in N.
    inversion N as [|? ? Nw Nq]; subst.
    split; [exact Bw|]. split.
    { unfold released. rewrite Bw. apply andb_false_r. }
    rewrite E1. unfold released, V, V_wake. rewrite Hq. cbn.
    rewrite Iw. unfold ReadyToRun, upd. rewrite Nat.eqb_refl.
    split; [reflexivity | exact Nw]. }
  split; [exact G1|]. split; [exact G2|].
  split.
  { pose proof (balance _ _ _ C1). pose proof (balance _ _ _ C2). lia. }
  split.
  { intros w Hw. unfold released in Hw. apply andb_prop in Hw.
    destruct Hw as [Hin Hs].
    assert (Hr : sched s2 w = READY)
      by (destruct (sched s2 w); [reflexivity | discriminate]).
    destruct (PassP_ready s2 w Hr R2) as [Z0 NZ]. split.
    - intros Hret.
      assert (Hone : 1 <= value (sem s2)).
      { pose proof (balance _ _ _ C1). pose proof (balance _ _ _ C2).
        pose proof (not_negative _ _ _ C0). lia. }
      destruct NZ as (A & _ & B & C & D); [lia|]. auto.
    - intros Hz. destruct (Z0 Hz) as (A & B & C & D & E & F).
      unfold released. rewrite A, andb_false_r. auto 10. }
  split.
  { unfold V. destruct (V_wake (sem s2) (sched s2)). reflexivity. }
  split.
  { unfold P. destruct (value (sem s2) =? 0); cbn; discriminate. }
  split.
  { intros Hr Hz. destruct (PassP_ready s2 t Hr R2) as [Z0 _].
    destruct (Z0 Hz) as (A & B & _). split; assumption. }
  intros Hb. cbn. rewrite Hb. split; reflexivity.
Qed.

(** C3, refuted as stated: a released waiter can find [value == 0] when
    it resumes.  On a semaphore created with 1, thread 2 is released by
    the [V] of thread 1, thread 3 gets through [P] first, and thread 2 is
    ready inside [P] with [value == 0]. *)
Lemma released_waiter_can_find_zero : ~ released_waiter_finds_value.
Proof.
  intros H.
  assert (H0 : 0 <= 1) by lia.
  assert (Hn : 1 + Z.of_nat (length overtaken) <= Int.max_int)
    by (vm_compute; discriminate).
  apply (H 1 overtaken 2%nat H0 Hn); reflexivity.
Qed.

(** Thread 1 takes the semaphore created with 1, thread 2 sleeps on it;
    thread 1 makes a [V]; thread 3 makes another; thread 2 resumes. *)
Lemma released_waiter_resumes_witness :
  let s1 := step (DoV 1%nat) (run [PassP 1%nat; PassP 2%nat] (start 1)) in
  let s2 := run [DoV 3%nat] s1 in
  released s1 2%nat = true /\
  value (sem s1) = 1 /\
  released s2 2%nat = true /\
  value (sem s2) = 2 /\
  inP (step (PassP 2%nat) s2) 2%nat = false /\
  value (sem (step (PassP 2%nat) s2)) = 1.
Proof.
  assert (H0 : 0 <= 1) by lia.
  assert (Hn : 1 + Z.of_nat (length [PassP 1%nat; PassP 2%nat] + 1 +
                             length [DoV 3%nat]) <= Int.max_int)
    by (vm_compute; discriminate).
  pose proof (released_waiter_resumes 1 [PassP 1%nat; PassP 2%nat]
                [DoV 3%nat] 1%nat 0%nat None H0 Hn eq_refl eq_refl)
    as (_ & _ & A & _ & _ & _ & B & _).
  destruct (A 2%nat eq_refl) as (_ & _ & A1 & _).
  destruct (B 2%nat eq_refl) as (B1 & _).
  destruct (B1 eq_refl) as (_ & B2 & _ & _ & B3).
  exact (conj A1 (conj eq_refl (conj eq_refl (conj eq_refl (conj B2 B3))))).
Defined.

End SemResume.

(** ** The elevator at work *)

Module ElevService.
Import Elev.

Section Service.
Context {EB : EventBarrierOps}.

(** *** [noneedUp], [noneedDown] *)

Lemma noneedUp_loop_spec (n : nat) :
  forall (i0 : Z) (w : World),
    (noneedUp_loop n i0 w = 1 <->
     forall i, i0 <= i < i0 + Z.of_nat n ->
       floorCalledUp (building w) i <> 1 /\ floorCalled (elev w) i <> 1) /\
    (noneedUp_loop n i0 w = 0 \/ noneedUp_loop n i0 w = 1).
Proof.
  induction n as [|n IH]; intros i0 w.
  - cbn. split; [|auto]. split; [intros _ i Hi; lia | reflexivity].
  - cbn [noneedUp_loop].
    destruct (Z.eqb_spec (floorCalledUp (building w) i0) 1) as [Eu|Eu]; cbn.
    { split; [|auto]. split; [discriminate|].
      intros H. destruct (H i0) as [Hu _]; [lia | contradiction]. }
    destruct (Z.eqb_spec (floorCalled (elev w) i0) 1) as [Ec|Ec]; cbn.
    { split; [|auto]. split; [discriminate|].
      intros H. destruct (H i0) as [_ Hc]; [lia | contradiction]. }
    destruct (IH (i0 + 1) w) as [IH1 IH2]. split; [|exact IH2].
    rewrite IH1. split; intros H i Hi.
    + destruct (Z.eq_dec i i0) as [->|Hne]; [auto|]. apply H. lia.
    + apply H. lia.
Qed.

Lemma noneedDown_loop_spec (n : nat) :
  forall (i0 : Z) (w : World),
    (noneedDown_loop n i0 w = 1 <->
     forall i, i0 - Z.of_nat n < i <= i0 ->
       floorCalledDown (building w) i <> 1 /\ floorCalled (elev w) i <> 1) /\
    (noneedDown_loop n i0 w = 0 \/ noneedDown_loop n i0 w = 1).
Proof.
  induction n as [|n IH]; intros i0 w.
  - cbn. split; [|auto]. split; [intros _ i Hi; lia | reflexivity].
  - cbn [noneedDown_loop].
    destruct (Z.eqb_spec (floorCalledDown (building w) i0) 1) as [Eu|Eu]; cbn.
    { split; [|auto]. split; [discriminate|].
      intros H. destruct (H i0) as [Hu _]; [lia | contradiction]. }
    destruct (Z.eqb_spec (floorCalled (elev w) i0) 1) as [Ec|Ec]; cbn.
    { split; [|auto]. split; [discriminate|].
      intros H. destruct (H i0) as [_ Hc]; [lia | contradiction]. }
    destruct (IH (i0 - 1) w) as [IH1 IH2]. split; [|exact IH2].
    rewrite IH1. split; intros H i Hi.
    + destruct (Z.eq_dec i i0) as [->|Hne]; [auto|]. apply H. lia.
    + apply H. lia.
Qed.

Lemma noneed_facts (here : Z) (w : World) :
  (noneedUp here w = 1 <->
   forall i, here < i <= floorCounts (elev w) ->
     floorCalledUp (building w) i <> 1 /\ floorCalled (elev w) i <> 1) /\
  (noneedUp here w = 0 \/ noneedUp here w = 1) /\
  (noneedDown here w = 1 <->
   forall i, 1 <= i < here ->
     floorCalledDown (building w) i <> 1 /\ floorCalled (elev w) i <> 1) /\
  (noneedDown here w = 0 \/ noneedDown here w = 1).
Proof.
  unfold noneedUp, noneedDown.
  destruct (noneedUp_loop_spec (Z.to_nat (floorCounts (elev w) - here)) (here + 1) w)
    as [U1 U2].
  destruct (noneedDown_loop_spec (Z.to_nat (here - 1)) (here - 1) w) as [D1 D2].
  split; [|split; [exact U2|split; [|exact D2]]].
  - rewrite U1. split; intros Hq i Hi; apply Hq; lia.
  - rewrite D1. split; intros Hq i Hi; apply Hq; lia.
Qed.

(** *** What a method leaves alone *)

(** The call buttons and the request counter. *)
Definition same_requests (w w' : World) : Prop :=
  riderRequest (building w') = riderRequest (building w) /\
  (forall i, floorCalledUp (building w') i = floorCalledUp (building w) i) /\
  (forall i, floorCalledDown (building w') i = floorCalledDown (building w) i) /\
  (forall i, floorCalled (elev w') i = floorCalled (elev w) i).

(** Where the car is, where it heads, who is in it. *)
Definition same_car (w w' : World) : Prop :=
  currentfloor (elev w') = currentfloor (elev w) /\
  dir (elev w') = dir (elev w) /\
  occupancy (elev w') = occupancy (elev w) /\
  floorCounts (elev w') = floorCounts (elev w) /\
  elevatorID (elev w') = elevatorID (elev w) /\
  capacity w' = capacity w.

(** *** [OpenDoors] *)

Lemma OpenDoors_facts (w : World) :
  let cf := currentfloor (elev w) in
  let up := dir (elev w) =? 1 in
  let w' := OpenDoors w in
  same_requests w w' /\ same_car w w' /\
  (forall i, elevatorUpID (building w') i =
     if (i =? cf) && (up && in_cells cf (building w)) then elevatorID (elev w)
     else elevatorUpID (building w) i) /\
  (forall i, elevatorDownID (building w') i =
     if (i =? cf) && (negb up && in_cells cf (building w))
     then elevatorID (elev w)
     else elevatorDownID (building w) i) /\
  idCells (building w') = idCells (building w) /\
  overrun (building w') = overrun (building w) || negb (in_cells cf (building w)) /\
  (forall i, exitBar (elev w') i =
     if (i =? cf) && (Waiters (exitBar (elev w) cf) >? 0)
     then Signal (exitBar (elev w) cf) else exitBar (elev w) i) /\
  (forall i, enterBarUp (building w') i =
     if (i =? cf) && ((Waiters (enterBarUp (building w) cf) >? 0) && up)
     then Signal (enterBarUp (building w) cf) else enterBarUp (building w) i) /\
  (forall i, enterBarDown (building w') i =
     if (i =? cf) && ((Waiters (enterBarDown (building w) cf) >? 0)
                      && (dir (elev w) =? 0))
     then Signal (enterBarDown (building w) cf)
     else enterBarDown (building w) i) /\
  trace w' =
    trace w ++ (if up then [EvAcquire upIDLock; EvRelease upIDLock]
                else [EvAcquire downIDLock; EvRelease downIDLock]).
Proof.
  unfold same_requests, same_car, OpenDoors, getelevID, GetUpID, GetDownID,
    write_elevatorUpID, write_elevatorDownID.
  cbv zeta.
  destruct (in_cells (currentfloor (elev w)) (building w)) eqn:Hin;
    destruct (Waiters (exitBar (elev w) (currentfloor (elev w))) >? 0) eqn:Hx;
    destruct (dir (elev w) =? 1) eqn:Hd;
    repeat progress (cbn; rewrite ?Hin, ?Hd);
    destruct (Waiters (enterBarUp (building w) (currentfloor (elev w))) >? 0) eqn:Hu;
    repeat progress (cbn; rewrite ?Hin, ?Hd);
    destruct (Waiters (enterBarDown (building w) (currentfloor (elev w))) >? 0) eqn:Hw;
    cbn; destruct (dir (elev w) =? 0) eqn:H0;
    repeat progress (cbn; rewrite ?Hin, ?Hd);
    rewrite <- ?app_assoc, ?orb_false_r, ?orb_true_r; cbn;
    repeat split; try reflexivity;
    try (rewrite ?orb_false_r, ?orb_true_r; reflexivity);
    intros i; unfold store;
    destruct (i =? currentfloor (elev w)); reflexivity.
Qed.

(** *** [VisitFloor] *)

(** [VisitFloor(floor)] pauses ten time units per floor travelled, up or
    down, puts the car at [floor], resets the inside button of that floor
    and of no other, and leaves the building as it is. *)
Lemma VisitFloor_facts (floor : Z) (w : World) :
  - Int.max_int <= 10 * (floor - currentfloor (elev w)) <= Int.max_int ->
  let w' := VisitFloor floor w in
  trace w' = trace w ++ [EvPause (10 * Z.abs (floor - currentfloor (elev w)))] /\
  currentfloor (elev w') = floor /\
  floorCalled (elev w') floor = 0 /\
  (forall i, i <> floor -> floorCalled (elev w') i = floorCalled (elev w) i) /\
  building w' = building w /\
  dir (elev w') = dir (elev w) /\
  occupancy (elev w') = occupancy (elev w).
Proof.
  intros Hr. unfold VisitFloor. cbv zeta.
  assert (Hmax : Int.max_int = 2147483647) by reflexivity.
  destruct (Z.gtb_spec floor (currentfloor (elev w))) as [Hgt|Hle]; cbn.
  - unfold Int.mul, Int.sub.
    rewrite (wrap_in_range (floor - currentfloor (elev w)))
      by (unfold Int.in_range, Int.min_int; lia).
    rewrite wrap_in_range by (unfold Int.in_range, Int.min_int; lia).
    rewrite Z.abs_eq by lia.
    repeat split; try reflexivity; cbn; unfold store.
    + rewrite Z.eqb_refl. reflexivity.
    + intros i Hi. apply Z.eqb_neq in Hi. rewrite Hi. reflexivity.
  - unfold Int.mul, Int.sub.
    rewrite (wrap_in_range (currentfloor (elev w) - floor))
      by (unfold Int.in_range, Int.min_int; lia).
    rewrite wrap_in_range by (unfold Int.in_range, Int.min_int; lia).
    replace (Z.abs (floor - currentfloor (elev w)))
      with (currentfloor (elev w) - floor) by lia.
    repeat split; try reflexivity; cbn; unfold store.
    + rewrite Z.eqb_refl. reflexivity.
    + intros i Hi. apply Z.eqb_neq in Hi. rewrite Hi. reflexivity.
Qed.

(** *** The car stays in the building *)

(** What the operating loop keeps of the state it starts from. *)
Definition kept (w0 w : World) : Prop :=
  floorCounts (elev w) = floorCounts (elev w0) /\
  elevatorID (elev w) = elevatorID (elev w0) /\
  occupancy (elev w) = occupancy (elev w0) /\
  capacity w = capacity w0 /\
  riderRequest (building w) = riderRequest (building w0) /\
  1 <= currentfloor (elev w) <= floorCounts (elev w0).

Lemma kept_VisitFloor (w0 w : World) (f : Z) :
  kept w0 w -> 1 <= f <= floorCounts (elev w0) -> kept w0 (VisitFloor f w).
Proof.
  unfold kept, VisitFloor. intros (A & B & C & D & E & F) Hf. cbv zeta.
  destruct (f >? currentfloor (elev w)); cbn; repeat split; auto; lia.
Qed.

Lemma kept_OpenDoors (w0 w : World) : kept w0 w -> kept w0 (OpenDoors w).
Proof.
  unfold kept. intros (A & B & C & D & E & F).
  pose proof (OpenDoors_facts w) as H. cbv zeta in H.
  destruct H as ((R & _) & (C1 & C2 & C3 & C4 & C5 & C6) & _).
  rewrite C1, C3, C4, C5, C6, R. repeat split; auto; lia.
Qed.

Lemma kept_CloseDoors (w0 w : World) : kept w0 w -> kept w0 (CloseDoors w).
Proof. unfold kept, CloseDoors. cbn. auto. Qed.

Lemma kept_set_dir (w0 w : World) (d : Z) :
  kept w0 w -> kept w0 (set_elev (set_dir d) w).
Proof. unfold kept. cbn. auto. Qed.

Lemma kept_turn_down (w0 w : World) : kept w0 w -> kept w0 (turn_down w).
Proof.
  unfold kept, turn_down. intros H. cbv zeta.
  match goal with |- context [if ?c then _ else _] => destruct c end; cbn; exact H.
Qed.

Lemma kept_turn_up (w0 w : World) : kept w0 w -> kept w0 (turn_up w).
Proof.
  unfold kept, turn_up. intros H. cbv zeta.
  match goal with |- context [if ?c then _ else _] => destruct c end; cbn; exact H.
Qed.

Lemma kept_up_sweep (w0 : World) (n : nat) :
  forall (i0 : Z) (w : World),
    kept w0 w -> 1 <= i0 -> i0 + Z.of_nat n <= floorCounts (elev w0) + 1 ->
    kept w0 (up_sweep n i0 w).
Proof.
  induction n as [|n IH]; intros i0 w K H1 H2; [exact K|].
  cbn [up_sweep].
  destruct (_ || _); [|apply IH; [exact K | lia | lia]].
  cbv zeta.
  assert (K1 : kept w0 (OpenDoors (VisitFloor i0 w))).
  { apply kept_OpenDoors, kept_VisitFloor; [exact K | lia]. }
  destruct (negb _).
  - apply kept_CloseDoors. destruct (_ =? 1); [apply kept_turn_down|]; exact K1.
  - apply IH; [apply kept_CloseDoors; exact K1 | lia | lia].
Qed.

Lemma kept_down_sweep (w0 : World) (n : nat) :
  forall (i0 : Z) (w : World),
    kept w0 w -> i0 <= floorCounts (elev w0) -> Z.of_nat n <= i0 ->
    kept w0 (down_sweep n i0 w).
Proof.
  induction n as [|n IH]; intros i0 w K H1 H2; [exact K|].
  cbn [down_sweep].
  destruct (_ || _); [|apply IH; [exact K | lia | lia]].
  cbv zeta.
  assert (K1 : kept w0 (OpenDoors (VisitFloor i0 w))).
  { apply kept_OpenDoors, kept_VisitFloor; [exact K | lia]. }
  destruct (negb _).
  - apply kept_CloseDoors. destruct (_ =? 1); [apply kept_turn_up|]; exact K1.
  - apply IH; [apply kept_CloseDoors; exact K1 | lia | lia].
Qed.

Lemma kept_down_check (w0 : World) (n : nat) :
  forall (i0 : Z) (w : World),
    kept w0 w -> i0 <= floorCounts (elev w0) -> Z.of_nat n <= i0 ->
    kept w0 (down_check n i0 w).
Proof.
  induction n as [|n IH]; intros i0 w K H1 H2; [exact K|].
  cbn [down_check].
  destruct (_ =? 1); [|apply IH; [exact K | lia | lia]].
  apply kept_CloseDoors, kept_OpenDoors, kept_set_dir, kept_VisitFloor;
    [exact K | lia].
Qed.

Lemma kept_up_check (w0 : World) (n : nat) :
  forall (i0 : Z) (w : World),
    kept w0 w -> 1 <= i0 -> i0 + Z.of_nat n <= floorCounts (elev w0) + 1 ->
    kept w0 (up_check n i0 w).
Proof.
  induction n as [|n IH]; intros i0 w K H1 H2; [exact K|].
  cbn [up_check].
  destruct (_ =? 1); [|apply IH; [exact K | lia | lia]].
  apply kept_CloseDoors, kept_OpenDoors, kept_set_dir, kept_VisitFloor;
    [exact K | lia].
Qed.

(** X21: An elevator that starts an iteration of its loop between floor 1 and
    the top floor ends it between floor 1 and the top floor, whatever
    buttons are pressed; the iteration changes neither the number of
    floors, nor the occupancy, nor the request counter; and it ends with
    the direction opposite to the one it started with. *)
Theorem Operating_scan_stays_in_building (w : World) :
  1 <= currentfloor (elev w) <= floorCounts (elev w) ->
  let w' := Operating_scan w in
  1 <= currentfloor (elev w') <= floorCounts (elev w') /\
  floorCounts (elev w') = floorCounts (elev w) /\
  occupancy (elev w') = occupancy (elev w) /\
  riderRequest (building w') = riderRequest (building w) /\
  (dir (elev w) = 1 -> dir (elev w') = 0) /\
  (dir (elev w) = 0 -> dir (elev w') = 1) /\
  currentfloor (elev (fst (Operating_iteration w))) = currentfloor (elev w').
Proof.
  intros Hin. cbv zeta.
  assert (K0 : kept w w) by (unfold kept; repeat split; auto; lia).
  assert (K : kept w (Operating_scan w) /\
              (dir (elev w) = 1 -> dir (elev (Operating_scan w)) = 0) /\
              (dir (elev w) = 0 -> dir (elev (Operating_scan w)) = 1)).
  { unfold Operating_scan. cbv zeta.
    destruct (Z.eqb_spec (dir (elev w)) 1) as [D1|D1].
    - pose proof (kept_up_sweep w
        (Z.to_nat (floorCounts (elev w) - currentfloor (elev w)))
        (currentfloor (elev w) + 1) w K0 ltac:(lia) ltac:(lia)) as K1.
      split; [|split; [reflexivity | lia]].
      apply kept_set_dir.
      pose proof K1 as (F & _).
      rewrite F. apply kept_down_check; [exact K1 | lia | lia].
    - destruct (Z.eqb_spec (dir (elev w)) 0) as [D0|D0].
      + pose proof (kept_down_sweep w (Z.to_nat (currentfloor (elev w) - 1))
          (currentfloor (elev w) - 1) w K0 ltac:(lia) ltac:(lia)) as K1.
        split; [|split; [lia | reflexivity]].
        apply kept_set_dir.
        pose proof K1 as (F & _).
        rewrite F. apply kept_up_check; [exact K1 | lia | lia].
      + split; [exact K0 | split; intros; contradiction]. }
  destruct K as ((F & _ & O & _ & R & P) & Dd & Du).
  rewrite F. repeat split; try assumption; try lia.
  unfold Operating_iteration, Operating_park.
  destruct (idle _); reflexivity.
Qed.

(** *** Loops that find nothing *)

Lemma down_sweep_nothing_called (n : nat) :
  forall (i0 : Z) (w : World),
    (forall i, i0 - Z.of_nat n < i <= i0 ->
       floorCalledDown (building w) i <> 1 /\ floorCalled (elev w) i <> 1) ->
    down_sweep n i0 w = w.
Proof.
  induction n as [|n IH]; intros i0 w H; [reflexivity|].
  cbn [down_sweep]. destruct (H i0) as [Hd Hc]; [lia|].
  apply Z.eqb_neq in Hd. apply Z.eqb_neq in Hc. rewrite Hd, Hc. cbn.
  apply IH. intros i Hi. apply H. lia.
Qed.

Lemma down_check_nothing_called (n : nat) :
  forall (i0 : Z) (w : World),
    (forall i, i0 - Z.of_nat n < i <= i0 -> floorCalledDown (building w) i <> 1) ->
    down_check n i0 w = w.
Proof.
  induction n as [|n IH]; intros i0 w H; [reflexivity|].
  cbn [down_check]. assert (Hd := H i0 ltac:(lia)).
  apply Z.eqb_neq in Hd. rewrite Hd.
  apply IH. intros i Hi. apply H. lia.
Qed.

Lemma up_check_nothing_called (n : nat) :
  forall (i0 : Z) (w : World),
    (forall i, i0 <= i < i0 + Z.of_nat n -> floorCalledUp (building w) i <> 1) ->
    up_check n i0 w = w.
Proof.
  induction n as [|n IH]; intros i0 w H; [reflexivity|].
  cbn [up_check]. assert (Hd := H i0 ltac:(lia)).
  apply Z.eqb_neq in Hd. rewrite Hd.
  apply IH. intros i Hi. apply H. lia.
Qed.

Lemma up_check_lowest_call (n : nat) :
  forall (i0 f : Z) (w : World),
    i0 <= f -> f - i0 < Z.of_nat n ->
    floorCalledUp (building w) f = 1 ->
    (forall i, i0 <= i < f -> floorCalledUp (building w) i <> 1) ->
    up_check n i0 w =
    CloseDoors (OpenDoors (set_elev (set_dir 1) (VisitFloor f w))).
Proof.
  induction n as [|n IH]; intros i0 f w Hle Hn Hf Hbelow; [lia|].
  cbn [up_check]. destruct (Z.eq_dec i0 f) as [->|Hne].
  - rewrite Hf. reflexivity.
  - assert (Hn0 : floorCalledUp (building w) i0 <> 1) by (apply Hbelow; lia).
    apply Z.eqb_neq in Hn0. rewrite Hn0.
    apply IH; try lia; try assumption. intros i Hi. apply Hbelow. lia.
Qed.

(** No button pressed on any floor of the building. *)
Definition nothing_called (w : World) : Prop :=
  forall i, 1 <= i <= floorCounts (elev w) ->
    floorCalledUp (building w) i <> 1 /\
    floorCalledDown (building w) i <> 1 /\
    floorCalled (elev w) i <> 1.

(** X22: With no button pressed anywhere, an iteration of the operating loop
    does not move the car and makes no call into the thread system before
    the final test (no pause, no yield): it only reverses the direction.
    The elevator then goes to sleep on the building's condition exactly
    when the request counter and the occupancy are both zero. *)
Theorem Operating_with_nothing_to_do (w : World) :
  1 <= currentfloor (elev w) <= floorCounts (elev w) ->
  dir (elev w) = 0 \/ dir (elev w) = 1 ->
  nothing_called w ->
  Operating_scan w = set_elev (set_dir (1 - dir (elev w))) w /\
  (riderRequest (building w) = 0 /\ occupancy (elev w) = 0 ->
   Operating_iteration w =
     (emit EvWait (emit (EvAcquire lock) (Operating_scan w)), Parked)) /\
  (riderRequest (building w) <> 0 \/ occupancy (elev w) <> 0 ->
   Operating_iteration w =
     (emit (EvRelease lock) (emit (EvAcquire lock) (Operating_scan w)), Running)).
Proof.
  intros Hin Hdir Hn.
  assert (S : Operating_scan w = set_elev (set_dir (1 - dir (elev w))) w).
  { unfold Operating_scan. cbv zeta. destruct Hdir as [D|D]; rewrite D; cbn.
    - rewrite down_sweep_nothing_called.
      2:{ intros i Hi. destruct (Hn i) as (_ & A & B); [lia | auto]. }
      rewrite up_check_nothing_called; [reflexivity|].
      intros i Hi. destruct (Hn i) as (A & _); [lia | auto].
    - rewrite up_sweep_nothing_called.
      2:{ intros i Hi. destruct (Hn i) as (A & _ & B); [lia | auto]. }
      rewrite down_check_nothing_called; [reflexivity|].
      intros i Hi. destruct (Hn i) as (_ & A & _); [lia | auto]. }
  split; [exact S|].
  unfold Operating_iteration, Operating_park, idle. rewrite S. cbn. split.
  - intros [-> ->]. reflexivity.
  - intros [H|H]; apply Z.eqb_neq in H; rewrite H; cbn;
      rewrite ?andb_false_r; reflexivity.
Qed.

(** *** Answering a call *)

(** Arriving at floor [f] and opening the doors. *)
Definition arrive (f : Z) (w : World) : World := OpenDoors (VisitFloor f w).

Lemma arrive_facts (f : Z) (w : World) :
  currentfloor (elev (arrive f w)) = f /\
  dir (elev (arrive f w)) = dir (elev w) /\
  floorCounts (elev (arrive f w)) = floorCounts (elev w) /\
  (forall i, floorCalledUp (building (arrive f w)) i = floorCalledUp (building w) i) /\
  (forall i, floorCalledDown (building (arrive f w)) i
             = floorCalledDown (building w) i) /\
  (forall i, floorCalled (elev (arrive f w)) i
             = if i =? f then 0 else floorCalled (elev w) i).
Proof.
  unfold arrive.
  pose proof (OpenDoors_facts (VisitFloor f w)) as H. cbv zeta in H.
  destruct H as ((_ & U & D & C) & (C1 & C2 & _ & C4 & _) & _).
  assert (V : currentfloor (elev (VisitFloor f w)) = f /\
              dir (elev (VisitFloor f w)) = dir (elev w) /\
              floorCounts (elev (VisitFloor f w)) = floorCounts (elev w) /\
              building (VisitFloor f w) = building w /\
              floorCalled (elev (VisitFloor f w)) = store (floorCalled (elev w)) f 0).
  { unfold VisitFloor. cbv zeta. destruct (f >? _); repeat split; reflexivity. }
  destruct V as (V1 & V2 & V3 & V4 & V5).
  split; [congruence|]. split; [congruence|]. split; [congruence|].
  split; [|split]; intros i.
  - rewrite (U i), V4. reflexivity.
  - rewrite (D i), V4. reflexivity.
  - rewrite (C i), V5. reflexivity.
Qed.

Lemma up_sweep_first_call (n : nat) :
  forall (i0 f : Z) (w : World),
    i0 <= f -> f - i0 < Z.of_nat n ->
    floorCalledUp (building w) f = 1 \/ floorCalled (elev w) f = 1 ->
    (forall i, i0 <= i < f ->
       floorCalledUp (building w) i <> 1 /\ floorCalled (elev w) i <> 1) ->
    noneedUp f (arrive f w) = 1 ->
    floorCalledDown (building w) f <> 1 ->
    up_sweep n i0 w = CloseDoors (arrive f w).
Proof.
  induction n as [|n IH]; intros i0 f w Hle Hn Hf Hbelow Hnn Hd; [lia|].
  cbn [up_sweep]. destruct (Z.eq_dec i0 f) as [->|Hne].
  - assert (Hc : (floorCalledUp (building w) f =? 1)
                 || (floorCalled (elev w) f =? 1) = true).
    { apply orb_true_iff. destruct Hf as [Hf|Hf]; rewrite Hf; auto. }
    rewrite Hc. cbv zeta. fold (arrive f w). rewrite Hnn. cbn.
    destruct (arrive_facts f w) as (_ & _ & _ & _ & D & _). rewrite D.
    apply Z.eqb_neq in Hd. rewrite Hd. reflexivity.
  - destruct (Hbelow i0) as [Hu Hc]; [lia|].
    apply Z.eqb_neq in Hu. apply Z.eqb_neq in Hc. rewrite Hu, Hc. cbn.
    apply IH; try lia; try assumption. intros i Hi. apply Hbelow. lia.
Qed.

Lemma down_sweep_first_call (n : nat) :
  forall (i0 f : Z) (w : World),
    f <= i0 -> i0 - f < Z.of_nat n ->
    floorCalledDown (building w) f = 1 \/ floorCalled (elev w) f = 1 ->
    (forall i, f < i <= i0 ->
       floorCalledDown (building w) i <> 1 /\ floorCalled (elev w) i <> 1) ->
    noneedDown f (arrive f w) = 1 ->
    floorCalledUp (building w) f <> 1 ->
    down_sweep n i0 w = CloseDoors (arrive f w).
Proof.
  induction n as [|n IH]; intros i0 f w Hle Hn Hf Habove Hnn Hd; [lia|].
  cbn [down_sweep]. destruct (Z.eq_dec i0 f) as [->|Hne].
  - assert (Hc : (floorCalledDown (building w) f =? 1)
                 || (floorCalled (elev w) f =? 1) = true).
    { apply orb_true_iff. destruct Hf as [Hf|Hf]; rewrite Hf; auto. }
    rewrite Hc. cbv zeta. fold (arrive f w). rewrite Hnn. cbn.
    destruct (arrive_facts f w) as (_ & _ & _ & U & _ & _). rewrite U.
    apply Z.eqb_neq in Hd. rewrite Hd. reflexivity.
  - destruct (Habove i0) as [Hu Hc]; [lia|].
    apply Z.eqb_neq in Hu. apply Z.eqb_neq in Hc. rewrite Hu, Hc. cbn.
    apply IH; try lia; try assumption. intros i Hi. apply Habove. lia.
Qed.

Lemma OpenDoors_car (w : World) :
  currentfloor (elev (OpenDoors w)) = currentfloor (elev w) /\
  dir (elev (OpenDoors w)) = dir (elev w).
Proof.
  pose proof (OpenDoors_facts w) as H. cbv zeta in H.
  destruct H as (_ & (C1 & C2 & _) & _). auto.
Qed.

Lemma VisitFloor_car (f : Z) (w : World) :
  currentfloor (elev (VisitFloor f w)) = f.
Proof.
  unfold VisitFloor. cbv zeta. destruct (f >? _); reflexivity.
Qed.

Lemma lowest_up_call_served (w : World) (f : Z) :
  dir (elev w) = DOWN ->
  currentfloor (elev w) <= floorCounts (elev w) + 1 ->
  (forall i, 1 <= i < currentfloor (elev w) ->
     floorCalledDown (building w) i <> 1 /\ floorCalled (elev w) i <> 1) ->
  1 <= f <= floorCounts (elev w) ->
  floorCalledUp (building w) f = 1 ->
  (forall i, 1 <= i < f -> floorCalledUp (building w) i <> 1) ->
  Operating_scan w =
    set_elev (set_dir 1)
      (CloseDoors (OpenDoors (set_elev (set_dir 1) (VisitFloor f w)))) /\
  currentfloor (elev (Operating_scan w)) = f /\
  dir (elev (Operating_scan w)) = UP /\
  enterBarUp (building (Operating_scan w)) f =
    Signal_if_waiting (enterBarUp (building w) f) /\
  (f < idCells (building w) ->
   elevatorUpID (building (Operating_scan w)) f = elevatorID (elev w) /\
   overrun (building (Operating_scan w)) = overrun (building w)) /\
  (idCells (building w) <= f ->
   (forall i, elevatorUpID (building (Operating_scan w)) i =
              elevatorUpID (building w) i) /\
   overrun (building (Operating_scan w)) = true).
Proof.
  intros Hd Hcf Hbelow Hf Hup Hlow. unfold DOWN in Hd.
  assert (S : Operating_scan w =
    set_elev (set_dir 1)
      (CloseDoors (OpenDoors (set_elev (set_dir 1) (VisitFloor f w))))).
  { unfold Operating_scan. cbv zeta. rewrite Hd. cbn [Z.eqb].
    rewrite down_sweep_nothing_called.
    2:{ intros i Hi. apply Hbelow. lia. }
    rewrite (up_check_lowest_call _ 1 f); auto; lia. }
  split; [exact S|]. rewrite S.
  pose (v := set_elev (set_dir 1) (VisitFloor f w)).
  assert (Hv1 : currentfloor (elev v) = f) by exact (VisitFloor_car f w).
  assert (Hv2 : dir (elev v) = 1) by reflexivity.
  assert (Hv3 : elevatorID (elev v) = elevatorID (elev w)).
  { subst v. unfold VisitFloor. cbv zeta. destruct (f >? _); reflexivity. }
  assert (Hv4 : building v = building w).
  { subst v. unfold VisitFloor. cbv zeta. destruct (f >? _); reflexivity. }
  pose proof (OpenDoors_facts v) as H. cbv zeta in H.
  destruct H as (_ & (C1 & _) & U & _ & _ & O & _ & BU & _).
  rewrite Hv1, Hv2, Hv3, Hv4 in *. unfold in_cells in *.
  change (currentfloor (elev (OpenDoors v)) = f /\
          1 = UP /\
          enterBarUp (building (OpenDoors v)) f =
            Signal_if_waiting (enterBarUp (building w) f) /\
          (f < idCells (building w) ->
           elevatorUpID (building (OpenDoors v)) f = elevatorID (elev w) /\
           overrun (building (OpenDoors v)) = overrun (building w)) /\
          (idCells (building w) <= f ->
           (forall i, elevatorUpID (building (OpenDoors v)) i =
                      elevatorUpID (building w) i) /\
           overrun (building (OpenDoors v)) = true)).
  split; [exact C1|]. split; [reflexivity|]. split; [|split].
  - rewrite BU, Z.eqb_refl. unfold Signal_if_waiting.
    destruct (Waiters (enterBarUp (building w) f) >? 0); reflexivity.
  - intros Hc. rewrite U, O, Z.eqb_refl.
    destruct (Z.leb_spec 0 f); [|lia].
    destruct (Z.ltb_spec f (idCells (building w))); [|lia].
    cbn. rewrite orb_false_r. split; reflexivity.
  - intros Hc. rewrite O.
    destruct (Z.ltb_spec f (idCells (building w))); [lia|].
    rewrite andb_false_r. cbn. rewrite orb_true_r. split; [|reflexivity].
    intros i. rewrite U.
    destruct (Z.ltb_spec f (idCells (building w))); [lia|].
    rewrite !andb_false_r. reflexivity.
Qed.

(** The general form of the reversal at a down-call. *)
Lemma highest_down_call_served (w : World) (f : Z) :
  dir (elev w) = UP ->
  0 <= currentfloor (elev w) ->
  (forall i, currentfloor (elev w) < i <= floorCounts (elev w) ->
     floorCalledUp (building w) i <> 1 /\ floorCalled (elev w) i <> 1) ->
  1 <= f <= floorCounts (elev w) ->
  floorCalledDown (building w) f = 1 ->
  (forall i, f < i <= floorCounts (elev w) -> floorCalledDown (building w) i <> 1) ->
  Operating_scan w =
    set_elev (set_dir 0)
      (CloseDoors (OpenDoors (set_elev (set_dir 0) (VisitFloor f w)))) /\
  currentfloor (elev (Operating_scan w)) = f.
Proof.
  intros Hd Hcf Habove Hf Hdown Hhigh. unfold UP in Hd.
  assert (S : Operating_scan w =
    set_elev (set_dir 0)
      (CloseDoors (OpenDoors (set_elev (set_dir 0) (VisitFloor f w))))).
  { unfold Operating_scan. cbv zeta. rewrite Hd. cbn [Z.eqb Pos.eqb].
    rewrite up_sweep_nothing_called.
    2:{ intros i Hi. apply Habove. lia. }
    rewrite (down_check_highest_call _ (floorCounts (elev w)) f); auto; lia. }
  split; [exact S|]. rewrite S. cbn.
  destruct (OpenDoors_car (set_elev (set_dir 0) (VisitFloor f w))) as [C1 _].
  rewrite C1. apply VisitFloor_car.
Qed.

Lemma up_sweep_stops_at_call (w : World) (f : Z) :
  dir (elev w) = UP ->
  1 <= f ->
  currentfloor (elev w) < f <= floorCounts (elev w) ->
  floorCalledUp (building w) f = 1 \/ floorCalled (elev w) f = 1 ->
  (forall i, currentfloor (elev w) < i <= floorCounts (elev w) -> i <> f ->
     floorCalledUp (building w) i <> 1 /\ floorCalled (elev w) i <> 1) ->
  (forall i, 1 <= i <= floorCounts (elev w) -> floorCalledDown (building w) i <> 1) ->
  Operating_scan w = set_elev (set_dir 0) (CloseDoors (arrive f w)) /\
  currentfloor (elev (Operating_scan w)) = f /\
  floorCalled (elev (Operating_scan w)) f = 0.
Proof.
  intros Hd Hf1 Hf Hcall Hother Hdown. unfold UP in Hd.
  destruct (arrive_facts f w) as (A1 & A2 & A3 & AU & AD & AC).
  assert (Hnn : noneedUp f (arrive f w) = 1).
  { apply noneed_facts. intros i Hi. rewrite A3 in Hi. rewrite AU, AC.
    destruct (Z.eqb_spec i f); [lia|]. apply Hother; lia. }
  assert (S : Operating_scan w = set_elev (set_dir 0) (CloseDoors (arrive f w))).
  { unfold Operating_scan. cbv zeta. rewrite Hd. cbn [Z.eqb Pos.eqb].
    rewrite (up_sweep_first_call _ (currentfloor (elev w) + 1) f);
      [ | lia | lia | exact Hcall | intros i Hi; apply Hother; lia
        | exact Hnn | apply Hdown; lia ].
    rewrite down_check_nothing_called; [reflexivity|].
    intros i Hi. cbn in Hi |- *. rewrite A3 in Hi. rewrite AD. apply Hdown. lia. }
  split; [exact S|]. rewrite S. cbn. split; [exact A1|].
  rewrite AC, Z.eqb_refl. reflexivity.
Qed.

Lemma down_sweep_stops_at_call (w : World) (f : Z) :
  dir (elev w) = DOWN ->
  1 <= f < currentfloor (elev w) ->
  currentfloor (elev w) <= floorCounts (elev w) + 1 ->
  floorCalledDown (building w) f = 1 \/ floorCalled (elev w) f = 1 ->
  (forall i, 1 <= i < currentfloor (elev w) -> i <> f ->
     floorCalledDown (building w) i <> 1 /\ floorCalled (elev w) i <> 1) ->
  (forall i, 1 <= i <= floorCounts (elev w) -> floorCalledUp (building w) i <> 1) ->
  Operating_scan w = set_elev (set_dir 1) (CloseDoors (arrive f w)) /\
  currentfloor (elev (Operating_scan w)) = f /\
  floorCalled (elev (Operating_scan w)) f = 0.
Proof.
  intros Hd Hf Hcf Hcall Hother Hup. unfold DOWN in Hd.
  destruct (arrive_facts f w) as (A1 & A2 & A3 & AU & AD & AC).
  assert (Hnn : noneedDown f (arrive f w) = 1).
  { apply noneed_facts. intros i Hi. rewrite AD, AC.
    destruct (Z.eqb_spec i f); [lia|]. apply Hother; lia. }
  assert (S : Operating_scan w = set_elev (set_dir 1) (CloseDoors (arrive f w))).
  { unfold Operating_scan. cbv zeta. rewrite Hd. cbn [Z.eqb].
    rewrite (down_sweep_first_call _ (currentfloor (elev w) - 1) f);
      [ | lia | lia | exact Hcall | intros i Hi; apply Hother; lia
        | exact Hnn | apply Hup; lia ].
    rewrite up_check_nothing_called; [reflexivity|].
    intros i Hi. unfold CloseDoors in Hi |- *. cbn [emit elev building] in Hi |- *.
    rewrite A3 in Hi. rewrite AU. apply Hup. lia. }
  split; [exact S|]. rewrite S. cbn. split; [exact A1|].
  rewrite AC, Z.eqb_refl. reflexivity.
Qed.

Lemma scan_up_nothing (w : World) :
  dir (elev w) = 1 ->
  0 <= currentfloor (elev w) ->
  (forall i, currentfloor (elev w) < i <= floorCounts (elev w) ->
     floorCalledUp (building w) i <> 1 /\ floorCalled (elev w) i <> 1) ->
  (forall i, 1 <= i <= floorCounts (elev w) -> floorCalledDown (building w) i <> 1) ->
  Operating_scan w = set_elev (set_dir 0) w.
Proof.
  intros Hd Hcf Hup Hdown. unfold Operating_scan. cbv zeta.
  rewrite Hd. cbn [Z.eqb Pos.eqb].
  rewrite up_sweep_nothing_called by (intros i Hi; apply Hup; lia).
  rewrite down_check_nothing_called by (intros i Hi; apply Hdown; lia).
  reflexivity.
Qed.

Lemma scan_down_nothing (w : World) :
  dir (elev w) = 0 ->
  currentfloor (elev w) <= floorCounts (elev w) + 1 ->
  (forall i, 1 <= i < currentfloor (elev w) ->
     floorCalledDown (building w) i <> 1 /\ floorCalled (elev w) i <> 1) ->
  (forall i, 1 <= i <= floorCounts (elev w) -> floorCalledUp (building w) i <> 1) ->
  Operating_scan w = set_elev (set_dir 1) w.
Proof.
  intros Hd Hcf Hdown Hup. unfold Operating_scan. cbv zeta.
  rewrite Hd. cbn [Z.eqb].
  rewrite down_sweep_nothing_called by (intros i Hi; apply Hdown; lia).
  rewrite up_check_nothing_called by (intros i Hi; apply Hup; lia).
  reflexivity.
Qed.

Lemma CallUp_facts (f : Z) (w : World) :
  elev (CallUp f w) = elev w /\
  (forall i, floorCalledUp (building (CallUp f w)) i =
             if i =? f then 1 else floorCalledUp (building w) i) /\
  (forall i, floorCalledDown (building (CallUp f w)) i
             = floorCalledDown (building w) i) /\
  riderRequest (building (CallUp f w)) = Int.incr (riderRequest (building w)) /\
  trace (CallUp f w) = trace w ++ [EvAcquire lock; EvBroadcast; EvRelease lock].
Proof.
  unfold CallUp. cbn. rewrite <- !app_assoc. repeat split; reflexivity.
Qed.

Lemma CallDown_facts (f : Z) (w : World) :
  elev (CallDown f w) = elev w /\
  (forall i, floorCalledDown (building (CallDown f w)) i =
             if i =? f then 1 else floorCalledDown (building w) i) /\
  (forall i, floorCalledUp (building (CallDown f w)) i
             = floorCalledUp (building w) i) /\
  riderRequest (building (CallDown f w)) = Int.incr (riderRequest (building w)) /\
  trace (CallDown f w) = trace w ++ [EvAcquire lock; EvBroadcast; EvRelease lock].
Proof.
  unfold CallDown. cbn. rewrite <- !app_assoc. repeat split; reflexivity.
Qed.

(** X26: An up-call on a building where nothing else is pressed is answered
    within two iterations of the operating loop: in the first one when the
    elevator heads down, or heads up and the call comes from above it;
    otherwise the first iteration only reverses the direction and the
    second one brings the car to the floor of the call. *)
Theorem CallUp_is_answered (w0 : World) (f : Z) :
  1 <= currentfloor (elev w0) <= floorCounts (elev w0) ->
  dir (elev w0) = DOWN \/ dir (elev w0) = UP ->
  1 <= f <= floorCounts (elev w0) ->
  nothing_called w0 ->
  let w := CallUp f w0 in
  (dir (elev w0) = DOWN \/ currentfloor (elev w0) < f ->
   currentfloor (elev (Operating_scan w)) = f) /\
  (dir (elev w0) = UP /\ f <= currentfloor (elev w0) ->
   currentfloor (elev (Operating_scan w)) = currentfloor (elev w0) /\
   currentfloor (elev (Operating_scan (Operating_scan w))) = f).
Proof.
  intros Hcf Hdir Hf Hn. cbv zeta.
  destruct (CallUp_facts f w0) as (E & U & D & _).
  set (w := CallUp f w0) in *.
  assert (Hup : floorCalledUp (building w) f = 1) by (rewrite U, Z.eqb_refl; reflexivity).
  assert (Hother : forall i, 1 <= i <= floorCounts (elev w0) -> i <> f ->
            floorCalledUp (building w) i <> 1).
  { intros i Hi Hne. rewrite U. apply Z.eqb_neq in Hne. rewrite Hne. apply Hn. lia. }
  assert (Hdown : forall i, 1 <= i <= floorCounts (elev w0) ->
            floorCalledDown (building w) i <> 1 /\ floorCalled (elev w) i <> 1).
  { intros i Hi. rewrite D, E. destruct (Hn i Hi) as (_ & A & B). auto. }
  assert (Down : forall v, dir (elev v) = DOWN ->
            currentfloor (elev v) = currentfloor (elev w0) ->
            floorCounts (elev v) = floorCounts (elev w0) ->
            floorCalled (elev v) = floorCalled (elev w) ->
            building v = building w ->
            currentfloor (elev (Operating_scan v)) = f).
  { intros v Hv Cv Fv Iv Bv.
    refine (proj1 (proj2 (lowest_up_call_served v f Hv _ _ _ _ _))).
    - lia.
    - intros i Hi. rewrite Iv, Bv. apply Hdown. lia.
    - lia.
    - rewrite Bv. exact Hup.
    - intros i Hi. rewrite Bv. apply Hother; lia. }
  assert (Hw : currentfloor (elev w) = currentfloor (elev w0) /\
               floorCounts (elev w) = floorCounts (elev w0) /\
               dir (elev w) = dir (elev w0)) by (rewrite E; auto).
  destruct Hw as (Hc & Hfc & Hdd).
  split.
  - intros Hcase.
    destruct (Z.eq_dec (dir (elev w0)) DOWN) as [Hd|Hd].
    + apply Down; auto; congruence.
    + assert (Hu : dir (elev w0) = UP) by (destruct Hdir; congruence).
      assert (Habove : currentfloor (elev w0) < f) by (destruct Hcase; congruence).
      refine (proj1 (proj2 (up_sweep_stops_at_call w f _ _ _ _ _ _))).
      * congruence.
      * lia.
      * lia.
      * left. exact Hup.
      * intros i Hi Hne. split; [apply Hother; lia | apply Hdown; lia].
      * intros i Hi. apply Hdown. lia.
  - intros [Hd Hbelow].
    assert (S : Operating_scan w = set_elev (set_dir 0) w).
    { apply scan_up_nothing.
      - unfold UP in Hd. congruence.
      - lia.
      - intros i Hi. split; [apply Hother; lia | apply Hdown; lia].
      - intros i Hi. apply Hdown. lia. }
    rewrite S. split; [cbn; exact Hc|].
    apply Down; auto.
Qed.

(** X27: A down-call on a building where nothing else is pressed is answered
    within two iterations of the operating loop: in the first one when the
    elevator heads up, or heads down and the call comes from below it;
    otherwise in the second one. *)
Theorem CallDown_is_answered (w0 : World) (f : Z) :
  1 <= currentfloor (elev w0) <= floorCounts (elev w0) ->
  dir (elev w0) = DOWN \/ dir (elev w0) = UP ->
  1 <= f <= floorCounts (elev w0) ->
  nothing_called w0 ->
  let w := CallDown f w0 in
  (dir (elev w0) = UP \/ f < currentfloor (elev w0) ->
   currentfloor (elev (Operating_scan w)) = f) /\
  (dir (elev w0) = DOWN /\ currentfloor (elev w0) <= f ->
   currentfloor (elev (Operating_scan w)) = currentfloor (elev w0) /\
   currentfloor (elev (Operating_scan (Operating_scan w))) = f).
Proof.
  intros Hcf Hdir Hf Hn. cbv zeta.
  destruct (CallDown_facts f w0) as (E & D & U & _).
  set (w := CallDown f w0) in *.
  assert (Hdn : floorCalledDown (building w) f = 1)
    by (rewrite D, Z.eqb_refl; reflexivity).
  assert (Hother : forall i, 1 <= i <= floorCounts (elev w0) -> i <> f ->
            floorCalledDown (building w) i <> 1).
  { intros i Hi Hne. rewrite D. apply Z.eqb_neq in Hne. rewrite Hne. apply Hn. lia. }
  assert (Hup : forall i, 1 <= i <= floorCounts (elev w0) ->
            floorCalledUp (building w) i <> 1 /\ floorCalled (elev w) i <> 1).
  { intros i Hi. rewrite U, E. destruct (Hn i Hi) as (A & _ & B). auto. }
  assert (Up : forall v, dir (elev v) = UP ->
            currentfloor (elev v) = currentfloor (elev w0) ->
            floorCounts (elev v) = floorCounts (elev w0) ->
            floorCalled (elev v) = floorCalled (elev w) ->
            building v = building w ->
            currentfloor (elev (Operating_scan v)) = f).
  { intros v Hv Cv Fv Iv Bv.
    refine (proj2 (highest_down_call_served v f Hv _ _ _ _ _)).
    - lia.
    - intros i Hi. rewrite Iv, Bv. apply Hup. lia.
    - lia.
    - rewrite Bv. exact Hdn.
    - intros i Hi. rewrite Bv. apply Hother; lia. }
  assert (Hw : currentfloor (elev w) = currentfloor (elev w0) /\
               floorCounts (elev w) = floorCounts (elev w0) /\
               dir (elev w) = dir (elev w0)) by (rewrite E; auto).
  destruct Hw as (Hc & Hfc & Hdd).
  split.
  - intros Hcase.
    destruct (Z.eq_dec (dir (elev w0)) UP) as [Hu|Hu].
    + apply Up; auto; congruence.
    + assert (Hd : dir (elev w0) = DOWN) by (destruct Hdir; congruence).
      assert (Hbelow : f < currentfloor (elev w0)) by (destruct Hcase; congruence).
      refine (proj1 (proj2 (down_sweep_stops_at_call w f _ _ _ _ _ _))).
      * congruence.
      * lia.
      * lia.
      * left. exact Hdn.
      * intros i Hi Hne. split; [apply Hother; lia | apply Hup; lia].
      * intros i Hi. apply Hup. lia.
  - intros [Hd Habove].
    assert (S : Operating_scan w = set_elev (set_dir 1) w).
    { apply scan_down_nothing.
      - unfold DOWN in Hd. congruence.
      - lia.
      - intros i Hi. split; [apply Hother; lia | apply Hup; lia].
      - intros i Hi. apply Hup. lia. }
    rewrite S. split; [cbn; exact Hc|].
    apply Up; auto.
Qed.

(** *** The methods of the elevator, one by one *)

(** X19: [noneedUp(here)] is 1 when no floor above [here], up to the top floor,
    has an up-call or an inside destination, and 0 otherwise;
    [noneedDown(here)] is 1 when no floor below [here], down to floor 1,
    has a down-call or an inside destination, and 0 otherwise. *)
Theorem noneed_spec (here : Z) (w : World) :
  (noneedUp here w = 1 <->
   forall i, here < i <= floorCounts (elev w) ->
     floorCalledUp (building w) i <> 1 /\ floorCalled (elev w) i <> 1) /\
  (noneedUp here w = 0 \/ noneedUp here w = 1) /\
  (noneedDown here w = 1 <->
   forall i, 1 <= i < here ->
     floorCalledDown (building w) i <> 1 /\ floorCalled (elev w) i <> 1) /\
  (noneedDown here w = 0 \/ noneedDown here w = 1).
Proof.
  exact (noneed_facts here w).
Qed.



(** X24: On its way up the elevator stops at the first floor above it that has
    an up-call or an inside destination; when nothing further up is called
    and no floor has a down-call, the iteration ends there. *)
Theorem up_sweep_serves_call (w : World) (f : Z) :
  dir (elev w) = UP ->
  1 <= f ->
  currentfloor (elev w) < f <= floorCounts (elev w) ->
  floorCalledUp (building w) f = 1 \/ floorCalled (elev w) f = 1 ->
  (forall i, currentfloor (elev w) < i <= floorCounts (elev w) -> i <> f ->
     floorCalledUp (building w) i <> 1 /\ floorCalled (elev w) i <> 1) ->
  (forall i, 1 <= i <= floorCounts (elev w) -> floorCalledDown (building w) i <> 1) ->
  Operating_scan w = set_elev (set_dir 0) (CloseDoors (arrive f w)) /\
  currentfloor (elev (Operating_scan w)) = f /\
  floorCalled (elev (Operating_scan w)) f = 0.
Proof.
  exact (up_sweep_stops_at_call w f).
Qed.

(** X25: On its way down the elevator stops at the first floor below it that
    has a down-call or an inside destination; when nothing further down is
    called and no floor has an up-call, the iteration ends there. *)
Theorem down_sweep_serves_call (w : World) (f : Z) :
  dir (elev w) = DOWN ->
  1 <= f < currentfloor (elev w) ->
  currentfloor (elev w) <= floorCounts (elev w) + 1 ->
  floorCalledDown (building w) f = 1 \/ floorCalled (elev w) f = 1 ->
  (forall i, 1 <= i < currentfloor (elev w) -> i <> f ->
     floorCalledDown (building w) i <> 1 /\ floorCalled (elev w) i <> 1) ->
  (forall i, 1 <= i <= floorCounts (elev w) -> floorCalledUp (building w) i <> 1) ->
  Operating_scan w = set_elev (set_dir 1) (CloseDoors (arrive f w)) /\
  currentfloor (elev (Operating_scan w)) = f /\
  floorCalled (elev (Operating_scan w)) f = 0.
Proof.
  exact (down_sweep_stops_at_call w f).
Qed.

(** *** [Building::Building]

    The constructor builds the elevators first and then clears the call
    buttons of the floors 1 to [numFloors] and creates their barriers.
    [raw] is the object before construction; the two arrays of elevator
    identifiers are allocated and not written.  The locks and the
    condition it creates belong to the thread system. *)
Fixpoint Building_loop (n : nat) (i : Z) (b : Building) : Building :=
  match n with
  | O => b
  | S n' =>
    Building_loop n' (i + 1)
      (set_enterBarDown i eb_new
         (set_enterBarUp i eb_new
            (set_floorCalledDown i 0 (set_floorCalledUp i 0 b))))
  end.

Definition Building_new (raw : Building) (numFloors : Z) : Building :=
  Building_loop (Z.to_nat numFloors) 1
    (mkBuilding 0 (floorCalledUp raw) (floorCalledDown raw) (enterBarUp raw)
       (enterBarDown raw) (elevatorUpID raw) (elevatorDownID raw)
       numFloors false).

(** The building with its elevator 0 (the one [StartElevator] runs), as
    the constructor leaves them. *)
Definition constructed (rawb : Building) (rawe : Elevator) (numFloors cap : Z)
  : World :=
  mkWorld (Elevator_new rawe numFloors 0) (Building_new rawb numFloors) cap [].

Definition written (i : Z) (n : nat) (j : Z) : bool :=
  (i <=? j) && (j <? i + Z.of_nat n).

Lemma written_step (i : Z) (n : nat) (j : Z) :
  written i (S n) j = (j =? i) || written (i + 1) n j.
Proof.
  unfold written.
  destruct (Z.eqb_spec j i); destruct (Z.leb_spec i j);
    destruct (Z.ltb_spec j (i + Z.of_nat (S n)));
    destruct (Z.leb_spec (i + 1) j);
    destruct (Z.ltb_spec j (i + 1 + Z.of_nat n)); cbn; try reflexivity; lia.
Qed.

Lemma ctor_loop_cells (n : nat) :
  forall (i : Z) (e : Elevator) (j : Z),
    floorCalled (ctor_loop n i e) j
      = (if written i n j then 0 else floorCalled e j) /\
    exitBar (ctor_loop n i e) j
      = (if written i n j then eb_new else exitBar e j) /\
    floorCounts (ctor_loop n i e) = floorCounts e /\
    elevatorID (ctor_loop n i e) = elevatorID e.
Proof.
  induction n as [|n IH]; intros i e j.
  - cbn. unfold written. replace (j <? i + Z.of_nat 0) with (j <? i)
      by (f_equal; lia).
    destruct (Z.leb_spec i j); destruct (Z.ltb_spec j i); cbn; auto; lia.
  - cbn [ctor_loop].
    destruct (IH (i + 1) (set_exitBar i eb_new (set_floorCalled i 0 e)) j)
      as (A & B & C & D).
    rewrite A, B, C, D, written_step. cbn. unfold store.
    destruct (j =? i); destruct (written (i + 1) n j); cbn; auto.
Qed.

Lemma Building_loop_cells (n : nat) :
  forall (i : Z) (b : Building) (j : Z),
    floorCalledUp (Building_loop n i b) j
      = (if written i n j then 0 else floorCalledUp b j) /\
    floorCalledDown (Building_loop n i b) j
      = (if written i n j then 0 else floorCalledDown b j) /\
    enterBarUp (Building_loop n i b) j
      = (if written i n j then eb_new else enterBarUp b j) /\
    enterBarDown (Building_loop n i b) j
      = (if written i n j then eb_new else enterBarDown b j) /\
    riderRequest (Building_loop n i b) = riderRequest b /\
    elevatorUpID (Building_loop n i b) = elevatorUpID b /\
    elevatorDownID (Building_loop n i b) = elevatorDownID b.
Proof.
  induction n as [|n IH]; intros i b j.
  - cbn. unfold written. replace (j <? i + Z.of_nat 0) with (j <? i)
      by (f_equal; lia).
    destruct (Z.leb_spec i j); destruct (Z.ltb_spec j i); cbn;
      repeat split; auto; lia.
  - cbn [Building_loop].
    destruct (IH (i + 1)
                (set_enterBarDown i eb_new
                   (set_enterBarUp i eb_new
                      (set_floorCalledDown i 0 (set_floorCalledUp i 0 b)))) j)
      as (A & B & C & D & E & F & G).
    rewrite A, B, C, D, E, F, G, written_step. cbn. unfold store.
    destruct (j =? i); destruct (written (i + 1) n j); cbn; repeat split; auto.
Qed.

Lemma written_floors (numFloors j : Z) :
  written 1 (Z.to_nat numFloors) j = (1 <=? j) && (j <=? numFloors).
Proof.
  unfold written.
  destruct (Z.leb_spec 1 j); destruct (Z.ltb_spec j (1 + Z.of_nat (Z.to_nat numFloors)));
    destruct (Z.leb_spec j numFloors); cbn; try reflexivity; lia.
Qed.

(** X28: A building as constructed: the car is at floor 1, empty, heading down;
    the request counter is 0; on the floors 1 to [numFloors] no button is
    pressed and every barrier is new, and no cell of any other floor is
    written.  The first iteration of the operating loop moves nothing: it
    turns the direction to up, and the elevator thread goes to sleep on
    the condition of the building. *)
Theorem constructed_building_is_idle
  (rawb : Building) (rawe : Elevator) (numFloors cap : Z) :
  let w := constructed rawb rawe numFloors cap in
  (currentfloor (elev w) = 1 /\ occupancy (elev w) = 0 /\ dir (elev w) = DOWN /\
   floorCounts (elev w) = numFloors /\ elevatorID (elev w) = 0 /\
   riderRequest (building w) = 0 /\ trace w = []) /\
  (forall i, 1 <= i <= numFloors ->
     floorCalled (elev w) i = 0 /\ floorCalledUp (building w) i = 0 /\
     floorCalledDown (building w) i = 0 /\ exitBar (elev w) i = eb_new /\
     enterBarUp (building w) i = eb_new /\ enterBarDown (building w) i = eb_new) /\
  (forall i, ~ 1 <= i <= numFloors ->
     floorCalled (elev w) i = floorCalled rawe i /\
     floorCalledUp (building w) i = floorCalledUp rawb i /\
     floorCalledDown (building w) i = floorCalledDown rawb i /\
     exitBar (elev w) i = exitBar rawe i /\
     enterBarUp (building w) i = enterBarUp rawb i /\
     enterBarDown (building w) i = enterBarDown rawb i) /\
  Operating_iteration w =
    (emit EvWait (emit (EvAcquire lock) (set_elev (set_dir UP) w)), Parked).
Proof.
  cbv zeta. unfold constructed.
  set (e0 := mkElevator 1 0 numFloors 0 0 (floorCalled rawe) (exitBar rawe)).
  set (b0 := mkBuilding 0 (floorCalledUp rawb) (floorCalledDown rawb)
               (enterBarUp rawb) (enterBarDown rawb) (elevatorUpID rawb)
               (elevatorDownID rawb) numFloors false).
  assert (EC : forall j, _) by exact (ctor_loop_cells (Z.to_nat numFloors) 1 e0).
  assert (BC : forall j, _) by exact (Building_loop_cells (Z.to_nat numFloors) 1 b0).
  destruct (ctor_loop_scalars (Z.to_nat numFloors) 1 e0) as (S1 & S2 & S3).
  change (currentfloor e0) with 1 in S1. change (dir e0) with 0 in S2.
  change (occupancy e0) with 0 in S3.
  change (Elevator_new rawe numFloors 0) with (ctor_loop (Z.to_nat numFloors) 1 e0).
  change (Building_new rawb numFloors) with (Building_loop (Z.to_nat numFloors) 1 b0).
  set (e := ctor_loop (Z.to_nat numFloors) 1 e0) in *.
  set (b := Building_loop (Z.to_nat numFloors) 1 b0) in *.
  assert (In_range : forall i, 1 <= i <= numFloors ->
            written 1 (Z.to_nat numFloors) i = true).
  { intros i Hi. rewrite written_floors.
    destruct (Z.leb_spec 1 i); destruct (Z.leb_spec i numFloors); cbn; auto; lia. }
  assert (Out_range : forall i, ~ 1 <= i <= numFloors ->
            written 1 (Z.to_nat numFloors) i = false).
  { intros i Hi. rewrite written_floors.
    destruct (Z.leb_spec 1 i); destruct (Z.leb_spec i numFloors); cbn; auto; lia. }
  assert (Fc : floorCounts e = numFloors)
    by (destruct (EC 0) as (_ & _ & F & _); exact F).
  assert (Id : elevatorID e = 0) by (destruct (EC 0) as (_ & _ & _ & F); exact F).
  assert (Rr : riderRequest b = 0)
    by (destruct (BC 0) as (_ & _ & _ & _ & F & _); exact F).
  cbn [elev building trace].
  split; [repeat split; auto|]. split; [|split].
  - intros i Hi. destruct (EC i) as (A & B & _). destruct (BC i) as (C & D & E & F & _).
    rewrite A, B, C, D, E, F, (In_range i Hi). repeat split; reflexivity.
  - intros i Hi. destruct (EC i) as (A & B & _). destruct (BC i) as (C & D & E & F & _).
    rewrite A, B, C, D, E, F, (Out_range i Hi). repeat split; reflexivity.
  - unfold Operating_iteration, Operating_park, Operating_scan. cbv zeta.
    cbn [elev building set_elev emit]. rewrite S1, S2. cbn [Z.eqb].
    change (Z.to_nat (1 - 1)) with 0%nat. cbn [down_sweep elev]. rewrite Fc.
    rewrite up_check_nothing_called.
    2:{ intros i Hi. cbn [building]. destruct (BC i) as (C & _). rewrite C.
        rewrite In_range by lia. discriminate. }
    unfold idle. cbn [elev building set_elev emit set_dir occupancy].
    rewrite Rr, S3. reflexivity.
Qed.

(** *** [Enter] on the way down *)

(** X29: With the elevator heading down ([dir] is not 1), [Enter] clears the
    down button of the floor whether it lets the rider in or not, leaves
    every up button as it is, and completes the down-barrier of the
    floor and no other barrier. *)
Theorem Enter_heading_down_effects (w : World) :
  dir (elev w) <> 1 ->
  1 <= riderRequest (building w) <= Int.max_int ->
  let cf := currentfloor (elev w) in
  let w' := world_of (Enter w) in
  (exists ok, Enter w = Ret ok w' /\
     (ok = true <-> occupancy (elev w) < capacity w)) /\
  floorCalledDown (building w') cf = 0 /\
  (forall i, i <> cf ->
     floorCalledDown (building w') i = floorCalledDown (building w) i) /\
  (forall i, floorCalledUp (building w') i = floorCalledUp (building w) i) /\
  enterBarDown (building w') cf = Complete (enterBarDown (building w) cf) /\
  (forall i, i <> cf ->
     enterBarDown (building w') i = enterBarDown (building w) i) /\
  (forall i, enterBarUp (building w') i = enterBarUp (building w) i) /\
  riderRequest (building w') = riderRequest (building w) - 1.
Proof.
  intros Hd Hr. cbv zeta. apply Z.eqb_neq in Hd.
  assert (Hmin : Int.min_int = -2147483648) by reflexivity.
  assert (Hdec : Int.decr (riderRequest (building w)) = riderRequest (building w) - 1)
    by (apply decr_exact; lia).
  unfold Enter. cbn. rewrite Hd, Hdec.
  destruct (Z.geb_spec (riderRequest (building w) - 1) 0) as [_|Hneg]; [|lia].
  cbn.
  destruct (Z.ltb_spec (occupancy (elev w)) (capacity w)) as [Hlt|Hge];
    cbn; unfold store; rewrite ?Z.eqb_refl.
  - split; [exists true; split; [reflexivity | split; auto]|].
    repeat split; try reflexivity;
      try (intros i Hi; apply Z.eqb_neq in Hi; rewrite Hi; reflexivity);
      exact Hdec.
  - split; [exists false; split; [reflexivity | split; [discriminate | lia]]|].
    repeat split; try reflexivity;
      try (intros i Hi; apply Z.eqb_neq in Hi; rewrite Hi; reflexivity);
      exact Hdec.
Qed.

(** *** A call and the sleeping elevator *)

(** X30: [CallUp] and [CallDown] count the request, press the button of the
    floor and broadcast on the condition of the building under its lock;
    after either call the test the elevator makes when it wakes up (or
    before it would go to sleep) finds a request, so the elevator goes on
    running. *)
Theorem call_wakes_the_elevator (f : Z) (w : World) :
  0 <= riderRequest (building w) < Int.max_int ->
  let served w' :=
      riderRequest (building w') = riderRequest (building w) + 1 /\
      elev w' = elev w /\
      trace w' = trace w ++ [EvAcquire lock; EvBroadcast; EvRelease lock] /\
      idle w' = false /\
      Operating_wake w' = (emit (EvRelease lock) w', Running) /\
      snd (Operating_park w') = Running in
  served (CallUp f w) /\ served (CallDown f w) /\
  floorCalledUp (building (CallUp f w)) f = 1 /\
  floorCalledDown (building (CallDown f w)) f = 1.
Proof.
  intros Hr. cbv zeta.
  assert (Hmin : Int.min_int = -2147483648) by reflexivity.
  assert (Hinc : Int.incr (riderRequest (building w)) = riderRequest (building w) + 1)
    by (apply incr_exact; lia).
  destruct (CallUp_facts f w) as (E1 & U1 & _ & R1 & T1).
  destruct (CallDown_facts f w) as (E2 & D2 & _ & R2 & T2).
  assert (I : forall w', riderRequest (building w') = riderRequest (building w) + 1 ->
                idle w' = false /\
                Operating_wake w' = (emit (EvRelease lock) w', Running) /\
                snd (Operating_park w') = Running).
  { intros w' R. assert (Hi : idle w' = false).
    { unfold idle. rewrite R.
      destruct (Z.eqb_spec (riderRequest (building w) + 1) 0); [lia | reflexivity]. }
    split; [exact Hi|]. unfold Operating_wake, Operating_park. cbv zeta.
    change (idle (emit (EvAcquire lock) w')) with (idle w').
    rewrite Hi. split; reflexivity. }
  rewrite Hinc in R1, R2.
  split; [|split; [|split]].
  - split; [exact R1|]. split; [exact E1|]. split; [exact T1|]. apply I. exact R1.
  - split; [exact R2|]. split; [exact E2|]. split; [exact T2|]. apply I. exact R2.
  - rewrite U1, Z.eqb_refl. reflexivity.
  - rewrite D2, Z.eqb_refl. reflexivity.
Qed.

End Service.

(** *** The theorems on the five-floor building *)

Lemma world0_inside_buttons (i : Z) :
  1 <= i <= 5 -> floorCalled (elev world0) i = 0.
Proof.
  intros Hi. assert (Hc : i = 1 \/ i = 2 \/ i = 3 \/ i = 4 \/ i = 5) by lia.
  destruct Hc as [->|[->|[->|[->| ->]]]]; reflexivity.
Qed.

Lemma world0_nothing_called : nothing_called world0.
Proof.
  intros i Hi. change (floorCounts (elev world0)) with 5 in Hi.
  rewrite (world0_inside_buttons i Hi). repeat split; discriminate.
Qed.

Lemma set_dir_inside_buttons (d : Z) (w : @World countingBarrier) (i : Z) :
  floorCalled (elev (set_elev (set_dir d) w)) i = floorCalled (elev w) i.
Proof. reflexivity. Qed.

Lemma set_currentfloor_inside_buttons (f : Z) (w : @World countingBarrier) (i : Z) :
  floorCalled (elev (set_elev (set_currentfloor f) w)) i = floorCalled (elev w) i.
Proof. reflexivity. Qed.

(** A rider on floor 3 wants to go up; the elevator is as constructed. *)
Definition up_call_at_3 : @World countingBarrier := CallUp 3 world0.

(** The same call with the elevator heading up. *)
Definition up_call_ahead : @World countingBarrier :=
  CallUp 3 (set_elev (set_dir 1) world0).

(** A rider on floor 2 wants to go down; the elevator is at floor 4,
    heading down. *)
Definition down_call_below : @World countingBarrier :=
  CallDown 2 (set_elev (set_currentfloor 4) world0).

Lemma Operating_scan_stays_in_building_witness :
  1 <= currentfloor (elev (Operating_scan up_call_at_3))
    <= floorCounts (elev (Operating_scan up_call_at_3)).
Proof.
  assert (H : 1 <= currentfloor (elev up_call_at_3)
                <= floorCounts (elev up_call_at_3)).
  { vm_compute. split; discriminate. }
  exact (proj1 (Operating_scan_stays_in_building up_call_at_3 H)).
Defined.

Lemma Operating_with_nothing_to_do_witness :
  Operating_scan world0 = set_elev (set_dir (1 - dir (elev world0))) world0.
Proof.
  assert (H1 : 1 <= currentfloor (elev world0) <= floorCounts (elev world0)).
  { vm_compute. split; discriminate. }
  assert (H2 : dir (elev world0) = 0 \/ dir (elev world0) = 1)
    by (left; reflexivity).
  exact (proj1 (Operating_with_nothing_to_do world0 H1 H2 world0_nothing_called)).
Defined.



Lemma up_sweep_serves_call_witness :
  currentfloor (elev (Operating_scan up_call_ahead)) = 3.
Proof.
  pose proof (CallUp_facts 3 (set_elev (set_dir 1) world0)) as (E & U & D & _).
  fold up_call_ahead in E, U, D.
  assert (H1 : dir (elev up_call_ahead) = UP) by (rewrite E; reflexivity).
  assert (H2 : 1 <= 3) by lia.
  assert (H3 : currentfloor (elev up_call_ahead) < 3
               <= floorCounts (elev up_call_ahead)).
  { rewrite E. vm_compute. split; [reflexivity | discriminate]. }
  assert (H4 : floorCalledUp (building up_call_ahead) 3 = 1 \/
               floorCalled (elev up_call_ahead) 3 = 1).
  { left. rewrite U. reflexivity. }
  assert (H5 : forall i, currentfloor (elev up_call_ahead) < i
                         <= floorCounts (elev up_call_ahead) -> i <> 3 ->
            floorCalledUp (building up_call_ahead) i <> 1 /\
            floorCalled (elev up_call_ahead) i <> 1).
  { rewrite E. intros i Hi Hne.
    change (1 < i <= 5) in Hi. split.
    - rewrite U. destruct (Z.eqb_spec i 3); [lia | discriminate].
    - rewrite set_dir_inside_buttons, world0_inside_buttons by lia. discriminate. }
  assert (H6 : forall i, 1 <= i <= floorCounts (elev up_call_ahead) ->
            floorCalledDown (building up_call_ahead) i <> 1).
  { intros i Hi. rewrite D. discriminate. }
  exact (proj1 (proj2 (up_sweep_serves_call up_call_ahead 3 H1 H2 H3 H4 H5 H6))).
Defined.

Lemma down_sweep_serves_call_witness :
  currentfloor (elev (Operating_scan down_call_below)) = 2.
Proof.
  pose proof (CallDown_facts 2 (set_elev (set_currentfloor 4) world0))
    as (E & D & U & _).
  fold down_call_below in E, U, D.
  assert (H1 : dir (elev down_call_below) = DOWN) by (rewrite E; reflexivity).
  assert (H2 : 1 <= 2 < currentfloor (elev down_call_below)).
  { rewrite E. vm_compute. split; [discriminate | reflexivity]. }
  assert (H3 : currentfloor (elev down_call_below)
               <= floorCounts (elev down_call_below) + 1).
  { rewrite E. vm_compute. discriminate. }
  assert (H4 : floorCalledDown (building down_call_below) 2 = 1 \/
               floorCalled (elev down_call_below) 2 = 1).
  { left. rewrite D. reflexivity. }
  assert (H5 : forall i, 1 <= i < currentfloor (elev down_call_below) -> i <> 2 ->
            floorCalledDown (building down_call_below) i <> 1 /\
            floorCalled (elev down_call_below) i <> 1).
  { rewrite E. intros i Hi Hne.
    change (1 <= i < 4) in Hi. split.
    - rewrite D. destruct (Z.eqb_spec i 2); [lia | discriminate].
    - rewrite set_currentfloor_inside_buttons, world0_inside_buttons by lia.
      discriminate. }
  assert (H6 : forall i, 1 <= i <= floorCounts (elev down_call_below) ->
            floorCalledUp (building down_call_below) i <> 1).
  { intros i Hi. rewrite U. discriminate. }
  exact (proj1 (proj2
    (down_sweep_serves_call down_call_below 2 H1 H2 H3 H4 H5 H6))).
Defined.

Lemma CallUp_is_answered_witness :
  currentfloor (elev (Operating_scan (CallUp 3 world0))) = 3.
Proof.
  assert (H1 : 1 <= currentfloor (elev world0) <= floorCounts (elev world0)).
  { vm_compute. split; discriminate. }
  assert (H2 : dir (elev world0) = DOWN \/ dir (elev world0) = UP)
    by (left; reflexivity).
  assert (H3 : 1 <= 3 <= floorCounts (elev world0)).
  { vm_compute. split; discriminate. }
  exact (proj1 (CallUp_is_answered world0 3 H1 H2 H3 world0_nothing_called)
           (or_introl eq_refl)).
Defined.

Lemma CallDown_is_answered_witness :
  currentfloor (elev (Operating_scan (CallDown 3 world0))) = 1 /\
  currentfloor (elev (Operating_scan (Operating_scan (CallDown 3 world0)))) = 3.
Proof.
  assert (H1 : 1 <= currentfloor (elev world0) <= floorCounts (elev world0)).
  { vm_compute. split; discriminate. }
  assert (H2 : dir (elev world0) = DOWN \/ dir (elev world0) = UP)
    by (left; reflexivity).
  assert (H3 : 1 <= 3 <= floorCounts (elev world0)).
  { vm_compute. split; discriminate. }
  assert (H4 : dir (elev world0) = DOWN /\ currentfloor (elev world0) <= 3).
  { split; [reflexivity | vm_compute; discriminate]. }
  exact (proj2 (CallDown_is_answered world0 3 H1 H2 H3 world0_nothing_called) H4).
Defined.

(** Elevator 7 stands at floor 3 heading down with its doors open: the
    down button of the floor is pressed, and two riders wait on the
    barrier of the floor, which was signalled. *)
Definition riders_waiting_down : @World flagBarrier :=
  @mkWorld flagBarrier (set_currentfloor 3 elevator7)
    (@mkBuilding flagBarrier 2 (fun _ => 0) (store (fun _ => 0) 3 1)
       (fun _ => mkBar 0 false)
       (store (fun _ => mkBar 0 false) 3 (mkBar 2 true))
       (fun _ => -1) (store (fun _ => -1) 3 7) 5 false)
    2 [].

(** The same with a full car. *)
Definition full_riders_waiting_down : @World flagBarrier :=
  set_elev (set_occupancy 2) riders_waiting_down.

Lemma Enter_heading_down_effects_witness :
  (* the rider is let in *)
  (exists ok, Enter riders_waiting_down =
                Ret ok (world_of (Enter riders_waiting_down)) /\
     (ok = true <-> 0 < 2)) /\
  floorCalledDown (building riders_waiting_down) 3 = 1 /\
  floorCalledDown (building (world_of (Enter riders_waiting_down))) 3 = 0 /\
  enterBarDown (building riders_waiting_down) 3 = mkBar 2 true /\
  enterBarDown (building (world_of (Enter riders_waiting_down))) 3 =
    mkBar 1 true /\
  (* the rider is turned away *)
  (exists ok, Enter full_riders_waiting_down =
                Ret ok (world_of (Enter full_riders_waiting_down)) /\
     (ok = true <-> 2 < 2)) /\
  floorCalledDown (building full_riders_waiting_down) 3 = 1 /\
  floorCalledDown (building (world_of (Enter full_riders_waiting_down))) 3 = 0 /\
  enterBarDown (building full_riders_waiting_down) 3 = mkBar 2 true /\
  enterBarDown (building (world_of (Enter full_riders_waiting_down))) 3 =
    mkBar 1 true.
Proof.
  assert (H1 : dir (elev riders_waiting_down) <> 1) by (vm_compute; discriminate).
  assert (H2 : 1 <= riderRequest (building riders_waiting_down) <= Int.max_int).
  { vm_compute. split; discriminate. }
  assert (H3 : dir (elev full_riders_waiting_down) <> 1)
    by (vm_compute; discriminate).
  assert (H4 : 1 <= riderRequest (building full_riders_waiting_down)
                 <= Int.max_int).
  { vm_compute. split; discriminate. }
  assert (F1 : currentfloor (elev riders_waiting_down) = 3) by reflexivity.
  assert (F2 : currentfloor (elev full_riders_waiting_down) = 3) by reflexivity.
  assert (O1 : occupancy (elev riders_waiting_down) = 0) by reflexivity.
  assert (O2 : occupancy (elev full_riders_waiting_down) = 2) by reflexivity.
  assert (C1 : capacity riders_waiting_down = 2) by reflexivity.
  assert (C2 : capacity full_riders_waiting_down = 2) by reflexivity.
  assert (D1 : floorCalledDown (building riders_waiting_down) 3 = 1)
    by reflexivity.
  assert (D2 : floorCalledDown (building full_riders_waiting_down) 3 = 1)
    by reflexivity.
  assert (E1 : enterBarDown (building riders_waiting_down) 3 = mkBar 2 true)
    by reflexivity.
  assert (E2 : enterBarDown (building full_riders_waiting_down) 3 = mkBar 2 true)
    by reflexivity.
  assert (Hc : @Complete flagBarrier (mkBar 2 true) = mkBar 1 true)
    by reflexivity.
  pose proof (@Enter_heading_down_effects flagBarrier riders_waiting_down H1 H2)
    as (A1 & A2 & _ & _ & A3 & _).
  pose proof (@Enter_heading_down_effects flagBarrier full_riders_waiting_down
                H3 H4)
    as (B1 & B2 & _ & _ & B3 & _).
  rewrite O1, C1 in A1. rewrite F1 in A2, A3. rewrite E1, Hc in A3.
  rewrite O2, C2 in B1. rewrite F2 in B2, B3. rewrite E2, Hc in B3.
  exact (conj A1 (conj D1 (conj A2 (conj E1 (conj A3
         (conj B1 (conj D2 (conj B2 (conj E2 B3))))))))).
Defined.

Lemma call_wakes_the_elevator_witness :
  idle (CallUp 3 world0) = false /\ idle (CallDown 3 world0) = false.
Proof.
  assert (H : 0 <= riderRequest (building world0) < Int.max_int).
  { vm_compute. split; [discriminate | reflexivity]. }
  pose proof (call_wakes_the_elevator 3 world0 H)
    as ((_ & _ & _ & A & _) & (_ & _ & _ & B & _) & _).
  exact (conj A B).
Defined.

End ElevService.
